(** * Teaching board: instruments, strokes and the pointer state machine

    A shallow embedding of the geometric core of the whiteboard
    (src/types.ts, src/constants.ts, the canvas utilities and the pointer
    handlers of src/App.tsx) and of the clean-up that the diagram service
    applies to the code it receives.

    Numbers.  A JavaScript [number] is modelled by a real of the Standard
    Library: [Math.cos], [Math.sin], [Math.hypot] and [Math.atan2] are the
    exact functions, so the statements below are about ideal arithmetic
    (no rounding, no NaN, no signed zero).  A statement that follows the
    tests of the code and gives its results by the expressions of the code
    reads the same with the rounded operators.  A statement that rests on
    an identity of the reals does not: it is then either said to hold in
    exact arithmetic, or restricted to the half-unit grid ([onGrid]) on
    which the sums of the code are exact in binary64 as well.  The module
    [F64] restates the compass arc over binary64 floats and shows where the
    two arithmetics part.

    State.  Every handler reads the values captured by its closure (the
    state of the last render) and writes through [setItems (prev => ...)].
    The model renders between two events, so the closure and [prev]
    coincide when a handler starts; inside a handler the reads still go to
    the captured value and the writes are composed in program order. *)

From Stdlib Require Import Reals Lra Lia List String Bool Arith.
From Stdlib Require Import DecimalString NArith.
From Stdlib Require Floats.
Import ListNotations.
Open Scope R_scope.

(** ** Numbers and truthiness *)

Definition number : Type := R.

Definition ltb (a b : number) : bool := if Rlt_dec a b then true else false.
Definition leb (a b : number) : bool := if Rle_dec a b then true else false.
Definition geb (a b : number) : bool := leb b a.

(** [n || d] on numbers: zero is falsy. *)
Definition num_or (n d : number) : number :=
  if Req_dec_T n 0 then d else n.

(** [o || d] on an optional number property: [undefined] and zero are falsy. *)
Definition opt_or (o : option number) (d : number) : number :=
  match o with
  | Some n => num_or n d
  | None => d
  end.

(** A string property used as a condition: [undefined] and the empty string
    are falsy. *)
Definition truthy_string (o : option string) : bool :=
  match o with
  | Some s => negb (String.eqb s EmptyString)
  | None => false
  end.

Definition hypot (dx dy : number) : number := sqrt (dx * dx + dy * dy).

Definition sign (d : number) : number :=
  if Rlt_dec 0 d then 1 else if Rlt_dec d 0 then -1 else 0.

(** [Math.atan2 dy dx], by quadrant. *)
Definition atan2 (dy dx : number) : number :=
  if Rlt_dec 0 dx then atan (dy / dx)
  else if Rlt_dec dx 0 then
         (if Rle_dec 0 dy then atan (dy / dx) + PI else atan (dy / dx) - PI)
  else if Rlt_dec 0 dy then PI / 2
  else if Rlt_dec dy 0 then - (PI / 2)
  else 0.

(** ** Data model (src/types.ts) *)

Inductive ToolMode : Type :=
  | select | pen | eraser | text | ruler | protractor | compass | triangle.

Inductive StrokeStyle : Type := solid | dashed | dotted | marker.

Inductive WidgetType : Type :=
  | Ruler | Protractor | Compass | Triangle | Image | Text.

(** The [type] tag of a canvas item. *)
Inductive ItemType : Type :=
  | TStroke
  | TWidget (t : WidgetType).

Definition WidgetType_eqb (a b : WidgetType) : bool :=
  match a, b with
  | Ruler, Ruler | Protractor, Protractor | Compass, Compass
  | Triangle, Triangle | Image, Image | Text, Text => true
  | _, _ => false
  end.

Definition ItemType_eqb (a b : ItemType) : bool :=
  match a, b with
  | TStroke, TStroke => true
  | TWidget s, TWidget t => WidgetType_eqb s t
  | _, _ => false
  end.

Definition ToolMode_eqb (a b : ToolMode) : bool :=
  match a, b with
  | select, select | pen, pen | eraser, eraser | text, text | ruler, ruler
  | protractor, protractor | compass, compass | triangle, triangle => true
  | _, _ => false
  end.

Module Point.
Record t : Type := mk { x : number; y : number }.
End Point.

Module Stroke.
(** [selected] and [visible] are not declared on a stroke in types.ts;
    the object spreads of the handlers ([{...i, selected: false}]) add
    them at run time, and the visibility tests read [visible] on every
    item, so the record carries both as optional properties. *)
Record t : Type := mk {
  id : string;
  points : list Point.t;
  color : string;
  width : number;
  strokeStyle : option StrokeStyle;
  selected : option bool;
  visible : option bool
}.

Definition with_points (s : t) (ps : list Point.t) : t :=
  mk (id s) ps (color s) (width s) (strokeStyle s) (selected s) (visible s).
Definition with_selected (s : t) (b : bool) : t :=
  mk (id s) (points s) (color s) (width s) (strokeStyle s) (Some b) (visible s).
Definition with_visible (s : t) (b : bool) : t :=
  mk (id s) (points s) (color s) (width s) (strokeStyle s) (selected s) (Some b).
End Stroke.

Module Widget.
Record t : Type := mk {
  id : string;
  type : WidgetType;
  x : number;
  y : number;
  angle : number;
  scale : number;
  selected : bool;
  visible : option bool;
  text : option string;
  src : option string;
  width : option number;
  height : option number;
  radius : option number;
  drawAngle : option number
}.

Definition with_selected (w : t) (b : bool) : t :=
  mk (id w) (type w) (x w) (y w) (angle w) (scale w) b (visible w)
     (text w) (src w) (width w) (height w) (radius w) (drawAngle w).
Definition with_visible (w : t) (b : bool) : t :=
  mk (id w) (type w) (x w) (y w) (angle w) (scale w) (selected w) (Some b)
     (text w) (src w) (width w) (height w) (radius w) (drawAngle w).
Definition with_angle (w : t) (a : number) : t :=
  mk (id w) (type w) (x w) (y w) a (scale w) (selected w) (visible w)
     (text w) (src w) (width w) (height w) (radius w) (drawAngle w).
Definition with_xy (w : t) (nx ny : number) : t :=
  mk (id w) (type w) nx ny (angle w) (scale w) (selected w) (visible w)
     (text w) (src w) (width w) (height w) (radius w) (drawAngle w).
End Widget.

Inductive CanvasItem : Type :=
  | IStroke (s : Stroke.t)
  | IWidget (w : Widget.t).

Definition item_id (i : CanvasItem) : string :=
  match i with
  | IStroke s => Stroke.id s
  | IWidget w => Widget.id w
  end.

Definition item_type (i : CanvasItem) : ItemType :=
  match i with
  | IStroke _ => TStroke
  | IWidget w => TWidget (Widget.type w)
  end.

(** [(item as Widget).visible], which may be [undefined]. *)
Definition item_visible (i : CanvasItem) : option bool :=
  match i with
  | IStroke s => Stroke.visible s
  | IWidget w => Widget.visible w
  end.

(** [item.selected], [undefined] on a stroke that no handler has touched. *)
Definition item_selected (i : CanvasItem) : option bool :=
  match i with
  | IStroke s => Stroke.selected s
  | IWidget w => Some (Widget.selected w)
  end.

(** [item.visible === false] *)
Definition is_hidden (i : CanvasItem) : bool :=
  match item_visible i with
  | Some false => true
  | _ => false
  end.

Definition is_stroke (i : CanvasItem) : bool :=
  match i with
  | IStroke _ => true
  | IWidget _ => false
  end.

Definition is_selected (i : CanvasItem) : bool :=
  match item_selected i with
  | Some true => true
  | _ => false
  end.

(** [{...i, selected: b}] *)
Definition set_selected (b : bool) (i : CanvasItem) : CanvasItem :=
  match i with
  | IStroke s => IStroke (Stroke.with_selected s b)
  | IWidget w => IWidget (Widget.with_selected w b)
  end.

(** [{...i, visible: b}] *)
Definition set_visible (b : bool) (i : CanvasItem) : CanvasItem :=
  match i with
  | IStroke s => IStroke (Stroke.with_visible s b)
  | IWidget w => IWidget (Widget.with_visible w b)
  end.

(** ** Constants (src/constants.ts) *)

Module TOOL_DEFAULTS.
Definition RULER_width : number := 400.
Definition RULER_height : number := 50.
Definition TRIANGLE_width : number := 200.
Definition TRIANGLE_height : number := 200.
Definition PROTRACTOR_radius : number := 100.
Definition COMPASS_radius : number := 100.
Definition COMPASS_height : number := 150.
End TOOL_DEFAULTS.

(** The half opening of the compass, a local constant of [getCompassPoints],
    [drawCompass] and the compass branch of [handleMouseMove]. *)
Definition spread : number := 40.

(** ** Geometry kernel *)

Definition convertLocalToWorld (lx ly cx cy rad : number) : Point.t :=
  let cos := cos rad in
  let sin := sin rad in
  let wx := lx * cos - ly * sin + cx in
  let wy := lx * sin + ly * cos + cy in
  Point.mk wx wy.

(** The world-to-local step that [getSnapPoint] performs inline: subtract
    the pivot, rotate by [-rad]. *)
Definition worldToLocal (x y cx cy rad : number) : Point.t :=
  let cos := cos (- rad) in
  let sin := sin (- rad) in
  let dx := x - cx in
  let dy := y - cy in
  let localX := dx * cos - dy * sin in
  let localY := dx * sin + dy * cos in
  Point.mk localX localY.

Definition deg2rad (a : number) : number := (a * PI) / 180.

Module CompassPoints.
Record t : Type := mk { needle : Point.t; pencil : Point.t }.
End CompassPoints.

Definition getCompassPoints (c : Widget.t) : CompassPoints.t :=
  let height := opt_or (Widget.height c) 150 in
  let rad := deg2rad (Widget.angle c) in
  CompassPoints.mk
    (convertLocalToWorld (- spread) height (Widget.x c) (Widget.y c) rad)
    (convertLocalToWorld spread height (Widget.x c) (Widget.y c) rad).

(** ** Snap resolver *)

(** The body of the loop of [getSnapPoint] for one item: [Some p] when the
    loop returns [p] at this item, [None] when it goes on to the next. *)
Definition snapItem (x y : number) (item : CanvasItem) (threshold : number)
  : option Point.t :=
  if is_hidden item then None
  else
    match item with
    | IStroke _ => None
    | IWidget widget =>
      match Widget.type widget with
      | Ruler =>
        let w := opt_or (Widget.width widget) 100 in
        let h := opt_or (Widget.height widget) 50 in
        let rad := deg2rad (Widget.angle widget) in
        let l := worldToLocal x y (Widget.x widget) (Widget.y widget) rad in
        let localX := Point.x l in
        let localY := Point.y l in
        if geb localX (- w / 2 - threshold) && leb localX (w / 2 + threshold)
        then
          if ltb (Rabs (localY - (- h / 2))) threshold
          then Some (convertLocalToWorld localX (- h / 2)
                       (Widget.x widget) (Widget.y widget) rad)
          else if ltb (Rabs (localY - h / 2)) threshold
          then Some (convertLocalToWorld localX (h / 2)
                       (Widget.x widget) (Widget.y widget) rad)
          else None
        else None
      | Triangle =>
        let w := opt_or (Widget.width widget) 100 in
        let h := opt_or (Widget.height widget) 50 in
        let rad := deg2rad (Widget.angle widget) in
        let l := worldToLocal x y (Widget.x widget) (Widget.y widget) rad in
        let localX := Point.x l in
        let localY := Point.y l in
        let vertical :=
          if geb localY (0 - threshold) && leb localY (h + threshold)
          then
            if ltb (Rabs localX) threshold
            then Some (convertLocalToWorld 0 localY
                         (Widget.x widget) (Widget.y widget) rad)
            else None
          else None in
        if geb localX (0 - threshold) && leb localX (w + threshold)
        then
          if ltb (Rabs localY) threshold
          then Some (convertLocalToWorld localX 0
                       (Widget.x widget) (Widget.y widget) rad)
          else vertical
        else vertical
      | _ => None
      end
    end.

Fixpoint getSnapPoint (x y : number) (items : list CanvasItem)
  (threshold : number) : option Point.t :=
  match items with
  | [] => None
  | item :: rest =>
    match snapItem x y item threshold with
    | Some p => Some p
    | None => getSnapPoint x y rest threshold
    end
  end.

(** The default value of the [threshold] parameter. *)
Definition default_threshold : number := 20.

(** ** Application state (the hooks and refs of [App]) *)

Inductive DragType : Type := move | rotate | compass_arc.

Definition DragType_eqb (a b : DragType) : bool :=
  match a, b with
  | move, move | rotate, rotate | compass_arc, compass_arc => true
  | _, _ => false
  end.

Definition is_drag (d : option DragType) (k : DragType) : bool :=
  match d with
  | Some d' => DragType_eqb d' k
  | None => false
  end.

(** The size of the canvas element; [None] while [canvasRef.current] is
    null.  Width and height of a canvas are non-negative integers. *)
Module Canvas.
Record t : Type := mk { width : nat; height : nat }.
End Canvas.

Module App.
Record t : Type := mk {
  mode : ToolMode;
  color : string;
  width : number;
  strokeStyle : StrokeStyle;
  items : list CanvasItem;
  currentStroke : option Stroke.t;
  snap : bool;
  grid : bool;
  canvas : option Canvas.t;
  isDragging : bool;
  dragType : option DragType;
  lastPos : Point.t;
  selectedItemId : option string;
  compassPivot : option Point.t
}.

Definition with_mode (s : t) (m : ToolMode) : t :=
  mk m (color s) (width s) (strokeStyle s) (items s) (currentStroke s)
     (snap s) (grid s) (canvas s) (isDragging s) (dragType s) (lastPos s)
     (selectedItemId s) (compassPivot s).
Definition with_items (s : t) (l : list CanvasItem) : t :=
  mk (mode s) (color s) (width s) (strokeStyle s) l (currentStroke s)
     (snap s) (grid s) (canvas s) (isDragging s) (dragType s) (lastPos s)
     (selectedItemId s) (compassPivot s).
Definition with_currentStroke (s : t) (c : option Stroke.t) : t :=
  mk (mode s) (color s) (width s) (strokeStyle s) (items s) c
     (snap s) (grid s) (canvas s) (isDragging s) (dragType s) (lastPos s)
     (selectedItemId s) (compassPivot s).
Definition with_isDragging (s : t) (b : bool) : t :=
  mk (mode s) (color s) (width s) (strokeStyle s) (items s) (currentStroke s)
     (snap s) (grid s) (canvas s) b (dragType s) (lastPos s)
     (selectedItemId s) (compassPivot s).
Definition with_dragType (s : t) (d : option DragType) : t :=
  mk (mode s) (color s) (width s) (strokeStyle s) (items s) (currentStroke s)
     (snap s) (grid s) (canvas s) (isDragging s) d (lastPos s)
     (selectedItemId s) (compassPivot s).
Definition with_lastPos (s : t) (p : Point.t) : t :=
  mk (mode s) (color s) (width s) (strokeStyle s) (items s) (currentStroke s)
     (snap s) (grid s) (canvas s) (isDragging s) (dragType s) p
     (selectedItemId s) (compassPivot s).
Definition with_selectedItemId (s : t) (i : option string) : t :=
  mk (mode s) (color s) (width s) (strokeStyle s) (items s) (currentStroke s)
     (snap s) (grid s) (canvas s) (isDragging s) (dragType s) (lastPos s)
     i (compassPivot s).
Definition with_snap (s : t) (b : bool) : t :=
  mk (mode s) (color s) (width s) (strokeStyle s) (items s) (currentStroke s)
     b (grid s) (canvas s) (isDragging s) (dragType s) (lastPos s)
     (selectedItemId s) (compassPivot s).
Definition with_grid (s : t) (b : bool) : t :=
  mk (mode s) (color s) (width s) (strokeStyle s) (items s) (currentStroke s)
     (snap s) b (canvas s) (isDragging s) (dragType s) (lastPos s)
     (selectedItemId s) (compassPivot s).
Definition with_pen (s : t) (c : string) (w : number) (st : StrokeStyle) : t :=
  mk (mode s) c w st (items s) (currentStroke s)
     (snap s) (grid s) (canvas s) (isDragging s) (dragType s) (lastPos s)
     (selectedItemId s) (compassPivot s).
Definition with_canvas (s : t) (cv : option Canvas.t) : t :=
  mk (mode s) (color s) (width s) (strokeStyle s) (items s) (currentStroke s)
     (snap s) (grid s) cv (isDragging s) (dragType s) (lastPos s)
     (selectedItemId s) (compassPivot s).
Definition with_compassPivot (s : t) (p : option Point.t) : t :=
  mk (mode s) (color s) (width s) (strokeStyle s) (items s) (currentStroke s)
     (snap s) (grid s) (canvas s) (isDragging s) (dragType s) (lastPos s)
     (selectedItemId s) p.

(** The state of the first render: [useState] and [useRef] initial values. *)
Definition init (cv : option Canvas.t) : t :=
  mk select "#000000"%string 4 solid [] None true true cv false None
     (Point.mk 0 0) None None.
End App.

(** [item.id === selectedItemId.current] *)
Definition id_is (o : option string) (i : CanvasItem) : bool :=
  match o with
  | Some s => String.eqb (item_id i) s
  | None => false
  end.

(** ** Pointer-down *)

(** The predicate of the hit test of [handleMouseDown]. *)
Definition hitPred (x y : number) (item : CanvasItem) : bool :=
  if is_hidden item then false
  else
    match item with
    | IStroke _ => false
    | IWidget w =>
      let dx := x - Widget.x w in
      let dy := y - Widget.y w in
      ltb (hypot dx dy) 100
    end.

(** [[...items].reverse().find(...)] *)
Definition hitTest (x y : number) (items : list CanvasItem)
  : option CanvasItem :=
  find (hitPred x y) (rev items).

(** The stroke literal that the pen and the compass start with. *)
Definition freshStroke (s : App.t) (uid : string) (p : Point.t) : Stroke.t :=
  Stroke.mk uid [p] (App.color s) (App.width s) (Some (App.strokeStyle s))
            None None.

(** [handleMouseDown]: [x], [y] are the result of [getMousePos],
    [isRightClick] is [e.button === 2] and [uid] is the value that
    [uuidv4()] returns if the handler calls it (at most once). *)
Definition handleMouseDown (s : App.t) (x y : number) (isRightClick : bool)
  (uid : string) : App.t :=
  let items0 := App.items s in
  let clickedItem := hitTest x y items0 in
  let s1 :=
    match clickedItem with
    | Some clicked =>
      let s := App.with_selectedItemId s (Some (item_id clicked)) in
      let s := App.with_items s
                 (map (fun i => set_selected (String.eqb (item_id i) (item_id clicked)) i)
                      (App.items s)) in
      if isRightClick then
        match clicked with
        | IWidget c =>
          if WidgetType_eqb (Widget.type c) Compass then
            let s := App.with_dragType s (Some compass_arc) in
            let points := getCompassPoints c in
            let s := App.with_compassPivot s (Some (CompassPoints.needle points)) in
            App.with_currentStroke s
              (Some (freshStroke s uid (CompassPoints.pencil points)))
          else App.with_dragType s (Some rotate)
        | IStroke _ => App.with_dragType s (Some rotate)
        end
      else
        if ToolMode_eqb (App.mode s) select
        then App.with_dragType s (Some move)
        else s
    | None =>
      if ToolMode_eqb (App.mode s) select then
        let s := App.with_selectedItemId s None in
        let s := App.with_items s (map (set_selected false) (App.items s)) in
        App.with_dragType s None
      else s
    end in
  let '(s2, x, y) :=
    if negb isRightClick && ToolMode_eqb (App.mode s) pen then
      let '(x, y) :=
        if App.snap s then
          match getSnapPoint x y items0 default_threshold with
          | Some snapPos => (Point.x snapPos, Point.y snapPos)
          | None => (x, y)
          end
        else (x, y) in
      let s1 := App.with_currentStroke s1
                  (Some (freshStroke s uid (Point.mk x y))) in
      (App.with_dragType s1 None, x, y)
    else (s1, x, y) in
  let s3 :=
    if ToolMode_eqb (App.mode s) eraser
    then App.with_dragType s2 None
    else s2 in
  let s4 := App.with_lastPos s3 (Point.mk x y) in
  App.with_isDragging s4 true.

(** ** Pointer-move *)

(** [prev.map(item => item.id === selectedItemId.current ? f item : item)]
    for an [f] that reads and rewrites widget properties ([x], [y],
    [angle]).  On a stroke those reads are [undefined] and JavaScript
    stores NaN in properties that nothing else reads; the model, which has
    no NaN, leaves such a stroke as it is.  A stroke can only match when it
    shares its id with the selected widget, which [uuidv4] excludes. *)
Definition updateSelected (sel : option string) (f : Widget.t -> Widget.t)
  (item : CanvasItem) : CanvasItem :=
  if id_is sel item then
    match item with
    | IWidget w => IWidget (f w)
    | IStroke _ => item
    end
  else item.

(** The widget written by the compass branch: the new angle, and the hinge
    placed so that the needle stays on [pivot]. *)
Definition compassTurn (pivot : Point.t) (deltaAngle : number) (w : Widget.t)
  : Widget.t :=
  let newAngle := Widget.angle w + deltaAngle in
  let height := opt_or (Widget.height w) 150 in
  let rad := deg2rad newAngle in
  let cos := cos rad in
  let sin := sin rad in
  let vX := - spread * cos - height * sin in
  let vY := - spread * sin + height * cos in
  let newCx := Point.x pivot - vX in
  let newCy := Point.y pivot - vY in
  Widget.with_xy (Widget.with_angle w newAngle) newCx newCy.

(** The pencil tip that the compass branch recomputes from the captured
    item to extend the stroke. *)
Definition compassPencil (pivot : Point.t) (deltaAngle : number)
  (currentItem : Widget.t) : Point.t :=
  let newAngle := Widget.angle currentItem + deltaAngle in
  let height := opt_or (Widget.height currentItem) 150 in
  let rad := deg2rad newAngle in
  let cos := cos rad in
  let sin := sin rad in
  let vX := - spread * cos - height * sin in
  let vY := - spread * sin + height * cos in
  let newCx := Point.x pivot - vX in
  let newCy := Point.y pivot - vY in
  let pX := spread * cos - height * sin + newCx in
  let pY := spread * sin + height * cos + newCy in
  Point.mk pX pY.

(** [setCurrentStroke(prev => prev ? {...prev, points: [...prev.points, p]} : null)] *)
Definition appendPoint (p : Point.t) (c : option Stroke.t) : option Stroke.t :=
  match c with
  | Some prev => Some (Stroke.with_points prev (Stroke.points prev ++ [p]))
  | None => None
  end.

(** The predicate of the eraser's [filter]: [true] keeps the item. *)
Definition eraserKeeps (x y : number) (item : CanvasItem) : bool :=
  if is_hidden item then true
  else
    match item with
    | IStroke s =>
      negb (existsb
              (fun p => ltb (hypot (Point.x p - x) (Point.y p - y)) 20)
              (Stroke.points s))
    | IWidget _ => true
    end.

Definition isSome {A : Type} (o : option A) : bool :=
  match o with Some _ => true | None => false end.

Definition handleMouseMove (s : App.t) (x y : number) : App.t :=
  if negb (App.isDragging s) then s
  else
    let items0 := App.items s in
    let sel := App.selectedItemId s in
    let last := App.lastPos s in
    let '(s1, x, y) :=
      if is_drag (App.dragType s) compass_arc && truthy_string sel
         && isSome (App.compassPivot s)
      then
        match App.compassPivot s with
        | Some pivot =>
          let dx := x - Point.x pivot in
          let dy := y - Point.y pivot in
          let mouseAngle := atan2 dy dx * 180 / PI in
          let oldDx := Point.x last - Point.x pivot in
          let oldDy := Point.y last - Point.y pivot in
          let oldAngle := atan2 oldDy oldDx * 180 / PI in
          let deltaAngle := mouseAngle - oldAngle in
          let s1 := App.with_items s
                      (map (updateSelected sel (compassTurn pivot deltaAngle))
                           (App.items s)) in
          let s1 :=
            match find (id_is sel) items0 with
            | Some (IWidget currentItem) =>
              App.with_currentStroke s1
                (appendPoint (compassPencil pivot deltaAngle currentItem)
                             (App.currentStroke s1))
            | Some (IStroke _) => s1 (* NaN point in JavaScript, see [updateSelected] *)
            | None => s1
            end in
          (s1, x, y)
        | None => (s, x, y)
        end
      else if is_drag (App.dragType s) rotate && truthy_string sel then
        let deltaY := y - Point.y last in
        let rotationSpeed := 0.5 in
        (App.with_items s
           (map (updateSelected sel
                   (fun w => Widget.with_angle w
                               (Widget.angle w + deltaY * rotationSpeed)))
                (App.items s)), x, y)
      else if ToolMode_eqb (App.mode s) pen && isSome (App.currentStroke s) then
        let '(x, y) :=
          if App.snap s then
            match getSnapPoint x y items0 default_threshold with
            | Some snapPos => (Point.x snapPos, Point.y snapPos)
            | None => (x, y)
            end
          else (x, y) in
        (App.with_currentStroke s
           (appendPoint (Point.mk x y) (App.currentStroke s)), x, y)
      else if is_drag (App.dragType s) move && truthy_string sel then
        let dx := x - Point.x last in
        let dy := y - Point.y last in
        (App.with_items s
           (map (updateSelected sel
                   (fun w => Widget.with_xy w (Widget.x w + dx) (Widget.y w + dy)))
                (App.items s)), x, y)
      else if ToolMode_eqb (App.mode s) eraser then
        (App.with_items s (filter (eraserKeeps x y) (App.items s)), x, y)
      else (s, x, y) in
    App.with_lastPos s1 (Point.mk x y).

(** ** Pointer-up and wheel *)

Definition handleMouseUp (s : App.t) : App.t :=
  let s1 := App.with_isDragging s false in
  let s2 :=
    match App.currentStroke s with
    | Some cur =>
      if is_drag (App.dragType s) compass_arc
      then App.with_currentStroke
             (App.with_items s1 (App.items s1 ++ [IStroke cur])) None
      else if ToolMode_eqb (App.mode s) pen
      then App.with_currentStroke
             (App.with_items s1 (App.items s1 ++ [IStroke cur])) None
      else s1
    | None => s1
    end in
  App.with_compassPivot (App.with_dragType s2 None) None.

Definition handleWheel (s : App.t) (deltaY : number) : App.t :=
  if truthy_string (App.selectedItemId s) then
    let delta := sign deltaY * 5 in
    App.with_items s
      (map (fun item =>
              if id_is (App.selectedItemId s) item && negb (is_stroke item)
              then
                match item with
                | IWidget w =>
                  IWidget (Widget.with_angle w (num_or (Widget.angle w) 0 + delta))
                | IStroke _ => item
                end
              else item)
           (App.items s))
  else s.

(** ** Tools: instruments, layer panel, paste and diagram injection *)

(** [items.findIndex(f)], with [None] for [-1]. *)
Fixpoint findIndex {A : Type} (f : A -> bool) (l : list A) : option nat :=
  match l with
  | [] => None
  | a :: rest =>
    if f a then Some O
    else match findIndex f rest with
         | Some n => Some (S n)
         | None => None
         end
  end.

(** [l.map((i, idx) => f i idx)], the indices starting at [n]. *)
Fixpoint mapi_from {A B : Type} (f : A -> nat -> B) (n : nat) (l : list A)
  : list B :=
  match l with
  | [] => []
  | a :: rest => f a n :: mapi_from f (S n) rest
  end.

Definition mapi {A B : Type} (f : A -> nat -> B) (l : list A) : list B :=
  mapi_from f O l.

(** [singletons.includes(type)] *)
Definition isSingleton (t : WidgetType) : bool :=
  match t with
  | Ruler | Protractor | Triangle | Compass => true
  | Image | Text => false
  end.

(** The widget literal of [addWidget]. *)
Definition newWidget (uid : string) (type : WidgetType) (cx cy : number)
  : Widget.t :=
  Widget.mk uid type cx cy 0 1 true (Some true) None None
    (match type with
     | Ruler => Some TOOL_DEFAULTS.RULER_width
     | Triangle => Some TOOL_DEFAULTS.TRIANGLE_width
     | _ => None
     end)
    (match type with
     | Ruler => Some TOOL_DEFAULTS.RULER_height
     | Triangle => Some TOOL_DEFAULTS.TRIANGLE_height
     | Compass => Some TOOL_DEFAULTS.COMPASS_height
     | _ => None
     end)
    (match type with
     | Protractor => Some TOOL_DEFAULTS.PROTRACTOR_radius
     | _ => None
     end)
    None.

(** [addWidget(type)]; [uid] is the value of [uuidv4()] on the creation
    path. *)
Definition addWidget (s : App.t) (type : WidgetType) (uid : string) : App.t :=
  let items0 := App.items s in
  let existingIndex :=
    if isSingleton type
    then findIndex (fun i => ItemType_eqb (item_type i) (TWidget type)) items0
    else None in
  match existingIndex with
  | Some idx =>
    match nth_error items0 idx with
    | Some existing =>
      let willBeVisible := is_hidden existing in
      let s1 := App.with_items s
                  (mapi (fun i idx' =>
                           if Nat.eqb idx' idx
                           then set_selected willBeVisible
                                  (set_visible willBeVisible i)
                           else set_selected false i)
                        (App.items s)) in
      if willBeVisible then
        App.with_mode
          (App.with_selectedItemId s1 (Some (item_id existing))) select
      else if id_is (App.selectedItemId s1) existing
      then App.with_selectedItemId s1 None
      else s1
    | None => s (* not reached: [idx] is an index of [items0] *)
    end
  | None =>
    let cx := match App.canvas s with
              | Some cv => INR (Canvas.width cv) / 2
              | None => 400
              end in
    let cy := match App.canvas s with
              | Some cv => INR (Canvas.height cv) / 2
              | None => 300
              end in
    let widget := newWidget uid type cx cy in
    let s1 := App.with_mode s select in
    let s2 := App.with_items s1
                (map (set_selected false) (App.items s1) ++ [IWidget widget]) in
    App.with_selectedItemId s2 (Some (Widget.id widget))
  end.

Definition toggleVisibility (s : App.t) (id : string) : App.t :=
  App.with_items s
    (map (fun item =>
            if String.eqb (item_id item) id
            then set_visible
                   (negb (match item_visible item with
                          | Some b => b
                          | None => false
                          end)) item
            else item)
         (App.items s)).

Definition deleteItem (s : App.t) (id : string) : App.t :=
  App.with_items s
    (filter (fun i => negb (String.eqb (item_id i) id)) (App.items s)).

(** The click on a row of the layer panel. *)
Definition selectLayer (s : App.t) (id : string) : App.t :=
  App.with_selectedItemId
    (App.with_items s
       (map (fun i => set_selected (String.eqb (item_id i) id) i) (App.items s)))
    (Some id).

(** The "Clear Board" button: [setItems([])]. *)
Definition clearBoard (s : App.t) : App.t := App.with_items s [].

(** [canvasRef.current?.width ? canvasRef.current.width / 2 : d] *)
Definition halfOr (dim : option nat) (d : number) : number :=
  match dim with
  | Some n => if Nat.eqb n 0 then d else INR n / 2
  | None => d
  end.

(** The image widget that the [img.onload] callbacks build. *)
Definition imageWidget (s : App.t) (uid src : string) (scale dx dy : number)
  (imgW imgH : nat) : Widget.t :=
  Widget.mk uid Image
    (halfOr (option_map Canvas.width (App.canvas s)) dx)
    (halfOr (option_map Canvas.height (App.canvas s)) dy)
    0 scale true (Some true) None (Some src)
    (Some (INR imgW)) (Some (INR imgH)) None None.

(** [handleCanvasPaste], at the point where the pasted image has loaded:
    [uid] is [uuidv4()], [base64] the data URL, [imgW], [imgH] the size of
    the decoded image. *)
Definition handleCanvasPaste (s : App.t) (uid base64 : string)
  (imgW imgH : nat) : App.t :=
  let widget := imageWidget s uid base64 0.5 300 300 imgW imgH in
  App.with_mode (App.with_items s (App.items s ++ [IWidget widget])) select.

(** [handleGenerateTikz], at the point where the compiled diagram has
    loaded. *)
Definition handleGenerateTikz (s : App.t) (uid fullSrc : string)
  (imgW imgH : nat) : App.t :=
  let widget := imageWidget s uid fullSrc 1 400 300 imgW imgH in
  App.with_items s (App.items s ++ [IWidget widget]).

(** [isToolVisible(type)], the highlight of an instrument's toolbar button. *)
Definition isToolVisible (s : App.t) (type : WidgetType) : bool :=
  existsb (fun i => ItemType_eqb (item_type i) (TWidget type)
                    && negb (is_hidden i))
          (App.items s).


(** ** Events *)

Inductive Event : Type :=
  | MouseDown (x y : number) (isRightClick : bool) (uid : string)
  | MouseMove (x y : number)
  | MouseUp
  | Wheel (deltaY : number)
  | AddWidget (type : WidgetType) (uid : string)
  | ToggleVisibility (id : string)
  | DeleteItem (id : string)
  | SelectLayer (id : string)
  | ClearBoard
  | CanvasPaste (uid base64 : string) (imgW imgH : nat)
  | GenerateTikz (uid fullSrc : string) (imgW imgH : nat)
  | SetMode (m : ToolMode)
  | SetPen (c : string) (w : number) (st : StrokeStyle)
  | SetSnap (b : bool)
  | SetGrid (b : bool)
  | Resize (w h : nat).

Definition step (s : App.t) (e : Event) : App.t :=
  match e with
  | MouseDown x y r uid => handleMouseDown s x y r uid
  | MouseMove x y => handleMouseMove s x y
  | MouseUp => handleMouseUp s
  | Wheel d => handleWheel s d
  | AddWidget t uid => addWidget s t uid
  | ToggleVisibility id => toggleVisibility s id
  | DeleteItem id => deleteItem s id
  | SelectLayer id => selectLayer s id
  | ClearBoard => clearBoard s
  | CanvasPaste uid src w h => handleCanvasPaste s uid src w h
  | GenerateTikz uid src w h => handleGenerateTikz s uid src w h
  | SetMode m => App.with_mode s m
  | SetPen c w st => App.with_pen s c w st
  | SetSnap b => App.with_snap s b
  | SetGrid b => App.with_grid s b
  | Resize w h => App.with_canvas s (Some (Canvas.mk w h))
  end.

Definition run (s : App.t) (es : list Event) : App.t := fold_left step es s.

(** ** Renderer *)

(** The calls on the 2D context that the renderer issues, in order. *)
Inductive CanvasOp : Type :=
  | Save | Restore | BeginPath | StrokePath
  | ClearRect (x y w h : number)
  | StrokeRect (x y w h : number)
  | MoveTo (x y : number)
  | LineTo (x y : number)
  | QuadraticCurveTo (cpx cpy x y : number)
  | Translate (x y : number)
  | Rotate (rad : number)
  | FillText (t : string) (x y : number)
  | SetLineWidth (w : number)
  | SetLineCap (v : string)
  | SetLineJoin (v : string)
  | SetStrokeStyle (v : string)
  | SetFillStyle (v : string)
  | SetFont (v : string)
  | SetLineDash (segments : list number)
  | SetGlobalAlpha (a : number)
  | SetGlobalCompositeOperation (v : string).

(** The smoothing loop of [drawStroke], run on [points[1..]]: one curve per
    pair of neighbours. *)
Fixpoint smoothCurve (l : list Point.t) : list CanvasOp :=
  match l with
  | p1 :: ((p2 :: _) as rest) =>
    let midX := (Point.x p1 + Point.x p2) / 2 in
    let midY := (Point.y p1 + Point.y p2) / 2 in
    QuadraticCurveTo (Point.x p1) (Point.y p1) midX midY :: smoothCurve rest
  | _ => []
  end.

Definition drawStroke (stroke : Stroke.t) : list CanvasOp :=
  match Stroke.points stroke with
  | [] | [_] => []
  | first :: rest =>
    let style := match Stroke.strokeStyle stroke with
                 | Some st => st
                 | None => solid
                 end in
    [Save; BeginPath; SetLineWidth (Stroke.width stroke);
     SetLineCap "round"; SetLineJoin "round";
     SetStrokeStyle (Stroke.color stroke)]
    ++ match style with
       | dashed => [SetLineDash [10; 10]]
       | dotted => [SetLineDash [2; 8]]
       | marker => [SetGlobalAlpha 0.4;
                    SetGlobalCompositeOperation "multiply";
                    SetLineCap "square"]
       | solid => [SetLineDash []]
       end
    ++ [MoveTo (Point.x first) (Point.y first)]
    ++ smoothCurve rest
    ++ (let last := List.last rest first in
        [LineTo (Point.x last) (Point.y last); StrokePath; Restore])
  end.

(** The grid loops: [for (v = 0; v < limit; v += 50)], with [fuel] bounding
    the number of iterations. *)
Fixpoint gridFrom (fuel v limit : nat) : list nat :=
  match fuel with
  | O => []
  | S fuel' => if Nat.ltb v limit then v :: gridFrom fuel' (v + 50) limit else []
  end.

Definition drawGrid (cv : Canvas.t) : list CanvasOp :=
  let w := Canvas.width cv in
  let h := Canvas.height cv in
  [SetStrokeStyle "#f1f5f9"; SetLineWidth 1]
  ++ flat_map (fun x => [BeginPath; MoveTo (INR x) 0; LineTo (INR x) (INR h);
                         StrokePath]) (gridFrom w 0 w)
  ++ flat_map (fun y => [BeginPath; MoveTo 0 (INR y); LineTo (INR w) (INR y);
                         StrokePath]) (gridFrom h 0 h).

Section Renderer.

(** The instrument painters of the canvas utilities, which the renderer
    takes as they come (module [Paint] below models them on their own, over
    a wider set of context calls), and the width that the browser measures
    for a text. *)
Variables drawRuler drawProtractor drawSetSquare drawCompass drawImageWidget
  : Widget.t -> list CanvasOp.
Variable measureTextWidth : string -> number.

Definition drawTextWidget (t : Widget.t) : list CanvasOp :=
  match Widget.text t with
  | None => []
  | Some txt =>
    if String.eqb txt EmptyString then []
    else
      [Save; Translate (Widget.x t) (Widget.y t);
       Rotate (deg2rad (Widget.angle t));
       SetFont "18px sans-serif";
       SetFillStyle (if Widget.selected t then "#ef4444" else "#000");
       FillText txt 0 0]
      ++ (if Widget.selected t
          then [SetStrokeStyle "#ef4444";
                StrokeRect (-5) (-18) (measureTextWidth txt + 10) 24]
          else [])
      ++ [Restore]
  end.

(** The body of [items.forEach] in [renderCanvas]. *)
Definition drawItem (item : CanvasItem) : list CanvasOp :=
  if is_hidden item then []
  else
    match item with
    | IStroke s => drawStroke s
    | IWidget w =>
      match Widget.type w with
      | Ruler => drawRuler w
      | Protractor => drawProtractor w
      | Triangle => drawSetSquare w
      | Compass => drawCompass w
      | Image => drawImageWidget w
      | Text => drawTextWidget w
      end
    end.

Definition renderCanvas (s : App.t) : list CanvasOp :=
  match App.canvas s with
  | None => []
  | Some cv =>
    [ClearRect 0 0 (INR (Canvas.width cv)) (INR (Canvas.height cv))]
    ++ (if App.grid s then drawGrid cv else [])
    ++ flat_map drawItem (App.items s)
    ++ match App.currentStroke s with
       | Some cur => drawStroke cur
       | None => []
       end
  end.

End Renderer.

(** ** Instrument painters (canvas utilities) *)

(** The painters use a few context calls beyond those of the strokes, the
    grid and the text: arcs, closed and filled paths, filled rectangles and
    the text alignment. *)
Inductive PaintOp : Type :=
  | Op (o : CanvasOp)
  | Arc (x y r startAngle endAngle : number) (counterclockwise : bool)
  | ClosePath
  | Fill
  | FillRect (x y w h : number)
  | SetTextAlign (v : string).

(** [(i).toString()] on a loop counter: its decimal numeral. *)
Definition toString (i : nat) : string :=
  NilEmpty.string_of_uint (Nat.to_uint i).

Module Paint.

(** The tick loop of [drawRuler]:
    [for (let i = 0; i <= length / step; i++)], with [fuel] bounding the
    number of iterations. *)
Fixpoint rulerTicksFrom (fuel i : nat) (startX h length step : number)
  : list PaintOp :=
  match fuel with
  | O => []
  | S fuel' =>
    if leb (INR i) (length / step) then
      let x := startX + INR i * step in
      let isMajor := Nat.eqb (i mod 5) 0 in
      let tickH := if isMajor then 15 else 8 in
      [Op BeginPath; Op (MoveTo x (- h / 2)); Op (LineTo x (- h / 2 + tickH));
       Op StrokePath]
      ++ (if isMajor then [Op (FillText (toString i) x (- h / 2 + 25))] else [])
      ++ rulerTicksFrom fuel' (S i) startX h length step
    else []
  end.

Definition drawRuler (r : Widget.t) : list PaintOp :=
  let w := opt_or (Widget.width r) TOOL_DEFAULTS.RULER_width in
  let h := opt_or (Widget.height r) TOOL_DEFAULTS.RULER_height in
  let startX := - w / 2 + 10 in
  let endX := w / 2 - 10 in
  let length := endX - startX in
  let step := 10 in
  [Op Save; Op (Translate (Widget.x r) (Widget.y r));
   Op (Rotate (deg2rad (Widget.angle r)));
   Op (SetFillStyle "rgba(255, 255, 220, 0.9)");
   Op (SetStrokeStyle (if Widget.selected r then "#ef4444" else "#94a3b8"));
   Op (SetLineWidth (if Widget.selected r then 2 else 1));
   FillRect (- w / 2) (- h / 2) w h;
   Op (StrokeRect (- w / 2) (- h / 2) w h);
   Op (SetFillStyle "#000"); Op (SetStrokeStyle "#000");
   Op (SetFont "10px sans-serif"); SetTextAlign "center"]
  ++ rulerTicksFrom (Z.to_nat (up (length / step))) 0 startX h length step
  ++ [Op Restore].

(** The tick loop of [drawProtractor]:
    [for (let deg = 0; deg <= 180; deg += 10)]. *)
Fixpoint protractorTicksFrom (fuel deg : nat) (r : number) : list PaintOp :=
  match fuel with
  | O => []
  | S fuel' =>
    if Nat.leb deg 180 then
      let rad := (INR deg * PI) / 180 in
      let outerR := r in
      let innerR := r - (if Nat.eqb (deg mod 30) 0 then 15 else 8) in
      let xOut := cos (PI + rad) * outerR in
      let yOut := sin (PI + rad) * outerR in
      let xIn := cos (PI + rad) * innerR in
      let yIn := sin (PI + rad) * innerR in
      [Op BeginPath; Op (MoveTo xOut yOut); Op (LineTo xIn yIn); Op StrokePath]
      ++ protractorTicksFrom fuel' (deg + 10) r
    else []
  end.

Definition drawProtractor (p : Widget.t) : list PaintOp :=
  let r := opt_or (Widget.radius p) TOOL_DEFAULTS.PROTRACTOR_radius in
  [Op Save; Op (Translate (Widget.x p) (Widget.y p));
   Op (Rotate (deg2rad (Widget.angle p)));
   Op BeginPath; Arc 0 0 r PI 0 false; ClosePath;
   Op (SetFillStyle "rgba(200, 220, 255, 0.5)"); Fill;
   Op (SetStrokeStyle (if Widget.selected p then "#ef4444" else "#94a3b8"));
   Op (SetLineWidth (if Widget.selected p then 2 else 1));
   Op StrokePath]
  ++ protractorTicksFrom 19 0 r
  ++ [Op Restore].

Definition drawCompass (c : Widget.t) : list PaintOp :=
  let height := opt_or (Widget.height c) 150 in
  let spread := 40 in
  [Op Save; Op (Translate (Widget.x c) (Widget.y c));
   Op (Rotate (deg2rad (Widget.angle c)));
   Op (SetStrokeStyle (if Widget.selected c then "#ef4444" else "#475569"));
   Op (SetLineWidth (if Widget.selected c then 3 else 2));
   Op (SetLineCap "round"); Op (SetLineJoin "round");
   Op BeginPath; Op (MoveTo 0 0); Op (LineTo (- spread) height); Op StrokePath;
   Op BeginPath; Op (MoveTo 0 0); Op (LineTo spread height); Op StrokePath;
   Op (SetFillStyle "#94a3b8"); Op BeginPath; Arc 0 0 8 0 (PI * 2) false;
   Fill; Op StrokePath;
   Op (SetFillStyle "#000"); Op BeginPath;
   Arc (- spread) height 3 0 (PI * 2) false; Fill;
   Op (SetFillStyle "#ef4444"); Op BeginPath;
   Arc spread height 4 0 (PI * 2) false; Fill;
   Op BeginPath; Op (SetStrokeStyle "#cbd5e1"); Op (SetLineDash [5; 5]);
   Op (SetLineWidth 1); Arc (- spread) height (spread * 2) 0 PI true;
   Op StrokePath;
   Op Restore].

(** The marking loops of [drawSetSquare]:
    [for (let i = 0; i < limit; i += 20)], the first along the horizontal
    leg and the second along the vertical one. *)
Fixpoint marksAcross (fuel : nat) (i limit : number) : list PaintOp :=
  match fuel with
  | O => []
  | S fuel' =>
    if ltb i limit
    then [Op (MoveTo i 0); Op (LineTo i 10)] ++ marksAcross fuel' (i + 20) limit
    else []
  end.

Fixpoint marksDown (fuel : nat) (i limit : number) : list PaintOp :=
  match fuel with
  | O => []
  | S fuel' =>
    if ltb i limit
    then [Op (MoveTo 0 i); Op (LineTo 10 i)] ++ marksDown fuel' (i + 20) limit
    else []
  end.

Definition drawSetSquare (t : Widget.t) : list PaintOp :=
  let w := opt_or (Widget.width t) TOOL_DEFAULTS.TRIANGLE_width in
  let h := opt_or (Widget.height t) TOOL_DEFAULTS.TRIANGLE_height in
  [Op Save; Op (Translate (Widget.x t) (Widget.y t));
   Op (Rotate (deg2rad (Widget.angle t)));
   Op BeginPath; Op (MoveTo 0 0); Op (LineTo w 0); Op (LineTo 0 h); ClosePath;
   Op (SetFillStyle "rgba(200, 255, 200, 0.5)"); Fill;
   Op (SetStrokeStyle (if Widget.selected t then "#ef4444" else "#94a3b8"));
   Op (SetLineWidth 2); Op StrokePath;
   Op BeginPath]
  ++ marksAcross (Z.to_nat (up (w / 20))) 0 w
  ++ marksDown (Z.to_nat (up (h / 20))) 0 h
  ++ [Op StrokePath; Op Restore].

End Paint.


(** ** Diagram code clean-up (geminiService, [generateTikzCode]) *)

Module Tikz.

(** A JavaScript string is a sequence of UTF-16 code units. *)
Definition jsstring : Type := list N.

(** A string literal of the source, all of whose characters are ASCII. *)
Definition lit (s : string) : jsstring := map Ascii.N_of_ascii (list_ascii_of_string s).

Definition backtick : N := 96%N.
Definition backslash : N := 92%N.
Definition newline : N := 10%N.

Definition fenceLatex : jsstring := lit "```latex".
Definition fence : jsstring := lit "```".
Definition beginMark : jsstring := lit "\begin{tikzpicture}".
Definition endMark : jsstring := lit "\end{tikzpicture}".

(** The pattern matches at the very start of [s]. *)
Fixpoint startsWith (pat s : jsstring) : bool :=
  match pat, s with
  | [], _ => true
  | _ :: _, [] => false
  | p :: pat', c :: s' => N.eqb p c && startsWith pat' s'
  end.

(** [s.replace(/pat/g, '')] for a literal pattern: a scan from the left
    that drops every match and resumes behind it; [skip] counts the units
    of the current match that are still to be dropped. *)
Fixpoint removeAllFrom (pat : jsstring) (skip : nat) (s : jsstring) : jsstring :=
  match s with
  | [] => []
  | c :: s' =>
    match skip with
    | S k => removeAllFrom pat k s'
    | O =>
      if startsWith pat s
      then removeAllFrom pat (List.length pat - 1) s'
      else c :: removeAllFrom pat 0 s'
    end
  end.

Definition removeAll (pat s : jsstring) : jsstring := removeAllFrom pat 0 s.

(** [s.includes(pat)]. *)
Fixpoint includes (pat s : jsstring) : bool :=
  match s with
  | [] => startsWith pat []
  | _ :: s' => startsWith pat s || includes pat s'
  end.

(** The lazy [[\s\S]*?] followed by the literal [stop], tried at the start
    of [s]: the least number of units to take before [stop] matches. *)
Fixpoint lazyUntil (stop s : jsstring) : option nat :=
  match s with
  | [] => if startsWith stop [] then Some 0%nat else None
  | _ :: s' =>
    if startsWith stop s then Some 0%nat
    else option_map S (lazyUntil stop s')
  end.

(** [text.match(/\\begin{tikzpicture}[\s\S]*?\\end{tikzpicture}/)]: the
    start positions are tried from the left; at a position the opening
    marker has to match, then the lazy part, then the closing marker.  The
    result is the matched text, [match[0]]. *)
Fixpoint matchBlock (s : jsstring) : option jsstring :=
  match s with
  | [] => None
  | _ :: s' =>
    if startsWith beginMark s then
      let rest := skipn (List.length beginMark) s in
      match lazyUntil endMark rest with
      | Some k => Some (beginMark ++ firstn k rest ++ endMark)
      | None => matchBlock s'
      end
    else matchBlock s'
  end.

(** White space and line terminators, the units that [trim] strips. *)
Definition isWhiteSpace (u : N) : bool :=
  existsb (N.eqb u)
    [9; 10; 11; 12; 13; 32; 160; 5760;
     8192; 8193; 8194; 8195; 8196; 8197; 8198; 8199; 8200; 8201; 8202;
     8232; 8233; 8239; 8287; 12288; 65279]%N.

Fixpoint trimStart (s : jsstring) : jsstring :=
  match s with
  | [] => []
  | c :: s' => if isWhiteSpace c then trimStart s' else s
  end.

Definition trimEnd (s : jsstring) : jsstring := rev (trimStart (rev s)).

Definition trim (s : jsstring) : jsstring := trimEnd (trimStart s).

(** The two [replace] calls of the clean-up. *)
Definition removeFences (text : jsstring) : jsstring :=
  removeAll fence (removeAll fenceLatex text).

(** What [generateTikzCode] resolves to, given [response.text] ([None] for
    [undefined]). *)
Definition generateTikzCode (responseText : option jsstring) : jsstring :=
  let text := match responseText with
              | Some t => t
              | None => []
              end in
  let text := removeFences text in
  let text :=
    match matchBlock text with
    | Some m => m
    | None =>
      if negb (includes beginMark text)
      then beginMark ++ [newline] ++ text ++ [newline] ++ endMark
      else text
    end in
  trim text.

End Tikz.


(** ** The compass arc in binary64 *)

(** The numbers of the running program are binary64 floats.  This module
    restates, over the floats of the kernel, the two places that the arc
    gesture computes with: [getCompassPoints] (with [convertLocalToWorld])
    and the compass_arc branch of [handleMouseMove].  The operators are the
    rounded ones and are applied in the order of the source. *)
Module F64.
Import Floats.
Local Open Scope float_scope.

(** [Math.PI]. *)
Definition PI : float := 0x1.921fb54442d18p+1.

Record Point : Type := mkPoint { x : float; y : float }.

(** The fields of a compass widget that the arc gesture reads and writes. *)
Record Compass : Type := mkCompass {
  cx : float;
  cy : float;
  angle : float;
  height : option float
}.

(** An implementation of [Math.cos], [Math.sin] and [Math.atan2].  ECMAScript
    leaves their results to the implementation, up to a few fixed values:
    the cosine of [+0] is [1] and the sine of [+0] is [+0].  The direction
    that [Math.atan2] returns for two numbers is a number between [-PI] and
    [PI], so the angle in degrees computed from it is finite: subtracted
    from itself it gives [+0]. *)
Record Engine : Type := {
  cos : float -> float;
  sin : float -> float;
  atan2 : float -> float -> float;
  cos_zero : cos 0 = 1;
  sin_zero : sin 0 = 0;
  atan2_degrees :
    forall dy dx : float,
      is_nan dy = false -> is_nan dx = false ->
      atan2 dy dx * 180 / PI - atan2 dy dx * 180 / PI = 0
}.

(** [n || d] on numbers: zero and NaN are falsy. *)
Definition num_or (n d : float) : float :=
  if (n =? 0) || is_nan n then d else n.

Definition opt_or (o : option float) (d : float) : float :=
  match o with
  | Some n => num_or n d
  | None => d
  end.

Definition convertLocalToWorld (M : Engine) (lx ly cx cy rad : float) : Point :=
  let cos := cos M rad in
  let sin := sin M rad in
  let wx := lx * cos - ly * sin + cx in
  let wy := lx * sin + ly * cos + cy in
  mkPoint wx wy.

(** [getCompassPoints]: the needle and the pencil. *)
Definition getCompassPoints (M : Engine) (c : Compass) : Point * Point :=
  let height := opt_or (height c) 150 in
  let spread := 40 in
  let rad := (angle c * PI) / 180 in
  (convertLocalToWorld M (- spread) height (cx c) (cy c) rad,
   convertLocalToWorld M spread height (cx c) (cy c) rad).

(** The compass_arc branch of [handleMouseMove] at the sample [(x, y)], for
    the selected compass [w] and the refs [compassPivot] and [lastPos]: the
    widget that the branch stores and the point that it appends to the
    stroke in progress. *)
Definition compassArcMove (M : Engine) (pivot lastPos : Point) (x y : float)
  (w : Compass) : Compass * Point :=
  let dx := x - F64.x pivot in
  let dy := y - F64.y pivot in
  let mouseAngle := atan2 M dy dx * 180 / PI in
  let oldDx := F64.x lastPos - F64.x pivot in
  let oldDy := F64.y lastPos - F64.y pivot in
  let oldAngle := atan2 M oldDy oldDx * 180 / PI in
  let deltaAngle := mouseAngle - oldAngle in
  let newAngle := angle w + deltaAngle in
  let spread := 40 in
  let height := opt_or (height w) 150 in
  let rad := (newAngle * PI) / 180 in
  let cos := cos M rad in
  let sin := sin M rad in
  let vX := - spread * cos - height * sin in
  let vY := - spread * sin + height * cos in
  let newCx := F64.x pivot - vX in
  let newCy := F64.y pivot - vY in
  let pX := spread * cos - height * sin + newCx in
  let pY := spread * sin + height * cos + newCy in
  (mkCompass newCx newCy newAngle (F64.height w), mkPoint pX pY).

(** A compass as [addWidget] makes it, upright, with its hinge at
    [(100.3, 200)]: the first coordinate is the float nearest to 100.3. *)
Definition offGridCompass : Compass :=
  mkCompass 0x1.9133333333333p+6 200 0 (Some 150).

(** The arc sample taken on [offGridCompass] after a pointer-down at
    [(100, 200)], when the pointer has not moved: the pivot that the
    pointer-down has locked, and the point that the sample appends. *)
Definition restingSample (M : Engine) : Point * Point :=
  let pivot := fst (getCompassPoints M offGridCompass) in
  (pivot, snd (compassArcMove M pivot (mkPoint 100 200) 100 200 offGridCompass)).

(** The appended point is level with the pivot, 80.00000000000001 to its
    right. *)
Definition offEighty (M : Engine) : bool :=
  let '(pivot, pt) := restingSample M in
  (y pt =? y pivot) && (x pt - x pivot =? 0x1.4000000000001p+6).

(** An engine that meets the requirements; it shows that they are
    consistent, and stands for no particular implementation. *)
Definition plainEngine : Engine :=
  Build_Engine (fun _ => 1) (fun _ => 0) (fun _ _ => 0)
               eq_refl eq_refl (fun _ _ _ _ => eq_refl).

End F64.

(** * Specification vocabulary *)

(** ** Drags and the compass arc *)

(** A drag: the pointer-move samples that follow a pointer-down, in order. *)
Definition drag (s : App.t) (samples : list Point.t) : App.t :=
  fold_left (fun st p => handleMouseMove st (Point.x p) (Point.y p)) samples s.


(** The ids of the store are pairwise distinct, as [uuidv4] provides. *)
Definition distinctIds (items : list CanvasItem) : Prop :=
  NoDup (map item_id items).


(** ** The ruler as the snap resolver reads it *)

(** The ruler's geometry as [getSnapPoint] reads it. *)
Definition rulerWidth (r : Widget.t) : number := opt_or (Widget.width r) 100.
Definition rulerHeight (r : Widget.t) : number := opt_or (Widget.height r) 50.
Definition cursorLocal (r : Widget.t) (x y : number) : Point.t :=
  worldToLocal x y (Widget.x r) (Widget.y r) (deg2rad (Widget.angle r)).
Definition toWorld (r : Widget.t) (lx ly : number) : Point.t :=
  convertLocalToWorld lx ly (Widget.x r) (Widget.y r) (deg2rad (Widget.angle r)).

Definition inSpan (r : Widget.t) (x y t : number) : Prop :=
  - rulerWidth r / 2 - t <= Point.x (cursorLocal r x y) <= rulerWidth r / 2 + t.
Definition nearTop (r : Widget.t) (x y t : number) : Prop :=
  Rabs (Point.y (cursorLocal r x y) - (- rulerHeight r / 2)) < t.
Definition nearBottom (r : Widget.t) (x y t : number) : Prop :=
  Rabs (Point.y (cursorLocal r x y) - rulerHeight r / 2) < t.


(** ** Counting *)

(** The number of items whose [selected] is [true]. *)
Definition selectedCount (items : list CanvasItem) : nat :=
  List.length (filter is_selected items).

(** The number of widgets of type [t] in the store. *)
Definition countType (t : WidgetType) (items : list CanvasItem) : nat :=
  List.length (filter (fun i => ItemType_eqb (item_type i) (TWidget t)) items).

(** ** What an event does to the store *)

(** [j] is the item [i] up to what the handlers rewrite in place: the
    [selected] and [visible] flags of any item, and the position and angle
    of a widget.  A stroke keeps its id, points, colour, width and style. *)
Definition sameItem (i j : CanvasItem) : Prop :=
  match i, j with
  | IStroke a, IStroke b =>
    Stroke.id a = Stroke.id b /\ Stroke.points a = Stroke.points b /\
    Stroke.color a = Stroke.color b /\ Stroke.width a = Stroke.width b /\
    Stroke.strokeStyle a = Stroke.strokeStyle b
  | IWidget a, IWidget b =>
    Widget.id a = Widget.id b /\ Widget.type a = Widget.type b /\
    Widget.text a = Widget.text b
  | _, _ => False
  end.

(** [keeps D l l']: [l'] is [l], in order, each item kept up to [sameItem]
    or dropped, and only items that satisfy [D] are dropped. *)
Inductive keeps (D : CanvasItem -> Prop)
  : list CanvasItem -> list CanvasItem -> Prop :=
  | keeps_nil : keeps D [] []
  | keeps_drop (i : CanvasItem) (l l' : list CanvasItem) :
      D i -> keeps D l l' -> keeps D (i :: l) l'
  | keeps_same (i j : CanvasItem) (l l' : list CanvasItem) :
      sameItem i j -> keeps D l l' -> keeps D (i :: l) (j :: l').

(** The items that an event arriving in state [s] may remove from the
    store: the shown strokes in reach of an eraser move (a pointer-move
    while dragging in eraser mode), the items that carry the deleted id,
    and everything on clear-board. *)
Definition eventDrops (s : App.t) (e : Event) (i : CanvasItem) : Prop :=
  match e with
  | MouseMove x y =>
    App.isDragging s = true /\ App.mode s = eraser /\
    is_stroke i = true /\ is_hidden i = false /\ eraserKeeps x y i = false
  | DeleteItem id => item_id i = id
  | ClearBoard => True
  | _ => False
  end.

(** The items an event may append to the store. *)
Definition eventAdds (s : App.t) (e : Event) (added : list CanvasItem) : Prop :=
  match e with
  | MouseUp =>
    added = [] \/
    exists cur, App.currentStroke s = Some cur /\ added = [IStroke cur]
  | AddWidget t uid =>
    added = [] \/
    exists cx cy,
      (isSingleton t = true -> countType t (App.items s) = 0%nat) /\
      added = [IWidget (newWidget uid t cx cy)]
  | CanvasPaste uid src w h =>
    added = [IWidget (imageWidget s uid src 0.5 300 300 w h)]
  | GenerateTikz uid src w h =>
    added = [IWidget (imageWidget s uid src 1 400 300 w h)]
  | _ => added = []
  end.

(** The events that remove items on purpose: delete and clear-board. *)
Definition removesItems (e : Event) : bool :=
  match e with
  | DeleteItem _ | ClearBoard => true
  | _ => false
  end.


(** ** Hidden items, hit test, eraser, layer panel *)

(** The store as the hit test, the snap resolver and the renderer see it. *)
Definition shownItems (items : list CanvasItem) : list CanvasItem :=
  filter (fun i => negb (is_hidden i)) items.

(** The candidates of the selection hit test at the cursor [(x, y)]: the
    widgets that are not hidden and whose pivot is less than 100 units
    away. *)
Definition hittable (x y : number) (i : CanvasItem) : Prop :=
  exists w, i = IWidget w /\ Widget.visible w <> Some false /\
            hypot (x - Widget.x w) (y - Widget.y w) < 100.

(** A point within the eraser's reach of the cursor [(x, y)]: less than 20
    units away. *)
Definition nearCursor (x y : number) (p : Point.t) : Prop :=
  hypot (Point.x p - x) (Point.y p - y) < 20.

(** The items the eraser is to remove at [(x, y)]: the strokes that are not
    hidden and have a point within reach. *)
Definition erasedAt (x y : number) (i : CanvasItem) : Prop :=
  exists st, i = IStroke st /\ is_hidden i = false /\
             exists p, In p (Stroke.points st) /\ nearCursor x y p.

(** The rows of the layer panel: [items.filter(i => i.type !== 'stroke')]. *)
Definition widgetItems (items : list CanvasItem) : list CanvasItem :=
  filter (fun i => negb (is_stroke i)) items.



(** ** Fresh ids and the stroke in progress *)

(** The value that [uuidv4()] returns to the handler of an event, if the
    handler can call it. *)
Definition eventUid (e : Event) : option string :=
  match e with
  | MouseDown _ _ _ uid | AddWidget _ uid
  | CanvasPaste uid _ _ _ | GenerateTikz uid _ _ _ => Some uid
  | _ => None
  end.

(** [uuidv4] returns an id that no item of the store and no stroke in
    progress carries. *)
Definition freshFor (s : App.t) (e : Event) : Prop :=
  match eventUid e with
  | Some uid =>
    ~ In uid (map item_id (App.items s)) /\
    forall cur, App.currentStroke s = Some cur -> Stroke.id cur <> uid
  | None => True
  end.

Fixpoint freshRun (s : App.t) (es : list Event) : Prop :=
  match es with
  | [] => True
  | e :: rest => freshFor s e /\ freshRun (step s e) rest
  end.

(** The stroke in progress is not in the store: no item carries its id. *)
Definition inProgressApart (s : App.t) : Prop :=
  forall cur, App.currentStroke s = Some cur ->
              ~ In (Stroke.id cur) (map item_id (App.items s)).

(** ** Move and rotate drags *)

(** What holds all along a move drag on the widget [w0] that a left
    pointer-down at [(x0, y0)] has hit: the widget is where it was, shifted
    by the way of the pointer since then. *)
Record MoveInv (w0 : Widget.t) (x0 y0 : number) (st : App.t) : Prop := {
  mv_dragging : App.isDragging st = true;
  mv_dragType : App.dragType st = Some move;
  mv_mode : App.mode st = select;
  mv_selected : App.selectedItemId st = Some (Widget.id w0);
  mv_ids : distinctIds (App.items st);
  mv_widget : exists c, In (IWidget c) (App.items st) /\ Widget.id c = Widget.id w0;
  mv_place : forall c, In (IWidget c) (App.items st) -> Widget.id c = Widget.id w0 ->
               Widget.x c = Widget.x w0 + (Point.x (App.lastPos st) - x0) /\
               Widget.y c = Widget.y w0 + (Point.y (App.lastPos st) - y0) /\
               Widget.angle c = Widget.angle w0
}.


(** Where the pointer is after the samples of a drag that began at [p0]. *)
Definition lastSample (p0 : Point.t) (samples : list Point.t) : Point.t :=
  List.last samples p0.


(** ** Wheel *)

(** One wheel tick on one item: a widget that carries the selected id is
    turned by 5 degrees in the direction of the wheel. *)
Definition wheelItem (sel : option string) (deltaY : number) (item : CanvasItem)
  : CanvasItem :=
  match item with
  | IWidget w =>
    if id_is sel item
    then IWidget (Widget.with_angle w (Widget.angle w + 5 * sign deltaY))
    else item
  | IStroke _ => item
  end.


(** ** Pen gesture *)

(** The point that the pen records for the cursor [p]: the snap point when
    snapping is on and an instrument edge is near, the cursor otherwise. *)
Definition penPoint (s : App.t) (p : Point.t) : Point.t :=
  if App.snap s then
    match getSnapPoint (Point.x p) (Point.y p) (App.items s) default_threshold with
    | Some q => q
    | None => p
    end
  else p.

(** What holds all along a pen gesture that started in the state [s] with
    the id [uid], after the cursor positions [seen]. *)
Record PenInv (s : App.t) (uid : string) (seen : list Point.t) (st : App.t)
  : Prop := {
  pn_dragging : App.isDragging st = true;
  pn_dragType : App.dragType st = None;
  pn_mode : App.mode st = pen;
  pn_snap : App.snap st = App.snap s;
  pn_items : forall x y t, getSnapPoint x y (App.items st) t
                           = getSnapPoint x y (App.items s) t;
  pn_stroke : App.currentStroke st
              = Some (Stroke.mk uid (map (penPoint s) seen) (App.color s)
                                (App.width s) (Some (App.strokeStyle s))
                                None None)
}.


(** ** Selection bookkeeping *)

(** The ref [selectedItemId] and the [selected] flags agree: every item
    whose flag is set carries the selected id; and the stroke in progress,
    which no handler flags, has no [selected] property. *)
Definition selConsistent (s : App.t) : Prop :=
  (forall i, In i (App.items s) -> is_selected i = true ->
             App.selectedItemId s = Some (item_id i)) /\
  (forall cur, App.currentStroke s = Some cur -> Stroke.selected cur = None).

(** The events that are not image injections (paste to canvas, diagram). *)
Definition noInjection (e : Event) : bool :=
  match e with
  | CanvasPaste _ _ _ _ | GenerateTikz _ _ _ _ => false
  | _ => true
  end.


(** ** The set-square as the snap resolver reads it *)

(** [getSnapPoint] reads width and height of a set-square with the same
    fallbacks as for a ruler ([rulerWidth], [rulerHeight]).  The cursor is
    on the horizontal leg when its local X lies along the leg, with a margin
    of [t], and its local Y is less than [t] from 0; likewise for the
    vertical leg. *)
Definition onHorizontalLeg (r : Widget.t) (x y t : number) : Prop :=
  0 - t <= Point.x (cursorLocal r x y) <= rulerWidth r + t /\
  Rabs (Point.y (cursorLocal r x y)) < t.
Definition onVerticalLeg (r : Widget.t) (x y t : number) : Prop :=
  0 - t <= Point.y (cursorLocal r x y) <= rulerHeight r + t /\
  Rabs (Point.x (cursorLocal r x y)) < t.

(** The samples of an eraser drag all keep the item. *)
Definition survives (samples : list Point.t) (i : CanvasItem) : bool :=
  forallb (fun p => eraserKeeps (Point.x p) (Point.y p) i) samples.



(** ** Reading the renderer's output *)

Definition isCurve (op : CanvasOp) : bool :=
  match op with QuadraticCurveTo _ _ _ _ => true | _ => false end.
Definition isSave (op : CanvasOp) : bool :=
  match op with Save => true | _ => false end.
Definition isRestore (op : CanvasOp) : bool :=
  match op with Restore => true | _ => false end.
Definition isMoveTo (op : CanvasOp) : bool :=
  match op with MoveTo _ _ => true | _ => false end.
Definition isLineTo (op : CanvasOp) : bool :=
  match op with LineTo _ _ => true | _ => false end.
Definition count (f : CanvasOp -> bool) (ops : list CanvasOp) : nat :=
  List.length (filter f ops).


(** ** Compass arc: the angle *)

(** The direction, in degrees, from the locked pivot to a pointer position,
    as the compass branch of [handleMouseMove] computes it. *)
Definition pointerAngle (pivot p : Point.t) : number :=
  atan2 (Point.y p - Point.y pivot) (Point.x p - Point.x pivot) * 180 / PI.

(** What holds of the angle all along a compass_arc drag on the compass
    [c0], pointer-down at [p0], needle locked on [pivot]. *)
Record ArcAngleInv (c0 : Widget.t) (p0 pivot : Point.t) (st : App.t) : Prop := {
  aa_dragging : App.isDragging st = true;
  aa_dragType : App.dragType st = Some compass_arc;
  aa_selected : App.selectedItemId st = Some (Widget.id c0);
  aa_pivot : App.compassPivot st = Some pivot;
  aa_ids : distinctIds (App.items st);
  aa_compass : exists c, In (IWidget c) (App.items st) /\ Widget.id c = Widget.id c0;
  aa_angle : forall c, In (IWidget c) (App.items st) -> Widget.id c = Widget.id c0 ->
               Widget.angle c
               = Widget.angle c0
                 + (pointerAngle pivot (App.lastPos st) - pointerAngle pivot p0) /\
               Widget.height c = Widget.height c0
}.


(** ** Reading the painters' output *)

(** The size of the ruler as its painter reads it, the place of its tick
    number [i] and the length of that tick. *)
Definition rulerPaintWidth (r : Widget.t) : number :=
  opt_or (Widget.width r) TOOL_DEFAULTS.RULER_width.
Definition rulerPaintHeight (r : Widget.t) : number :=
  opt_or (Widget.height r) TOOL_DEFAULTS.RULER_height.
Definition tickX (r : Widget.t) (i : nat) : number :=
  - rulerPaintWidth r / 2 + 10 + INR i * 10.
Definition tickLength (i : nat) : number :=
  if Nat.eqb (i mod 5) 0 then 15 else 8.

(** What one round of the ruler's tick loop issues. *)
Definition rulerTickOps (startX h step : number) (i : nat) : list PaintOp :=
  [Op BeginPath; Op (MoveTo (startX + INR i * step) (- h / 2));
   Op (LineTo (startX + INR i * step)
              (- h / 2 + (if Nat.eqb (i mod 5) 0 then 15 else 8)));
   Op StrokePath]
  ++ (if Nat.eqb (i mod 5) 0
      then [Op (FillText (toString i) (startX + INR i * step) (- h / 2 + 25))]
      else []).


(** The radius of the protractor as its painter reads it, and how far the
    tick of reading [deg] reaches inwards. *)
Definition protractorRadius (p : Widget.t) : number :=
  opt_or (Widget.radius p) TOOL_DEFAULTS.PROTRACTOR_radius.
Definition tickDepth (deg : nat) : number :=
  if Nat.eqb (deg mod 30) 0 then 15 else 8.

(** What one round of the protractor's tick loop issues. *)
Definition protractorTickOps (r : number) (deg : nat) : list PaintOp :=
  [Op BeginPath;
   Op (MoveTo (cos (PI + (INR deg * PI) / 180) * r)
              (sin (PI + (INR deg * PI) / 180) * r));
   Op (LineTo (cos (PI + (INR deg * PI) / 180)
               * (r - (if Nat.eqb (deg mod 30) 0 then 15 else 8)))
              (sin (PI + (INR deg * PI) / 180)
               * (r - (if Nat.eqb (deg mod 30) 0 then 15 else 8))));
   Op StrokePath].


(** The size of the set-square as its painter reads it. *)
Definition trianglePaintWidth (t : Widget.t) : number :=
  opt_or (Widget.width t) TOOL_DEFAULTS.TRIANGLE_width.
Definition trianglePaintHeight (t : Widget.t) : number :=
  opt_or (Widget.height t) TOOL_DEFAULTS.TRIANGLE_height.


(** ** Reading the cleaned diagram code *)

(** The code unit [u] does not occur in [s]. *)
Definition avoids (u : N) (s : Tikz.jsstring) : bool :=
  forallb (fun c => negb (N.eqb c u)) s.

(** A picture with the given body. *)
Definition picture (body : Tikz.jsstring) : Tikz.jsstring :=
  Tikz.beginMark ++ body ++ Tikz.endMark.

(** The fallback of the clean-up: the text wrapped into a picture. *)
Definition wrapped (text : Tikz.jsstring) : Tikz.jsstring :=
  Tikz.beginMark ++ [Tikz.newline] ++ text ++ [Tikz.newline] ++ Tikz.endMark.

(** A string that is empty or starts with a unit that [trim] keeps. *)
Definition cleanHead (s : Tikz.jsstring) : Prop :=
  match s with
  | [] => True
  | c :: _ => Tikz.isWhiteSpace c = false
  end.


(** ** Sums in sample order and the half-unit grid *)

(** The place that a move drag gives to a widget at [pos], one sample after
    the other: every sample adds its offset from the sample before. *)
Fixpoint walk (last : Point.t) (samples : list Point.t) (pos : Point.t)
  : Point.t :=
  match samples with
  | [] => pos
  | p :: rest =>
    walk p rest (Point.mk (Point.x pos + (Point.x p - Point.x last))
                          (Point.y pos + (Point.y p - Point.y last)))
  end.

(** The angle that a compass_arc drag gives to a compass at [angle], one
    sample after the other: every sample adds the change of the pointer's
    direction, seen from [pivot], since the sample before. *)
Fixpoint sweep (pivot last : Point.t) (samples : list Point.t) (angle : number)
  : number :=
  match samples with
  | [] => angle
  | p :: rest =>
    sweep pivot p rest
          (angle + (atan2 (Point.y p - Point.y pivot) (Point.x p - Point.x pivot)
                    * 180 / PI
                    - atan2 (Point.y last - Point.y pivot)
                            (Point.x last - Point.x pivot) * 180 / PI))
  end.

(** The multiples of one half up to [2^49] in size.  Sums and differences
    of a few such numbers are computed without rounding by binary64
    arithmetic; the pointer positions of an integer canvas, the canvas
    centre and the angles that rotate drags and the wheel make from 0 are
    of this kind. *)
Definition onGrid (v : number) : Prop :=
  exists k : Z, v = IZR k / 2 /\ (Z.abs k <= 2 ^ 50)%Z.

(** The direction of the protractor tick of reading [deg], as the painter
    computes it. *)
Definition tickCos (deg : nat) : number := cos (PI + (INR deg * PI) / 180).
Definition tickSin (deg : nat) : number := sin (PI + (INR deg * PI) / 180).

(** ** Fixtures *)

(** Fixtures: the instruments as [addWidget] creates them, at the origin. *)
Definition demoCompass : Widget.t := newWidget "compass-1" Compass 0 0.
Definition demoRuler : Widget.t := newWidget "ruler-1" Ruler 0 0.

(** A board on which the ruler has just been added, hence selected. *)
Definition boardWithRuler : App.t := addWidget (App.init None) Ruler "ruler-1".

(** Fixtures: a hidden ruler, and a board that holds only it. *)
Definition hiddenRuler : Widget.t := Widget.with_visible demoRuler false.
Definition boardWithHiddenRuler : App.t :=
  App.with_items (App.init None) [IWidget hiddenRuler].

(** Fixture: a board in eraser mode with one stroke through the origin and a
    hidden ruler. *)
Definition demoStroke : Stroke.t :=
  Stroke.mk "stroke-1" [Point.mk 0 0; Point.mk 5 0] "#000000" 4 (Some solid)
            None None.
Definition eraserBoard : App.t :=
  App.with_mode
    (App.with_items (App.init None) [IStroke demoStroke; IWidget hiddenRuler])
    eraser.

(** Fixture: the first render without a canvas, after the text tool. *)
Definition boardWithText : App.t := addWidget (App.init None) Text "text-1".

(** Fixture: the set-square as [addWidget] creates it, at the origin. *)
Definition demoTriangle : Widget.t := newWidget "triangle-1" Triangle 0 0.

(** * Properties *)

(** ** Number tests *)

Lemma ltb_true (a b : number) : ltb a b = true <-> a < b.
Proof. unfold ltb; destruct (Rlt_dec a b); split; intros; try easy. Qed.

Lemma ltb_false (a b : number) : ltb a b = false <-> ~ a < b.
Proof. unfold ltb; destruct (Rlt_dec a b); split; intros; try easy. Qed.

Lemma leb_true (a b : number) : leb a b = true <-> a <= b.
Proof. unfold leb; destruct (Rle_dec a b); split; intros; try easy. Qed.

Lemma leb_false (a b : number) : leb a b = false <-> ~ a <= b.
Proof. unfold leb; destruct (Rle_dec a b); split; intros; try easy. Qed.

Lemma geb_true (a b : number) : geb a b = true <-> b <= a.
Proof. unfold geb; apply leb_true. Qed.

Lemma num_or_nonzero (n d : number) : n <> 0 -> num_or n d = n.
Proof. intros H; unfold num_or; destruct (Req_dec_T n 0); [contradiction | reflexivity]. Qed.

Lemma num_or_zero_default (n : number) : num_or n 0 = n.
Proof. unfold num_or; destruct (Req_dec_T n 0); congruence. Qed.


Lemma cos_sin_unit (a : number) : cos a * cos a + sin a * sin a = 1.
Proof. pose proof (sin2_cos2 a) as H. unfold Rsqr in H. lra. Qed.

Lemma deg2rad_0 : deg2rad 0 = 0.
Proof. unfold deg2rad. lra. Qed.

(** ** Geometry kernel *)

Lemma worldToLocal_inverse (lx ly cx cy rad : number) :
  worldToLocal (Point.x (convertLocalToWorld lx ly cx cy rad))
               (Point.y (convertLocalToWorld lx ly cx cy rad)) cx cy rad
  = Point.mk lx ly.
Proof.
  unfold worldToLocal, convertLocalToWorld; cbn [Point.x Point.y].
  rewrite cos_neg, sin_neg.
  pose proof (cos_sin_unit rad) as U.
  f_equal.
  - transitivity (lx * (cos rad * cos rad + sin rad * sin rad));
      [ring | rewrite U; ring].
  - transitivity (ly * (cos rad * cos rad + sin rad * sin rad));
      [ring | rewrite U; ring].
Qed.


(** C2.  Round trip of the frame change: taking a local point [(lx, ly)] to
    the world with [convertLocalToWorld] (rotate by [theta], add the pivot)
    and back with the world-to-local step of the snap resolver (subtract the
    pivot, rotate by [-theta]) gives [(lx, ly)] again, for every pivot,
    angle and point.  Over the reals the identity is exact, so it holds
    within every tolerance. *)
Theorem worldToLocal_localToWorld_roundtrip :
  forall (px py theta lx ly : number),
    let w := convertLocalToWorld lx ly px py theta in
    worldToLocal (Point.x w) (Point.y w) px py theta = Point.mk lx ly.
Proof.
  intros px py theta lx ly w. apply worldToLocal_inverse.
Qed.

(** ** Items and ids *)

Lemma set_selected_id (b : bool) (i : CanvasItem) :
  item_id (set_selected b i) = item_id i.
Proof. destruct i; reflexivity. Qed.

Lemma set_visible_id (b : bool) (i : CanvasItem) :
  item_id (set_visible b i) = item_id i.
Proof. destruct i; reflexivity. Qed.

Lemma updateSelected_id (sel : option string) (f : Widget.t -> Widget.t)
  (i : CanvasItem) :
  (forall w, Widget.id (f w) = Widget.id w) ->
  item_id (updateSelected sel f i) = item_id i.
Proof.
  intros Hf. unfold updateSelected.
  destruct (id_is sel i); [|reflexivity].
  destruct i; cbn; [reflexivity | apply Hf].
Qed.

Lemma map_ids_preserved (f : CanvasItem -> CanvasItem) (l : list CanvasItem) :
  (forall i, item_id (f i) = item_id i) ->
  map item_id (map f l) = map item_id l.
Proof.
  intros Hf. rewrite map_map. apply map_ext. exact Hf.
Qed.

Lemma compassTurn_id (pivot : Point.t) (d : number) (w : Widget.t) :
  Widget.id (compassTurn pivot d w) = Widget.id w.
Proof. reflexivity. Qed.

(** With distinct ids, looking an id up finds the one item that carries it. *)
Lemma find_by_id (l : list CanvasItem) (i : CanvasItem) :
  NoDup (map item_id l) -> In i l ->
  find (id_is (Some (item_id i))) l = Some i.
Proof.
  induction l as [|a l IH]; intros Hnd Hin; [destruct Hin|].
  cbn [map] in Hnd. inversion Hnd as [|? ? Hnotin Hnd']; subst.
  cbn [find]. destruct Hin as [->|Hin].
  - unfold id_is. rewrite String.eqb_refl. reflexivity.
  - unfold id_is at 1. destruct (String.eqb_spec (item_id a) (item_id i)) as [E|_].
    + exfalso. apply Hnotin. rewrite E. apply in_map. exact Hin.
    + apply IH; assumption.
Qed.

Lemma same_id_same_item (l : list CanvasItem) (i j : CanvasItem) :
  NoDup (map item_id l) -> In i l -> In j l -> item_id i = item_id j -> i = j.
Proof.
  intros Hnd Hi Hj E.
  pose proof (find_by_id l i Hnd Hi) as Fi.
  pose proof (find_by_id l j Hnd Hj) as Fj.
  rewrite E in Fi. congruence.
Qed.

Lemma hitTest_In (x y : number) (l : list CanvasItem) (i : CanvasItem) :
  hitTest x y l = Some i -> In i l /\ hitPred x y i = true.
Proof.
  unfold hitTest. intros H. apply find_some in H. destruct H as [Hin Hp].
  split; [apply in_rev; exact Hin | exact Hp].
Qed.

(** ** Compass arc *)




(** The pencil tip that extends the stroke is the pencil landmark of the
    widget that the same sample stores. *)
Lemma compassPencil_is_landmark (pivot : Point.t) (d : number) (w : Widget.t) :
  compassPencil pivot d w
  = CompassPoints.pencil (getCompassPoints (compassTurn pivot d w)).
Proof. reflexivity. Qed.


Lemma in_map_updateSelected_widget (sel : option string)
  (f : Widget.t -> Widget.t) (l : list CanvasItem) (c : Widget.t) :
  In (IWidget c) (map (updateSelected sel f) l) ->
  exists c0, In (IWidget c0) l /\
    ((id_is sel (IWidget c0) = true /\ c = f c0) \/
     (id_is sel (IWidget c0) = false /\ c = c0)).
Proof.
  intros H. apply in_map_iff in H. destruct H as [i [E Hin]].
  unfold updateSelected in E.
  destruct (id_is sel i) eqn:Hid.
  - destruct i as [s0|c0]; [discriminate|]. inversion E; subst.
    exists c0. split; [exact Hin|]. left. split; [exact Hid | reflexivity].
  - subst i. exists c. split; [exact Hin|]. right. split; [exact Hid | reflexivity].
Qed.





Lemma hypot_0_0 : hypot (0 - 0) (0 - 0) = 0.
Proof.
  unfold hypot. replace ((0 - 0) * (0 - 0) + (0 - 0) * (0 - 0)) with 0 by ring.
  apply sqrt_0.
Qed.


(** ** Compass arc: the arithmetic of the running code *)

Section Binary64.

Import Floats.
Local Open Scope float_scope.

Lemma F64_offGrid_points (M : F64.Engine) :
  F64.getCompassPoints M F64.offGridCompass
  = (F64.mkPoint 0x1.e266666666666p+5 350, F64.mkPoint 0x1.189999999999ap+7 350).
Proof.
  unfold F64.getCompassPoints, F64.convertLocalToWorld, F64.offGridCompass.
  cbn [F64.angle F64.cx F64.cy F64.height].
  change (0 * F64.PI / 180) with 0.
  rewrite (F64.cos_zero M), (F64.sin_zero M).
  vm_compute. reflexivity.
Qed.

Lemma F64_resting_sample (M : F64.Engine) :
  F64.restingSample M
  = (F64.mkPoint 0x1.e266666666666p+5 350, F64.mkPoint 0x1.189999999999ap+7 350).
Proof.
  unfold F64.restingSample. rewrite F64_offGrid_points. cbn [fst].
  unfold F64.compassArcMove, F64.offGridCompass.
  cbn [F64.angle F64.cx F64.cy F64.height F64.x F64.y snd].
  rewrite (F64.atan2_degrees M) by reflexivity.
  change ((0 + 0) * F64.PI / 180) with 0.
  rewrite (F64.cos_zero M), (F64.sin_zero M).
  vm_compute. reflexivity.
Qed.

Lemma F64_offEighty (M : F64.Engine) : F64.offEighty M = true.
Proof.
  unfold F64.offEighty. rewrite F64_resting_sample. vm_compute. reflexivity.
Qed.

Lemma F64_engine_exists : exists M : F64.Engine, F64.offEighty M = true.
Proof. exists F64.plainEngine. apply F64_offEighty. Qed.


End Binary64.

(** ** Snap resolver: the ruler *)


Lemma getSnapPoint_skip (x y t : number) (before : list CanvasItem)
  (rest : list CanvasItem) :
  (forall i, In i before -> snapItem x y i t = None) ->
  getSnapPoint x y (before ++ rest) t = getSnapPoint x y rest t.
Proof.
  induction before as [|a before IH]; intros H; [reflexivity|].
  cbn. rewrite (H a (or_introl eq_refl)). apply IH.
  intros i Hi. apply H. right. exact Hi.
Qed.

Lemma getSnapPoint_none (x y t : number) (l : list CanvasItem) :
  (forall i, In i l -> snapItem x y i t = None) -> getSnapPoint x y l t = None.
Proof.
  intros H. rewrite <- (app_nil_r l). rewrite getSnapPoint_skip; [reflexivity | exact H].
Qed.


Section RulerSnap.

Variables (r : Widget.t) (x y t : number).
Hypothesis r_ruler : Widget.type r = Ruler.
Hypothesis r_shown : is_hidden (IWidget r) = false.

Lemma snapItem_ruler_unfold :
  snapItem x y (IWidget r) t =
  if geb (Point.x (cursorLocal r x y)) (- rulerWidth r / 2 - t)
     && leb (Point.x (cursorLocal r x y)) (rulerWidth r / 2 + t)
  then
    if ltb (Rabs (Point.y (cursorLocal r x y) - (- rulerHeight r / 2))) t
    then Some (toWorld r (Point.x (cursorLocal r x y)) (- rulerHeight r / 2))
    else if ltb (Rabs (Point.y (cursorLocal r x y) - rulerHeight r / 2)) t
    then Some (toWorld r (Point.x (cursorLocal r x y)) (rulerHeight r / 2))
    else None
  else None.
Proof. unfold snapItem. rewrite r_shown, r_ruler. reflexivity. Qed.

Lemma inSpan_test :
  geb (Point.x (cursorLocal r x y)) (- rulerWidth r / 2 - t)
  && leb (Point.x (cursorLocal r x y)) (rulerWidth r / 2 + t) = true
  <-> inSpan r x y t.
Proof.
  rewrite andb_true_iff, geb_true, leb_true. unfold inSpan. tauto.
Qed.

Lemma snapItem_ruler_top :
  inSpan r x y t -> nearTop r x y t ->
  snapItem x y (IWidget r) t
  = Some (toWorld r (Point.x (cursorLocal r x y)) (- rulerHeight r / 2)).
Proof.
  intros Hs Ht. rewrite snapItem_ruler_unfold.
  apply inSpan_test in Hs. rewrite Hs.
  apply ltb_true in Ht. rewrite Ht. reflexivity.
Qed.

Lemma snapItem_ruler_bottom :
  inSpan r x y t -> ~ nearTop r x y t -> nearBottom r x y t ->
  snapItem x y (IWidget r) t
  = Some (toWorld r (Point.x (cursorLocal r x y)) (rulerHeight r / 2)).
Proof.
  intros Hs Ht Hb. rewrite snapItem_ruler_unfold.
  apply inSpan_test in Hs. rewrite Hs.
  apply ltb_false in Ht. rewrite Ht.
  apply ltb_true in Hb. rewrite Hb. reflexivity.
Qed.

Lemma snapItem_ruler_miss :
  ~ (inSpan r x y t /\ (nearTop r x y t \/ nearBottom r x y t)) ->
  snapItem x y (IWidget r) t = None.
Proof.
  intros H. rewrite snapItem_ruler_unfold.
  destruct (geb _ _ && leb _ _) eqn:Hs; [|reflexivity].
  apply inSpan_test in Hs.
  destruct (ltb (Rabs (Point.y (cursorLocal r x y) - (- rulerHeight r / 2))) t) eqn:Ht.
  { exfalso. apply H. split; [exact Hs|]. left. apply ltb_true. exact Ht. }
  destruct (ltb (Rabs (Point.y (cursorLocal r x y) - rulerHeight r / 2)) t) eqn:Hb.
  { exfalso. apply H. split; [exact Hs|]. right. apply ltb_true. exact Hb. }
  reflexivity.
Qed.

Lemma snapItem_ruler_hit (p : Point.t) :
  snapItem x y (IWidget r) t = Some p ->
  inSpan r x y t /\
  ((nearTop r x y t /\
    p = toWorld r (Point.x (cursorLocal r x y)) (- rulerHeight r / 2)) \/
   (~ nearTop r x y t /\ nearBottom r x y t /\
    p = toWorld r (Point.x (cursorLocal r x y)) (rulerHeight r / 2))).
Proof.
  rewrite snapItem_ruler_unfold.
  destruct (geb _ _ && leb _ _) eqn:Hs; [|discriminate].
  apply inSpan_test in Hs.
  destruct (ltb (Rabs (Point.y (cursorLocal r x y) - (- rulerHeight r / 2))) t) eqn:Ht.
  { intros E; inversion E. split; [exact Hs|]. left.
    split; [apply ltb_true; exact Ht | reflexivity]. }
  destruct (ltb (Rabs (Point.y (cursorLocal r x y) - rulerHeight r / 2)) t) eqn:Hb;
    [|discriminate].
  intros E; inversion E. split; [exact Hs|]. right.
  split; [apply ltb_false; exact Ht|]. split; [apply ltb_true; exact Hb | reflexivity].
Qed.

End RulerSnap.

(** The ruler that [addWidget] creates: 400 by 50, not rotated. *)
Lemma demoRuler_width : rulerWidth demoRuler = 400.
Proof.
  unfold rulerWidth, demoRuler; cbn. apply num_or_nonzero.
  unfold TOOL_DEFAULTS.RULER_width. lra.
Qed.

Lemma demoRuler_height : rulerHeight demoRuler = 50.
Proof.
  unfold rulerHeight, demoRuler; cbn. apply num_or_nonzero.
  unfold TOOL_DEFAULTS.RULER_height. lra.
Qed.

Lemma demoRuler_cursorLocal (x y : number) :
  cursorLocal demoRuler x y = Point.mk x y.
Proof.
  unfold cursorLocal, worldToLocal, demoRuler; cbn.
  rewrite deg2rad_0, Ropp_0, cos_0, sin_0. f_equal; ring.
Qed.





(** ** Selection *)

Lemma selectedCount_cons (i : CanvasItem) (l : list CanvasItem) :
  selectedCount (i :: l)
  = ((if is_selected i then 1 else 0) + selectedCount l)%nat.
Proof. unfold selectedCount; cbn. destruct (is_selected i); reflexivity. Qed.

Lemma selectedCount_app (l1 l2 : list CanvasItem) :
  selectedCount (l1 ++ l2) = (selectedCount l1 + selectedCount l2)%nat.
Proof. unfold selectedCount. rewrite filter_app, length_app. reflexivity. Qed.

Lemma is_selected_set (b : bool) (i : CanvasItem) :
  is_selected (set_selected b i) = b.
Proof. destruct i, b; reflexivity. Qed.

Lemma selectedCount_deselect_all (l : list CanvasItem) :
  selectedCount (map (set_selected false) l) = 0%nat.
Proof.
  induction l as [|a l IH]; [reflexivity|].
  cbn [map]. rewrite selectedCount_cons, is_selected_set, IH. reflexivity.
Qed.

Lemma selectedCount_absent_id (id : string) (l : list CanvasItem) :
  ~ In id (map item_id l) ->
  selectedCount (map (fun i => set_selected (String.eqb (item_id i) id) i) l) = 0%nat.
Proof.
  induction l as [|a l IH]; intros Hn; [reflexivity|].
  cbn [map]. rewrite selectedCount_cons, is_selected_set.
  destruct (String.eqb_spec (item_id a) id) as [E|_].
  - exfalso. apply Hn. left. exact E.
  - rewrite IH; [reflexivity|]. intros H. apply Hn. right. exact H.
Qed.

(** [prev.map(i => ({...i, selected: i.id === id}))] selects at most one
    item when ids are distinct. *)
Lemma selectedCount_select_id (id : string) (l : list CanvasItem) :
  distinctIds l ->
  (selectedCount (map (fun i => set_selected (String.eqb (item_id i) id) i) l)
   <= 1)%nat.
Proof.
  unfold distinctIds.
  induction l as [|a l IH]; intros Hnd; [cbn; lia|].
  cbn [map] in *. inversion Hnd as [|? ? Hnotin Hnd']; subst.
  rewrite selectedCount_cons, is_selected_set.
  destruct (String.eqb_spec (item_id a) id) as [E|_].
  - subst id. rewrite selectedCount_absent_id by exact Hnotin. lia.
  - specialize (IH Hnd'). lia.
Qed.

(** The toggle of [addWidget] selects at most the item at [idx]. *)
Lemma selectedCount_toggle (idx : nat) (b : bool) (l : list CanvasItem) :
  forall n : nat,
    (selectedCount
       (mapi_from (fun i idx' =>
                     if Nat.eqb idx' idx
                     then set_selected b (set_visible b i)
                     else set_selected false i) n l)
     <= (if Nat.leb n idx then 1 else 0))%nat.
Proof.
  induction l as [|a l IH]; intros n.
  - cbn. destruct (Nat.leb n idx); lia.
  - cbn [mapi_from]. rewrite selectedCount_cons.
    specialize (IH (S n)).
    destruct (Nat.eqb_spec n idx) as [E|NE].
    + subst n. rewrite is_selected_set.
      replace (Nat.leb (S idx) idx) with false in IH
        by (symmetry; apply Nat.leb_gt; lia).
      rewrite Nat.leb_refl. destruct b; lia.
    + rewrite is_selected_set.
      destruct (Nat.leb_spec n idx), (Nat.leb_spec (S n) idx); lia.
Qed.

Lemma findIndex_Some {A : Type} (f : A -> bool) (l : list A) (idx : nat) :
  findIndex f l = Some idx ->
  exists a, nth_error l idx = Some a /\ f a = true.
Proof.
  revert idx. induction l as [|a l IH]; intros idx H; [discriminate|].
  cbn in H. destruct (f a) eqn:Fa.
  - inversion H; subst. exists a. split; [reflexivity | exact Fa].
  - destruct (findIndex f l) as [n|]; [|discriminate].
    inversion H; subst. destruct (IH n eq_refl) as [b [Hb Fb]].
    exists b. split; assumption.
Qed.

Lemma findIndex_None {A : Type} (f : A -> bool) (l : list A) :
  findIndex f l = None -> forall a, In a l -> f a = false.
Proof.
  induction l as [|b l IH]; intros H a Hin; [destruct Hin|].
  cbn in H. destruct (f b) eqn:Fb; [discriminate|].
  destruct (findIndex f l); [discriminate|].
  destruct Hin as [->|Hin]; [exact Fb | apply IH; [reflexivity | exact Hin]].
Qed.

(** The two paths of [addWidget]: the toggle of the existing singleton, or
    the creation of a widget that is appended to the deselected store. *)
Lemma addWidget_cases (s : App.t) (t : WidgetType) (uid : string) :
  (exists idx existing,
      isSingleton t = true /\
      nth_error (App.items s) idx = Some existing /\
      item_type existing = TWidget t /\
      App.items (addWidget s t uid)
      = mapi (fun i idx' =>
                if Nat.eqb idx' idx
                then set_selected (is_hidden existing)
                       (set_visible (is_hidden existing) i)
                else set_selected false i) (App.items s))
  \/
  (exists cx cy,
      (isSingleton t = true -> countType t (App.items s) = 0%nat) /\
      App.items (addWidget s t uid)
      = map (set_selected false) (App.items s) ++ [IWidget (newWidget uid t cx cy)]).
Proof.
  unfold addWidget.
  destruct (if isSingleton t
            then findIndex (fun i => ItemType_eqb (item_type i) (TWidget t))
                           (App.items s)
            else None) as [idx|] eqn:Hidx.
  - left. destruct (isSingleton t) eqn:Hs; [|discriminate].
    destruct (findIndex_Some _ _ _ Hidx) as [existing [Hn Hty]].
    exists idx, existing. rewrite Hn.
    split; [reflexivity|]. split; [reflexivity|]. split.
    + destruct (item_type existing) as [|t']; [discriminate|].
      destruct t, t'; try discriminate; reflexivity.
    + cbv zeta. destruct (is_hidden existing); [reflexivity|].
      destruct (id_is _ _); reflexivity.
  - right. eexists. eexists. split; [|reflexivity].
    intros Hs. rewrite Hs in Hidx. unfold countType.
    pose proof (findIndex_None _ _ Hidx) as Hnone.
    induction (App.items s) as [|a l IH]; [reflexivity|].
    cbn [filter]. rewrite (Hnone a (or_introl eq_refl)).
    apply IH.
    + cbn in Hidx. rewrite (Hnone a (or_introl eq_refl)) in Hidx.
      destruct (findIndex _ l); [discriminate | reflexivity].
    + intros b Hb. apply Hnone. right. exact Hb.
Qed.

(** The instrument tools keep the selection exclusive on both paths. *)
Lemma addWidget_exclusive (s : App.t) (t : WidgetType) (uid : string) :
  (selectedCount (App.items (addWidget s t uid)) <= 1)%nat.
Proof.
  destruct (addWidget_cases s t uid)
    as [[idx [existing [_ [_ [_ ->]]]]] | [cx [cy [_ ->]]]].
  - unfold mapi.
    pose proof (selectedCount_toggle idx (is_hidden existing) (App.items s) 0) as H.
    cbn [Nat.leb] in H. exact H.
  - rewrite selectedCount_app, selectedCount_deselect_all. cbn. lia.
Qed.

(** Pointer-down keeps the selection exclusive when ids are distinct and it
    hits a widget, and leaves nothing selected when it misses in select
    mode. *)
Lemma handleMouseDown_items (s : App.t) (x y : number) (r : bool) (uid : string) :
  App.items (handleMouseDown s x y r uid)
  = match hitTest x y (App.items s) with
    | Some clicked =>
      map (fun i => set_selected (String.eqb (item_id i) (item_id clicked)) i)
          (App.items s)
    | None =>
      if ToolMode_eqb (App.mode s) select
      then map (set_selected false) (App.items s)
      else App.items s
    end.
Proof.
  unfold handleMouseDown.
  destruct (hitTest x y (App.items s)) as [clicked|].
  - destruct r.
    + destruct clicked as [st|c]; cbn.
      * destruct (ToolMode_eqb (App.mode s) eraser); reflexivity.
      * destruct (WidgetType_eqb (Widget.type c) Compass); cbn;
          destruct (ToolMode_eqb (App.mode s) eraser); reflexivity.
    + cbn. destruct (App.mode s); cbn; try reflexivity;
        destruct (App.snap s); cbn; try reflexivity;
        destruct (getSnapPoint x y (App.items s) default_threshold); reflexivity.
  - destruct r.
    + cbn. destruct (App.mode s); reflexivity.
    + cbn. destruct (App.mode s); cbn; try reflexivity;
        destruct (App.snap s); cbn; try reflexivity;
        destruct (getSnapPoint x y (App.items s) default_threshold); reflexivity.
Qed.

Lemma handleMouseDown_exclusive (s : App.t) (x y : number) (r : bool)
  (uid : string) :
  distinctIds (App.items s) ->
  (selectedCount (App.items s) <= 1)%nat ->
  (selectedCount (App.items (handleMouseDown s x y r uid)) <= 1)%nat.
Proof.
  intros Hids Hsel. rewrite handleMouseDown_items.
  destruct (hitTest x y (App.items s)) as [clicked|].
  - apply selectedCount_select_id. exact Hids.
  - destruct (ToolMode_eqb (App.mode s) select); [|exact Hsel].
    rewrite selectedCount_deselect_all. lia.
Qed.

(** C4.  Selection stops being exclusive on the paste path: on a board
    whose ruler is selected (it has just been added), an image pasted to the
    canvas is appended with [selected: true] while the ruler keeps its own
    flag, so two items are selected.  The diagram injection appends its
    image the same way.  [addWidget], on its creation path, deselects the
    store before it appends. *)
Theorem paste_breaks_exclusive_selection :
  selectedCount (App.items boardWithRuler) = 1%nat /\
  selectedCount
    (App.items (handleCanvasPaste boardWithRuler "image-1" "data:image/png;base64,AA" 8 8))
  = 2%nat /\
  selectedCount
    (App.items (handleGenerateTikz boardWithRuler "image-2" "data:image/png;base64,AA" 8 8))
  = 2%nat.
Proof. repeat split; reflexivity. Qed.

(** ** What an event keeps, drops and appends *)

Lemma sameItem_refl (i : CanvasItem) : sameItem i i.
Proof. destruct i; cbn; repeat split; reflexivity. Qed.

Lemma sameItem_trans (i j k : CanvasItem) :
  sameItem i j -> sameItem j k -> sameItem i k.
Proof.
  destruct i, j, k; cbn; try tauto.
  - intros [? [? [? [? ?]]]] [? [? [? [? ?]]]]. repeat split; congruence.
  - intros [? [? ?]] [? [? ?]]. repeat split; congruence.
Qed.

Lemma sameItem_set_selected (b : bool) (i : CanvasItem) :
  sameItem i (set_selected b i).
Proof. destruct i; cbn; repeat split; reflexivity. Qed.

Lemma sameItem_set_visible (b : bool) (i : CanvasItem) :
  sameItem i (set_visible b i).
Proof. destruct i; cbn; repeat split; reflexivity. Qed.

Lemma sameItem_updateSelected (sel : option string) (f : Widget.t -> Widget.t)
  (i : CanvasItem) :
  (forall w, Widget.id w = Widget.id (f w) /\ Widget.type w = Widget.type (f w)
             /\ Widget.text w = Widget.text (f w)) ->
  sameItem i (updateSelected sel f i).
Proof.
  intros Hf. unfold updateSelected. destruct (id_is sel i); [|apply sameItem_refl].
  destruct i; [apply sameItem_refl | cbn; apply Hf].
Qed.

Lemma keeps_map (D : CanvasItem -> Prop) (f : CanvasItem -> CanvasItem)
  (l : list CanvasItem) :
  (forall i, sameItem i (f i)) -> keeps D l (map f l).
Proof.
  intros Hf. induction l as [|a l IH]; cbn;
    [constructor | apply keeps_same; auto].
Qed.

Lemma keeps_refl (D : CanvasItem -> Prop) (l : list CanvasItem) : keeps D l l.
Proof.
  induction l; [constructor | apply keeps_same; auto using sameItem_refl].
Qed.

Lemma keeps_mapi_from (D : CanvasItem -> Prop)
  (f : CanvasItem -> nat -> CanvasItem) (l : list CanvasItem) :
  (forall i n, sameItem i (f i n)) ->
  forall n, keeps D l (mapi_from f n l).
Proof.
  intros Hf. induction l as [|a l IH]; intros n; cbn;
    [constructor | apply keeps_same; auto].
Qed.

Lemma keeps_filter (D : CanvasItem -> Prop) (g : CanvasItem -> bool)
  (l : list CanvasItem) :
  (forall i, g i = false -> D i) -> keeps D l (filter g l).
Proof.
  intros Hg. induction l as [|a l IH]; cbn; [constructor|].
  destruct (g a) eqn:Ga.
  - apply keeps_same; [apply sameItem_refl | exact IH].
  - apply keeps_drop; [apply Hg; exact Ga | exact IH].
Qed.

Lemma keeps_all_dropped (D : CanvasItem -> Prop) (l : list CanvasItem) :
  (forall i, D i) -> keeps D l [].
Proof.
  intros H. induction l; [constructor | apply keeps_drop; auto].
Qed.

Lemma eraserKeeps_false (x y : number) (i : CanvasItem) :
  eraserKeeps x y i = false ->
  is_stroke i = true /\ is_hidden i = false /\ eraserKeeps x y i = false.
Proof.
  intros H. split; [|split; [|exact H]].
  - unfold eraserKeeps in H. destruct (is_hidden i); [discriminate|].
    destruct i; [reflexivity | discriminate].
  - unfold eraserKeeps in H. destruct (is_hidden i); [discriminate | reflexivity].
Qed.

Lemma handleMouseMove_items (s : App.t) (x y : number) :
  App.items (handleMouseMove s x y) = App.items s \/
  (exists f,
      (forall w, Widget.id w = Widget.id (f w) /\ Widget.type w = Widget.type (f w)
                 /\ Widget.text w = Widget.text (f w)) /\
      App.items (handleMouseMove s x y)
      = map (updateSelected (App.selectedItemId s) f) (App.items s)) \/
  (App.isDragging s = true /\ App.mode s = eraser /\
   App.items (handleMouseMove s x y) = filter (eraserKeeps x y) (App.items s)).
Proof.
  unfold handleMouseMove.
  destruct (App.isDragging s) eqn:Hdrag; cbn [negb]; [|left; reflexivity].
  destruct (is_drag (App.dragType s) compass_arc && truthy_string (App.selectedItemId s)
            && isSome (App.compassPivot s)) eqn:Harc.
  { destruct (App.compassPivot s) as [pivot|]; [|left; reflexivity].
    right; left. eexists. split; [|
      destruct (find (id_is (App.selectedItemId s)) (App.items s)) as [[st|cur]|];
      cbn; reflexivity].
    intros w. repeat split; reflexivity. }
  destruct (is_drag (App.dragType s) rotate && truthy_string (App.selectedItemId s)).
  { right; left. eexists. split; [|cbn; reflexivity].
    intros w. repeat split; reflexivity. }
  destruct (ToolMode_eqb (App.mode s) pen && isSome (App.currentStroke s)) eqn:Hpen.
  { left. destruct (App.snap s); cbn;
      [destruct (getSnapPoint x y (App.items s) default_threshold)|]; reflexivity. }
  destruct (is_drag (App.dragType s) move && truthy_string (App.selectedItemId s)) eqn:Hmv.
  { right; left. eexists. split; [|cbn; reflexivity].
    intros w. repeat split; reflexivity. }
  destruct (ToolMode_eqb (App.mode s) eraser) eqn:Her; [|left; reflexivity].
  right; right. split; [reflexivity|].
  split; [destruct (App.mode s); try discriminate; reflexivity|].
  reflexivity.
Qed.

(** Every event rewrites the store in the same shape: the old items, in
    order, each kept up to [sameItem] or dropped as [eventDrops] allows,
    followed by what [eventAdds] allows. *)
Lemma step_frame (s : App.t) (e : Event) :
  exists kept added,
    keeps (eventDrops s e) (App.items s) kept /\
    eventAdds s e added /\
    App.items (step s e) = kept ++ added.
Proof.
  destruct e as [x y r uid|x y| |d|t uid|id|id|id| |uid src w h|uid src w h
                |m|c w st|b|b|w h]; cbn [step].
  - (* pointer-down *)
    eexists; exists []. rewrite app_nil_r. split; [|split; [reflexivity|]].
    2: apply handleMouseDown_items.
    destruct (hitTest x y (App.items s)).
    + apply keeps_map. intros i. apply sameItem_set_selected.
    + destruct (ToolMode_eqb (App.mode s) select).
      * apply keeps_map. intros i. apply sameItem_set_selected.
      * apply keeps_refl.
  - (* pointer-move *)
    destruct (handleMouseMove_items s x y) as [E|[[f [Hf E]]|[Hd [Hm E]]]];
      eexists; exists []; rewrite app_nil_r, E;
      (split; [|split; reflexivity]).
    + apply keeps_refl.
    + apply keeps_map. intros i. apply sameItem_updateSelected. exact Hf.
    + apply keeps_filter. intros i Hi. cbn [eventDrops].
      split; [exact Hd|]. split; [exact Hm|]. apply eraserKeeps_false. exact Hi.
  - (* pointer-up *)
    exists (App.items s). unfold handleMouseUp.
    destruct (App.currentStroke s) as [cur|] eqn:Hcur.
    + destruct (is_drag (App.dragType s) compass_arc).
      * exists [IStroke cur]. split; [apply keeps_refl|]. split; [|reflexivity].
        right. exists cur. split; [exact Hcur | reflexivity].
      * destruct (ToolMode_eqb (App.mode s) pen).
        -- exists [IStroke cur]. split; [apply keeps_refl|]. split; [|reflexivity].
           right. exists cur. split; [exact Hcur | reflexivity].
        -- exists []. rewrite app_nil_r. split; [apply keeps_refl|].
           split; [left|]; reflexivity.
    + exists []. rewrite app_nil_r. split; [apply keeps_refl|].
      split; [left|]; reflexivity.
  - (* wheel *)
    unfold handleWheel. destruct (truthy_string (App.selectedItemId s)).
    + eexists; exists []. rewrite app_nil_r. split; [|split; reflexivity].
      apply keeps_map. intros i.
      destruct (id_is (App.selectedItemId s) i && negb (is_stroke i));
        [|apply sameItem_refl].
      destruct i; [apply sameItem_refl | cbn; repeat split; reflexivity].
    + exists (App.items s), []. rewrite app_nil_r.
      split; [apply keeps_refl | split; reflexivity].
  - (* instrument and text tools *)
    destruct (addWidget_cases s t uid)
      as [[idx [existing [_ [_ [_ E]]]]] | [cx [cy [Hc E]]]]; rewrite E.
    + eexists; exists []. rewrite app_nil_r. split; [|split; [left|]; reflexivity].
      apply keeps_mapi_from. intros i n. destruct (Nat.eqb n idx).
      * eapply sameItem_trans; [apply sameItem_set_visible | apply sameItem_set_selected].
      * apply sameItem_set_selected.
    + eexists; eexists. split; [|split; [|reflexivity]].
      * apply keeps_map. intros i. apply sameItem_set_selected.
      * right. exists cx, cy. split; [exact Hc | reflexivity].
  - (* visibility toggle *)
    eexists; exists []. rewrite app_nil_r. split; [|split; reflexivity].
    apply keeps_map. intros i. destruct (String.eqb (item_id i) id);
      [apply sameItem_set_visible | apply sameItem_refl].
  - (* delete *)
    eexists; exists []. rewrite app_nil_r. split; [|split; reflexivity].
    apply keeps_filter. intros i H. cbn.
    destruct (String.eqb_spec (item_id i) id); [assumption | discriminate].
  - (* layer panel *)
    eexists; exists []. rewrite app_nil_r. split; [|split; reflexivity].
    apply keeps_map. intros i. apply sameItem_set_selected.
  - (* clear board *)
    exists [], []. split; [|split; reflexivity].
    apply keeps_all_dropped. intros i. exact I.
  - exists (App.items s). eexists. split; [apply keeps_refl|]. split; reflexivity.
  - exists (App.items s). eexists. split; [apply keeps_refl|]. split; reflexivity.
  - exists (App.items s), []. rewrite app_nil_r. split; [apply keeps_refl|]. split; reflexivity.
  - exists (App.items s), []. rewrite app_nil_r. split; [apply keeps_refl|]. split; reflexivity.
  - exists (App.items s), []. rewrite app_nil_r. split; [apply keeps_refl|]. split; reflexivity.
  - exists (App.items s), []. rewrite app_nil_r. split; [apply keeps_refl|]. split; reflexivity.
  - exists (App.items s), []. rewrite app_nil_r. split; [apply keeps_refl|]. split; reflexivity.
Qed.

(** ** Singleton instruments *)

Lemma countType_app (t : WidgetType) (l1 l2 : list CanvasItem) :
  countType t (l1 ++ l2) = (countType t l1 + countType t l2)%nat.
Proof. unfold countType. rewrite filter_app, length_app. reflexivity. Qed.

Lemma countType_cons (t : WidgetType) (i : CanvasItem) (l : list CanvasItem) :
  countType t (i :: l)
  = ((if ItemType_eqb (item_type i) (TWidget t) then 1 else 0) + countType t l)%nat.
Proof.
  unfold countType; cbn. destruct (ItemType_eqb (item_type i) (TWidget t)); reflexivity.
Qed.

Lemma sameItem_type (i j : CanvasItem) : sameItem i j -> item_type i = item_type j.
Proof.
  destruct i, j; cbn; try tauto. intros [_ [E _]]. rewrite E. reflexivity.
Qed.

Lemma keeps_countType (D : CanvasItem -> Prop) (t : WidgetType)
  (l l' : list CanvasItem) :
  keeps D l l' -> (countType t l' <= countType t l)%nat.
Proof.
  induction 1 as [|i l l' _ _ IH|i j l l' Hs _ IH].
  - lia.
  - rewrite countType_cons. lia.
  - rewrite !countType_cons, (sameItem_type i j Hs). lia.
Qed.

Lemma WidgetType_eqb_eq (a b : WidgetType) : WidgetType_eqb a b = true <-> a = b.
Proof. destruct a, b; cbn; split; congruence. Qed.

Lemma step_countType (t : WidgetType) (s : App.t) (e : Event) :
  isSingleton t = true ->
  (countType t (App.items s) <= 1)%nat ->
  (countType t (App.items (step s e)) <= 1)%nat.
Proof.
  intros Hs Hc.
  destruct (step_frame s e) as [kept [added [Hk [Ha ->]]]].
  pose proof (keeps_countType _ t _ _ Hk) as Hle.
  rewrite countType_app.
  assert (Hadd : countType t added = 0%nat \/
                 (countType t added = 1%nat /\ countType t (App.items s) = 0%nat)).
  { destruct e; cbn in Ha; subst; try (left; reflexivity).
    - destruct Ha as [->|[cur [_ ->]]]; left; reflexivity.
    - destruct Ha as [->|[cx [cy [H0 ->]]]]; [left; reflexivity|].
      unfold countType; cbn.
      destruct (WidgetType_eqb type t) eqn:E; [|left; reflexivity].
      apply WidgetType_eqb_eq in E. subst type.
      right. split; [reflexivity | apply H0; exact Hs].
    - left. unfold countType; cbn. destruct t; try discriminate; reflexivity.
    - left. unfold countType; cbn. destruct t; try discriminate; reflexivity. }
  destruct Hadd as [->|[-> H0]]; lia.
Qed.

Lemma run_countType (t : WidgetType) (es : list Event) :
  isSingleton t = true ->
  forall s, (countType t (App.items s) <= 1)%nat ->
            (countType t (App.items (run s es)) <= 1)%nat.
Proof.
  intros Hs. induction es as [|e es IH]; intros s Hc; [exact Hc|].
  cbn [run fold_left]. apply IH. apply step_countType; assumption.
Qed.

Lemma length_mapi_from {A B : Type} (f : A -> nat -> B) (l : list A) :
  forall n, List.length (mapi_from f n l) = List.length l.
Proof. induction l as [|a l IH]; intros n; cbn; [|rewrite IH]; reflexivity. Qed.

Lemma nth_error_mapi_from {A B : Type} (f : A -> nat -> B) (l : list A) :
  forall n k, nth_error (mapi_from f n l) k
              = option_map (fun a => f a (n + k)%nat) (nth_error l k).
Proof.
  induction l as [|a l IH]; intros n k.
  - destruct k; reflexivity.
  - destruct k as [|k]; cbn.
    + rewrite Nat.add_0_r. reflexivity.
    + rewrite IH. replace (S n + k)%nat with (n + S k)%nat by lia. reflexivity.
Qed.

Lemma is_hidden_toggled (b : bool) (i : CanvasItem) :
  is_hidden (set_selected b (set_visible b i)) = negb b.
Proof. destruct i, b; reflexivity. Qed.

(** C5.  For each instrument type [t] of ruler, protractor, triangle and
    compass: whatever events the board receives from its first render on (in
    particular any number of invocations of the tool), the store never holds
    two widgets of type [t]; and when a widget of type [t] exists, invoking
    the tool adds no item and flips the visibility of that widget
    (hidden becomes shown, shown or unset becomes hidden). *)
Theorem instrument_singleton :
  forall t : WidgetType,
    isSingleton t = true ->
    (forall (cv : option Canvas.t) (es : list Event),
        (countType t (App.items (run (App.init cv) es)) <= 1)%nat) /\
    (forall (s : App.t) (uid : string),
        (1 <= countType t (App.items s))%nat ->
        let s' := addWidget s t uid in
        List.length (App.items s') = List.length (App.items s) /\
        countType t (App.items s') = countType t (App.items s) /\
        exists idx existing,
          nth_error (App.items s) idx = Some existing /\
          item_type existing = TWidget t /\
          exists toggled,
            nth_error (App.items s') idx = Some toggled /\
            item_id toggled = item_id existing /\
            item_type toggled = TWidget t /\
            is_hidden toggled = negb (is_hidden existing)).
Proof.
  intros t Hs. split.
  - intros cv es. apply run_countType; [exact Hs | cbn; lia].
  - intros s uid H1 s'. unfold s'.
    destruct (addWidget_cases s t uid)
      as [[idx [existing [_ [Hn [Hty E]]]]] | [cx [cy [H0 _]]]].
    2: { rewrite (H0 Hs) in H1. lia. }
    rewrite E. unfold mapi. split; [apply length_mapi_from|]. split.
    + clear. generalize 0%nat. induction (App.items s) as [|a l IH]; intros n;
        [reflexivity|].
      cbn [mapi_from]. rewrite !countType_cons, IH. f_equal.
      destruct (Nat.eqb n idx); destruct a; reflexivity.
    + exists idx, existing. split; [exact Hn|]. split; [exact Hty|].
      rewrite nth_error_mapi_from, Hn. cbn [option_map Nat.add].
      rewrite Nat.eqb_refl. eexists. split; [reflexivity|].
      rewrite set_selected_id, set_visible_id. split; [reflexivity|]. split.
      * rewrite <- Hty. destruct existing; reflexivity.
      * apply is_hidden_toggled.
Qed.

Lemma instrument_singleton_witness :
  (countType Ruler
     (App.items (run (App.init None)
                     [AddWidget Ruler "ruler-1"; AddWidget Ruler "ruler-2";
                      AddWidget Ruler "ruler-3"])) <= 1)%nat.
Proof.
  apply (instrument_singleton Ruler). reflexivity.
Defined.

(** ** Hidden widgets *)

Lemma find_filter_implied {A : Type} (p q : A -> bool) (l : list A) :
  (forall a, p a = true -> q a = true) ->
  find p (filter q l) = find p l.
Proof.
  intros H. induction l as [|a l IH]; [reflexivity|].
  cbn. destruct (q a) eqn:Qa; cbn.
  - destruct (p a); [reflexivity | exact IH].
  - destruct (p a) eqn:Pa; [|exact IH].
    rewrite (H a Pa) in Qa. discriminate.
Qed.

Lemma hitPred_shown (x y : number) (i : CanvasItem) :
  hitPred x y i = true -> negb (is_hidden i) = true.
Proof. unfold hitPred. destruct (is_hidden i); [discriminate | reflexivity]. Qed.

Lemma hitTest_shownItems (x y : number) (l : list CanvasItem) :
  hitTest x y (shownItems l) = hitTest x y l.
Proof.
  unfold hitTest, shownItems. rewrite <- filter_rev.
  apply find_filter_implied. apply hitPred_shown.
Qed.

Lemma snapItem_hidden (x y t : number) (i : CanvasItem) :
  is_hidden i = true -> snapItem x y i t = None.
Proof. intros H. unfold snapItem. rewrite H. reflexivity. Qed.

Lemma getSnapPoint_shownItems (x y t : number) (l : list CanvasItem) :
  getSnapPoint x y (shownItems l) t = getSnapPoint x y l t.
Proof.
  induction l as [|a l IH]; [reflexivity|].
  unfold shownItems in *. cbn. destruct (is_hidden a) eqn:Ha; cbn.
  - rewrite (snapItem_hidden x y t a Ha). exact IH.
  - rewrite IH. reflexivity.
Qed.

Lemma keeps_In (D : CanvasItem -> Prop) (l l' : list CanvasItem) (i : CanvasItem) :
  keeps D l l' -> In i l -> ~ D i -> exists j, In j l' /\ sameItem i j.
Proof.
  induction 1 as [|a l l' Hd _ IH|a b l l' Hs _ IH]; intros Hin Hn.
  - destruct Hin.
  - destruct Hin as [->|Hin]; [contradiction | apply IH; assumption].
  - destruct Hin as [->|Hin].
    + exists b. split; [left; reflexivity | exact Hs].
    + destruct (IH Hin Hn) as [j [Hj Hsj]]. exists j. split; [right|]; assumption.
Qed.

(** No event but delete and clear-board removes a widget from the store. *)
Lemma step_keeps_widget (s : App.t) (e : Event) (w : Widget.t) :
  removesItems e = false ->
  In (IWidget w) (App.items s) ->
  exists w', In (IWidget w') (App.items (step s e)) /\
             Widget.id w' = Widget.id w /\ Widget.type w' = Widget.type w.
Proof.
  intros He Hin.
  destruct (step_frame s e) as [kept [added [Hk [_ ->]]]].
  destruct (keeps_In _ _ _ (IWidget w) Hk Hin) as [j [Hj Hs]].
  - destruct e; cbn; try discriminate; try tauto.
    intros [_ [_ [H _]]]. discriminate.
  - destruct j as [st|w']; [destruct Hs|].
    destruct Hs as [Hid [Hty _]].
    exists w'. split; [apply in_or_app; left; exact Hj|]. split; congruence.
Qed.

Section RendererFacts.

Variables drawRuler drawProtractor drawSetSquare drawCompass drawImageWidget
  : Widget.t -> list CanvasOp.
Variable measureTextWidth : string -> number.

Let drawItem' := drawItem drawRuler drawProtractor drawSetSquare drawCompass
                          drawImageWidget measureTextWidth.
Let renderCanvas' := renderCanvas drawRuler drawProtractor drawSetSquare
                                  drawCompass drawImageWidget measureTextWidth.

Lemma drawItem_hidden (i : CanvasItem) : is_hidden i = true -> drawItem' i = [].
Proof. intros H. unfold drawItem', drawItem. rewrite H. reflexivity. Qed.

Lemma flat_map_drawItem_shownItems (l : list CanvasItem) :
  flat_map drawItem' (shownItems l) = flat_map drawItem' l.
Proof.
  induction l as [|a l IH]; [reflexivity|].
  unfold shownItems in *. cbn. destruct (is_hidden a) eqn:Ha; cbn.
  - rewrite (drawItem_hidden a Ha). exact IH.
  - rewrite IH. reflexivity.
Qed.

Lemma renderCanvas_shownItems (s : App.t) :
  renderCanvas' (App.with_items s (shownItems (App.items s))) = renderCanvas' s.
Proof.
  unfold renderCanvas', renderCanvas. cbn.
  destruct (App.canvas s); [|reflexivity].
  fold drawItem'. rewrite flat_map_drawItem_shownItems. reflexivity.
Qed.

(** C6.  A widget of the store with [visible = false]: the pointer-down hit
    test never returns it, it gives no snap point, and the renderer issues
    no call for it; each of the three sees the store as if the hidden items
    were not there.  It stays in the store all the same: after any event
    other than delete and clear-board the store still holds a widget with
    its id and type, while deleting its id or clearing the board removes
    it. *)
Theorem hidden_widget_excluded :
  forall (s : App.t) (w : Widget.t),
    In (IWidget w) (App.items s) ->
    Widget.visible w = Some false ->
    (forall x y : number,
        hitTest x y (App.items s) <> Some (IWidget w) /\
        hitTest x y (App.items s) = hitTest x y (shownItems (App.items s))) /\
    (forall x y t : number,
        snapItem x y (IWidget w) t = None /\
        getSnapPoint x y (App.items s) t
        = getSnapPoint x y (shownItems (App.items s)) t) /\
    (drawItem' (IWidget w) = [] /\
     renderCanvas' s = renderCanvas' (App.with_items s (shownItems (App.items s)))) /\
    (forall e : Event,
        removesItems e = false ->
        exists w', In (IWidget w') (App.items (step s e)) /\
                   Widget.id w' = Widget.id w /\ Widget.type w' = Widget.type w) /\
    ~ In (IWidget w) (App.items (step s (DeleteItem (Widget.id w)))) /\
    App.items (step s ClearBoard) = [].
Proof.
  intros s w Hin Hvis.
  assert (Hh : is_hidden (IWidget w) = true)
    by (unfold is_hidden; cbn; rewrite Hvis; reflexivity).
  repeat apply conj.
  - intros x y. split; [|symmetry; apply hitTest_shownItems].
    intros H. apply hitTest_In in H. destruct H as [_ H].
    unfold hitPred in H. rewrite Hh in H. discriminate.
  - intros x y t. split; [apply snapItem_hidden; exact Hh|].
    symmetry. apply getSnapPoint_shownItems.
  - apply drawItem_hidden. exact Hh.
  - symmetry. apply renderCanvas_shownItems.
  - intros e He. apply step_keeps_widget; assumption.
  - cbn. intros H. apply filter_In in H. destruct H as [_ H].
    cbn in H. rewrite String.eqb_refl in H. discriminate.
  - reflexivity.
Qed.

End RendererFacts.

Lemma hidden_widget_excluded_witness :
  hitTest 0 0 (App.items boardWithHiddenRuler) <> Some (IWidget hiddenRuler) /\
  getSnapPoint 0 (-25) (App.items boardWithHiddenRuler) default_threshold
  = getSnapPoint 0 (-25) (shownItems (App.items boardWithHiddenRuler))
                 default_threshold /\
  exists w', In (IWidget w') (App.items (step boardWithHiddenRuler (MouseMove 3 4))) /\
             Widget.id w' = Widget.id hiddenRuler /\
             Widget.type w' = Widget.type hiddenRuler.
Proof.
  destruct (hidden_widget_excluded
              (fun _ => []) (fun _ => []) (fun _ => []) (fun _ => []) (fun _ => [])
              (fun _ => 0) boardWithHiddenRuler hiddenRuler)
    as [Hhit [Hsnap [_ [Hkeep _]]]].
  - left. reflexivity.
  - reflexivity.
  - split; [apply Hhit|]. split; [apply Hsnap|]. apply Hkeep. reflexivity.
Defined.

(** ** Eraser *)

Lemma eraserKeeps_spec (x y : number) (i : CanvasItem) :
  eraserKeeps x y i = false <-> erasedAt x y i.
Proof.
  unfold eraserKeeps, erasedAt. split.
  - intros H. destruct (is_hidden i) eqn:Hh; [discriminate|].
    destruct i as [st|w]; [|discriminate].
    apply negb_false_iff, existsb_exists in H. destruct H as [p [Hp Hn]].
    exists st. split; [reflexivity|]. split; [reflexivity|].
    exists p. split; [exact Hp | apply ltb_true; exact Hn].
  - intros [st [-> [Hh [p [Hp Hn]]]]]. rewrite Hh.
    apply negb_false_iff, existsb_exists.
    exists p. split; [exact Hp | apply ltb_true; exact Hn].
Qed.

(** A pointer-move leaves the tool mode, the dragging flag and the drag kind
    as they are. *)
Lemma handleMouseMove_control (s : App.t) (x y : number) :
  App.mode (handleMouseMove s x y) = App.mode s /\
  App.isDragging (handleMouseMove s x y) = App.isDragging s /\
  App.dragType (handleMouseMove s x y) = App.dragType s.
Proof.
  unfold handleMouseMove.
  destruct (App.isDragging s) eqn:Hd; cbn [negb]; [|repeat split; assumption].
  destruct (is_drag (App.dragType s) compass_arc && truthy_string (App.selectedItemId s)
            && isSome (App.compassPivot s)).
  { destruct (App.compassPivot s) as [pivot|]; [|repeat split; assumption].
    destruct (find (id_is (App.selectedItemId s)) (App.items s)) as [[st|cur]|];
      cbn; repeat split; assumption. }
  destruct (is_drag (App.dragType s) rotate && truthy_string (App.selectedItemId s));
    [cbn; repeat split; assumption|].
  destruct (ToolMode_eqb (App.mode s) pen && isSome (App.currentStroke s)).
  { destruct (App.snap s); cbn;
      [destruct (getSnapPoint x y (App.items s) default_threshold)|];
      cbn; repeat split; assumption. }
  destruct (is_drag (App.dragType s) move && truthy_string (App.selectedItemId s));
    [cbn; repeat split; assumption|].
  destruct (ToolMode_eqb (App.mode s) eraser); cbn; repeat split; assumption.
Qed.

Lemma drag_control (samples : list Point.t) :
  forall s : App.t,
    App.mode (drag s samples) = App.mode s /\
    App.isDragging (drag s samples) = App.isDragging s /\
    App.dragType (drag s samples) = App.dragType s.
Proof.
  induction samples as [|p samples IH]; intros s; [repeat split|].
  cbn [drag fold_left].
  destruct (IH (handleMouseMove s (Point.x p) (Point.y p))) as [Hm [Hd Ht]].
  destruct (handleMouseMove_control s (Point.x p) (Point.y p)) as [Hm' [Hd' Ht']].
  unfold drag in *. repeat split; congruence.
Qed.

(** Pointer-down in eraser mode starts a drag without a drag kind. *)
Lemma handleMouseDown_eraser (s : App.t) (x y : number) (r : bool) (uid : string) :
  App.mode s = eraser ->
  App.mode (handleMouseDown s x y r uid) = eraser /\
  App.isDragging (handleMouseDown s x y r uid) = true /\
  App.dragType (handleMouseDown s x y r uid) = None.
Proof.
  intros Hm. unfold handleMouseDown. rewrite Hm.
  cbn [ToolMode_eqb andb]. rewrite andb_false_r.
  destruct (hitTest x y (App.items s)) as [[st|c]|]; destruct r; cbn;
    rewrite ?Hm; cbn;
    try match goal with
        | |- context [WidgetType_eqb ?a Compass] =>
          destruct (WidgetType_eqb a Compass); cbn
        end;
    repeat split; assumption || reflexivity.
Qed.

Lemma handleMouseMove_eraser (s : App.t) (x y : number) :
  App.mode s = eraser -> App.isDragging s = true -> App.dragType s = None ->
  App.items (handleMouseMove s x y) = filter (eraserKeeps x y) (App.items s).
Proof.
  intros Hm Hd Ht. unfold handleMouseMove. rewrite Hd, Ht, Hm. reflexivity.
Qed.

(** C7.  In a drag that starts with a pointer-down in eraser mode, a move to
    the cursor [(x, y)] filters the store: the items removed are exactly the
    strokes that are not hidden and have at least one point less than 20
    units from the cursor; every other item (every widget, every hidden
    item, every stroke with no point in reach) stays in the store, unchanged
    and in the same order. *)
Theorem eraser_removes_exactly_near_strokes :
  forall (s : App.t) (x0 y0 : number) (r : bool) (uid : string)
         (samples : list Point.t) (x y : number),
    App.mode s = eraser ->
    let s1 := drag (handleMouseDown s x0 y0 r uid) samples in
    let s2 := handleMouseMove s1 x y in
    (exists keep : CanvasItem -> bool,
        App.items s2 = filter keep (App.items s1) /\
        forall i, keep i = false <-> erasedAt x y i) /\
    (forall i, In i (App.items s2) <-> In i (App.items s1) /\ ~ erasedAt x y i) /\
    (forall i, In i (App.items s1) ->
       is_stroke i = false \/ is_hidden i = true \/
       (exists st, i = IStroke st /\
                   forall p, In p (Stroke.points st) -> ~ nearCursor x y p) ->
       In i (App.items s2)).
Proof.
  intros s x0 y0 r uid samples x y Hm s1 s2.
  destruct (handleMouseDown_eraser s x0 y0 r uid Hm) as [Hm0 [Hd0 Ht0]].
  destruct (drag_control samples (handleMouseDown s x0 y0 r uid)) as [Hm1 [Hd1 Ht1]].
  fold s1 in Hm1, Hd1, Ht1. rewrite Hm0 in Hm1. rewrite Hd0 in Hd1. rewrite Ht0 in Ht1.
  assert (E : App.items s2 = filter (eraserKeeps x y) (App.items s1))
    by (apply handleMouseMove_eraser; assumption).
  assert (M : forall i, In i (App.items s2) <->
                        In i (App.items s1) /\ ~ erasedAt x y i).
  { intros i. rewrite E, filter_In, <- eraserKeeps_spec.
    destruct (eraserKeeps x y i); intuition congruence. }
  split; [|split].
  - exists (eraserKeeps x y). split; [exact E | apply eraserKeeps_spec].
  - exact M.
  - intros i Hin Hcase. apply M. split; [exact Hin|].
    intros [st [-> [Hh [p [Hp Hn]]]]].
    destruct Hcase as [H|[H|[st' [E' H]]]].
    + discriminate.
    + congruence.
    + inversion E'; subst st'. exact (H p Hp Hn).
Qed.

Lemma eraser_removes_exactly_near_strokes_witness :
  let s2 := handleMouseMove
              (drag (handleMouseDown eraserBoard 3 4 false "u") []) 3 4 in
  ~ In (IStroke demoStroke) (App.items s2) /\
  In (IWidget hiddenRuler) (App.items s2).
Proof.
  destruct (eraser_removes_exactly_near_strokes eraserBoard 3 4 false "u" [] 3 4
              eq_refl) as [_ [M K]].
  split.
  - intros H. apply M in H. destruct H as [_ H]. apply H.
    exists demoStroke. split; [reflexivity|]. split; [reflexivity|].
    exists (Point.mk 0 0). split; [left; reflexivity|].
    unfold nearCursor, hypot; cbn [Point.x Point.y].
    replace ((0 - 3) * (0 - 3) + (0 - 4) * (0 - 4)) with (5 * 5) by ring.
    rewrite sqrt_square; lra.
  - apply K.
    + right; left; reflexivity.
    + right; left; reflexivity.
Defined.

(** ** Hit test *)

Lemma hitPred_spec (x y : number) (i : CanvasItem) :
  hitPred x y i = true <-> hittable x y i.
Proof.
  unfold hitPred, hittable, is_hidden. split.
  - destruct i as [st|w]; cbn.
    + destruct (Stroke.visible st) as [[|]|]; discriminate.
    + intros H. exists w. split; [reflexivity|].
      destruct (Widget.visible w) as [[|]|]; try discriminate;
        (split; [discriminate | apply ltb_true; exact H]).
  - intros [w [-> [Hv Hd]]]. cbn.
    destruct (Widget.visible w) as [[|]|]; try (apply ltb_true; exact Hd).
    contradiction Hv. reflexivity.
Qed.

Lemma find_first {A : Type} (p : A -> bool) (l : list A) (a : A) :
  find p l = Some a <->
  exists l1 l2, l = l1 ++ a :: l2 /\ p a = true /\
                forall b, In b l1 -> p b = false.
Proof.
  split.
  - induction l as [|c l IH]; [discriminate|].
    cbn. destruct (p c) eqn:Pc.
    + intros E; inversion E; subst. exists [], l.
      split; [reflexivity|]. split; [exact Pc|]. intros b [].
    + intros E. destruct (IH E) as [l1 [l2 [-> [Pa Hl1]]]].
      exists (c :: l1), l2. split; [reflexivity|]. split; [exact Pa|].
      intros b [<-|Hb]; [exact Pc | apply Hl1; exact Hb].
  - intros [l1 [l2 [-> [Pa Hl1]]]]. induction l1 as [|c l1 IH]; cbn.
    + rewrite Pa. reflexivity.
    + rewrite (Hl1 c (or_introl eq_refl)). apply IH.
      intros b Hb. apply Hl1. right. exact Hb.
Qed.

(** The scan of the reversed copy finds the last match of the store. *)
Lemma find_rev_last {A : Type} (p : A -> bool) (l : list A) (a : A) :
  find p (rev l) = Some a <->
  exists before after, l = before ++ a :: after /\ p a = true /\
                       forall b, In b after -> p b = false.
Proof.
  rewrite find_first. split.
  - intros [l1 [l2 [E [Pa H]]]]. exists (rev l2), (rev l1).
    split; [|split; [exact Pa|]].
    + rewrite <- (rev_involutive l), E, rev_app_distr. cbn.
      rewrite <- app_assoc. reflexivity.
    + intros b Hb. apply H. apply in_rev. exact Hb.
  - intros [before [after [-> [Pa H]]]]. exists (rev after), (rev before).
    split; [|split; [exact Pa|]].
    + rewrite rev_app_distr. cbn. rewrite <- app_assoc. reflexivity.
    + intros b Hb. apply H. apply in_rev. exact Hb.
Qed.

Lemma handleMouseDown_miss (s : App.t) (x y : number) (r : bool) (uid : string) :
  hitTest x y (App.items s) = None ->
  (App.mode s = select ->
   App.items (handleMouseDown s x y r uid) = map (set_selected false) (App.items s)
   /\ App.selectedItemId (handleMouseDown s x y r uid) = None) /\
  (App.mode s <> select ->
   App.items (handleMouseDown s x y r uid) = App.items s
   /\ App.selectedItemId (handleMouseDown s x y r uid) = App.selectedItemId s).
Proof.
  intros Hhit. unfold handleMouseDown. rewrite Hhit. split.
  - intros Hm. rewrite Hm. cbn. rewrite andb_false_r. cbn. split; reflexivity.
  - intros Hm. destruct (App.mode s) eqn:Em; try contradiction; cbn;
      rewrite ?andb_false_r; cbn; try (split; reflexivity);
      destruct r; cbn; try (split; reflexivity);
      destruct (App.snap s); cbn; try (split; reflexivity);
      destruct (getSnapPoint x y (App.items s) default_threshold); cbn;
      split; reflexivity.
Qed.

Lemma handleMouseDown_selectedItemId (s : App.t) (x y : number) (r : bool)
  (uid : string) :
  App.selectedItemId (handleMouseDown s x y r uid)
  = match hitTest x y (App.items s) with
    | Some clicked => Some (item_id clicked)
    | None => if ToolMode_eqb (App.mode s) select then None
              else App.selectedItemId s
    end.
Proof.
  unfold handleMouseDown.
  destruct (hitTest x y (App.items s)) as [[st|c]|]; destruct r; cbn;
    repeat match goal with
           | |- context [WidgetType_eqb ?a Compass] =>
             destruct (WidgetType_eqb a Compass); cbn
           | |- context [ToolMode_eqb (App.mode s) ?m] =>
             destruct (ToolMode_eqb (App.mode s) m); cbn
           | |- context [if App.snap s then _ else _] => destruct (App.snap s); cbn
           | |- context [match getSnapPoint ?a ?b ?c ?d with _ => _ end] =>
             destruct (getSnapPoint a b c d); cbn
           end;
    reflexivity.
Qed.

(** C8.  The pointer-down hit test returns the last item of the store (the
    topmost in z-order) among the widgets that are not hidden and whose
    pivot is less than 100 units from the cursor, and nothing when there is
    none.  A stroke is never returned; so a pointer-down with no such widget
    under it, on a stroke or not, selects nothing: in select mode it clears
    the selection, in every other mode it leaves store and selection as they
    were. *)
Theorem hitTest_topmost_widget :
  forall (x y : number) (items : list CanvasItem),
    (forall i, hitTest x y items = Some i <->
               exists before after,
                 items = before ++ i :: after /\ hittable x y i /\
                 forall j, In j after -> ~ hittable x y j) /\
    (hitTest x y items = None <-> forall j, In j items -> ~ hittable x y j) /\
    (forall st, hitTest x y items <> Some (IStroke st)) /\
    (forall (s : App.t) (r : bool) (uid : string),
        App.items s = items ->
        (forall j, In j items -> ~ hittable x y j) ->
        let s' := handleMouseDown s x y r uid in
        (App.mode s = select ->
         App.items s' = map (set_selected false) items /\
         selectedCount (App.items s') = 0%nat /\
         App.selectedItemId s' = None) /\
        (App.mode s <> select ->
         App.items s' = items /\
         App.selectedItemId s' = App.selectedItemId s)).
Proof.
  intros x y items.
  assert (N : hitTest x y items = None <-> forall j, In j items -> ~ hittable x y j).
  { unfold hitTest. split.
    - intros H j Hj Hh. apply hitPred_spec in Hh.
      rewrite (find_none _ _ H j) in Hh; [discriminate | apply in_rev in Hj; exact Hj].
    - intros H. destruct (find (hitPred x y) (rev items)) as [i|] eqn:F; [|reflexivity].
      apply find_some in F. destruct F as [Hi Hp]. exfalso.
      apply (H i); [apply in_rev; exact Hi | apply hitPred_spec; exact Hp]. }
  split; [|split; [exact N|split]].
  - intros i. unfold hitTest. rewrite find_rev_last. split.
    + intros [before [after [E [Hp H]]]]. exists before, after.
      split; [exact E|]. split; [apply hitPred_spec; exact Hp|].
      intros j Hj Hh. apply hitPred_spec in Hh. rewrite (H j Hj) in Hh. discriminate.
    + intros [before [after [E [Hp H]]]]. exists before, after.
      split; [exact E|]. split; [apply hitPred_spec; exact Hp|].
      intros j Hj. destruct (hitPred x y j) eqn:P; [|reflexivity].
      exfalso. apply (H j Hj). apply hitPred_spec. exact P.
  - intros st H. apply hitTest_In in H. destruct H as [_ H].
    apply hitPred_spec in H. destruct H as [w [E _]]. discriminate.
  - intros s r uid <- Hnone s'.
    apply N in Hnone.
    destruct (handleMouseDown_miss s x y r uid Hnone) as [Hsel Hother].
    split.
    + intros Hm. destruct (Hsel Hm) as [E1 E2]. unfold s'.
      split; [exact E1|]. split; [|exact E2].
      rewrite E1. apply selectedCount_deselect_all.
    + intros Hm. exact (Hother Hm).
Qed.

(** ** The stroke in progress and the finalized strokes *)

Lemma sameItem_id (i j : CanvasItem) : sameItem i j -> item_id i = item_id j.
Proof. destruct i, j; cbn; tauto. Qed.

Lemma keeps_In_inv (D : CanvasItem -> Prop) (l l' : list CanvasItem)
  (j : CanvasItem) :
  keeps D l l' -> In j l' -> exists i, In i l /\ sameItem i j.
Proof.
  induction 1 as [|a l l' _ _ IH|a b l l' Hs _ IH]; intros Hin.
  - destruct Hin.
  - destruct (IH Hin) as [i [Hi Hsi]]. exists i. split; [right|]; assumption.
  - destruct Hin as [<-|Hin].
    + exists a. split; [left; reflexivity | exact Hs].
    + destruct (IH Hin) as [i [Hi Hsi]]. exists i. split; [right|]; assumption.
Qed.


Lemma keeps_ids (D : CanvasItem -> Prop) (l l' : list CanvasItem) (id : string) :
  keeps D l l' -> In id (map item_id l') -> In id (map item_id l).
Proof.
  intros Hk Hin. apply in_map_iff in Hin. destruct Hin as [j [<- Hj]].
  destruct (keeps_In_inv D l l' j Hk Hj) as [i [Hi Hs]].
  rewrite <- (sameItem_id i j Hs). apply in_map. exact Hi.
Qed.

Lemma handleMouseDown_currentStroke (s : App.t) (x y : number) (r : bool)
  (uid : string) :
  App.currentStroke (handleMouseDown s x y r uid) = App.currentStroke s \/
  exists cur, App.currentStroke (handleMouseDown s x y r uid) = Some cur /\
              Stroke.id cur = uid.
Proof.
  unfold handleMouseDown.
  destruct (negb r && ToolMode_eqb (App.mode s) pen) eqn:Hpen.
  - right. destruct (App.snap s);
      [destruct (getSnapPoint x y (App.items s) default_threshold)|];
      cbn; destruct (ToolMode_eqb (App.mode s) eraser); cbn;
      eexists; split; reflexivity.
  - destruct (hitTest x y (App.items s)) as [[st|c]|]; destruct r; cbn;
      try match goal with
          | |- context [WidgetType_eqb ?a Compass] =>
            destruct (WidgetType_eqb a Compass); cbn
          end;
      destruct (ToolMode_eqb (App.mode s) select); cbn;
      destruct (ToolMode_eqb (App.mode s) eraser); cbn;
      try (left; reflexivity);
      right; eexists; split; reflexivity.
Qed.

Lemma appendPoint_id (p : Point.t) (c : option Stroke.t) (cur' : Stroke.t) :
  appendPoint p c = Some cur' ->
  exists cur, c = Some cur /\ Stroke.id cur' = Stroke.id cur.
Proof.
  destruct c as [cur|]; cbn; [|discriminate].
  intros E; inversion E; subst. exists cur. split; reflexivity.
Qed.

Lemma handleMouseMove_currentStroke (s : App.t) (x y : number) :
  App.currentStroke (handleMouseMove s x y) = App.currentStroke s \/
  exists p, App.currentStroke (handleMouseMove s x y)
            = appendPoint p (App.currentStroke s).
Proof.
  unfold handleMouseMove.
  destruct (App.isDragging s); cbn [negb]; [|left; reflexivity].
  destruct (is_drag (App.dragType s) compass_arc && truthy_string (App.selectedItemId s)
            && isSome (App.compassPivot s)).
  { destruct (App.compassPivot s) as [pivot|]; [|left; reflexivity].
    destruct (find (id_is (App.selectedItemId s)) (App.items s)) as [[st|cur]|];
      cbn; try (left; reflexivity).
    right. eexists. reflexivity. }
  destruct (is_drag (App.dragType s) rotate && truthy_string (App.selectedItemId s));
    [left; reflexivity|].
  destruct (ToolMode_eqb (App.mode s) pen && isSome (App.currentStroke s)).
  { right. destruct (App.snap s);
      [destruct (getSnapPoint x y (App.items s) default_threshold)|];
      cbn; eexists; reflexivity. }
  destruct (is_drag (App.dragType s) move && truthy_string (App.selectedItemId s));
    [left; reflexivity|].
  destruct (ToolMode_eqb (App.mode s) eraser); left; reflexivity.
Qed.

(** Pointer-up appends the stroke in progress and empties the slot, or
    leaves both as they are. *)
Lemma handleMouseUp_cases (s : App.t) :
  (exists cur,
      App.currentStroke s = Some cur /\
      (App.dragType s = Some compass_arc \/ App.mode s = pen) /\
      App.items (handleMouseUp s) = App.items s ++ [IStroke cur] /\
      App.currentStroke (handleMouseUp s) = None) \/
  ((App.currentStroke s = None \/
    (App.dragType s <> Some compass_arc /\ App.mode s <> pen)) /\
   App.items (handleMouseUp s) = App.items s /\
   App.currentStroke (handleMouseUp s) = App.currentStroke s).
Proof.
  unfold handleMouseUp.
  destruct (App.currentStroke s) as [cur|] eqn:Hcur.
  - destruct (App.dragType s) as [[| |]|] eqn:Hd; cbn;
      try (left; exists cur; repeat split; try reflexivity; left; reflexivity);
      destruct (App.mode s) eqn:Hm; cbn;
      try (left; exists cur; repeat split; try reflexivity; right; reflexivity);
      right; (split; [right; split; discriminate | split; [reflexivity | exact Hcur]]).
  - right. cbn. split; [left; reflexivity | split; [reflexivity | exact Hcur]].
Qed.

Lemma step_currentStroke_other (s : App.t) (e : Event) :
  match e with
  | MouseDown _ _ _ _ | MouseMove _ _ | MouseUp => True
  | _ => App.currentStroke (step s e) = App.currentStroke s
  end.
Proof.
  destruct e; cbn; try exact I; try reflexivity.
  - unfold handleWheel. destruct (truthy_string (App.selectedItemId s)); reflexivity.
  - unfold addWidget.
    destruct (if isSingleton type then _ else None) as [idx|]; [|reflexivity].
    destruct (nth_error (App.items s) idx) as [existing|]; [|reflexivity].
    cbv zeta. destruct (is_hidden existing); [reflexivity|].
    destruct (id_is _ existing); reflexivity.
Qed.

Lemma step_inProgressApart (s : App.t) (e : Event) :
  freshFor s e -> inProgressApart s -> inProgressApart (step s e).
Proof.
  intros Hfresh Hinv cur' Hcur' Hin.
  destruct (step_frame s e) as [kept [added [Hk [Ha E]]]].
  rewrite E, map_app in Hin. apply in_app_or in Hin.
  pose proof (step_currentStroke_other s e) as Hother.
  destruct e as [x y r uid|x y| |d|t uid|id|id|id| |uid src w h|uid src w h
                |m|c w st|b|b|w h];
    cbn [step] in *; unfold freshFor in Hfresh; cbn [eventUid eventAdds] in *;
    try (rewrite Hother in Hcur'); subst.
  - (* pointer-down *)
    destruct Hin as [Hin|[]]. apply (keeps_ids _ _ _ _ Hk) in Hin.
    destruct Hfresh as [Hf1 Hf2].
    destruct (handleMouseDown_currentStroke s x y r uid) as [Hc|[cur [Hc Hid]]].
    + rewrite Hc in Hcur'. exact (Hinv cur' Hcur' Hin).
    + rewrite Hc in Hcur'. inversion Hcur'; subst. exact (Hf1 Hin).
  - (* pointer-move *)
    destruct Hin as [Hin|[]]. apply (keeps_ids _ _ _ _ Hk) in Hin.
    destruct (handleMouseMove_currentStroke s x y) as [Hc|[p Hc]].
    + rewrite Hc in Hcur'. exact (Hinv cur' Hcur' Hin).
    + rewrite Hc in Hcur'. apply appendPoint_id in Hcur'.
      destruct Hcur' as [cur [Hcur Hid]]. rewrite Hid in Hin.
      exact (Hinv cur Hcur Hin).
  - (* pointer-up *)
    destruct (handleMouseUp_cases s) as [[cur [_ [_ [_ Hn]]]]|[_ [Ei Ec]]].
    + rewrite Hn in Hcur'. discriminate.
    + rewrite Ec in Hcur'.
      assert (Hall : In (Stroke.id cur') (map item_id (App.items (handleMouseUp s))))
        by (rewrite E, map_app; apply in_or_app; exact Hin).
      rewrite Ei in Hall. exact (Hinv cur' Hcur' Hall).
  - destruct Hin as [Hin|[]]. apply (keeps_ids _ _ _ _ Hk) in Hin.
    exact (Hinv cur' Hcur' Hin).
  - destruct Hfresh as [Hf1 Hf2]. destruct Hin as [Hin|Hin].
    + apply (keeps_ids _ _ _ _ Hk) in Hin. exact (Hinv cur' Hcur' Hin).
    + destruct Ha as [->|[cx [cy [_ ->]]]]; [destruct Hin|].
      destruct Hin as [Hin|[]]. cbn in Hin. exact (Hf2 cur' Hcur' (eq_sym Hin)).
  - destruct Hin as [Hin|[]]. apply (keeps_ids _ _ _ _ Hk) in Hin.
    exact (Hinv cur' Hcur' Hin).
  - destruct Hin as [Hin|[]]. apply (keeps_ids _ _ _ _ Hk) in Hin.
    exact (Hinv cur' Hcur' Hin).
  - destruct Hin as [Hin|[]]. apply (keeps_ids _ _ _ _ Hk) in Hin.
    exact (Hinv cur' Hcur' Hin).
  - destruct Hin as [Hin|[]]. apply (keeps_ids _ _ _ _ Hk) in Hin.
    exact (Hinv cur' Hcur' Hin).
  - destruct Hfresh as [Hf1 Hf2]. destruct Hin as [Hin|Hin].
    + apply (keeps_ids _ _ _ _ Hk) in Hin. exact (Hinv cur' Hcur' Hin).
    + destruct Hin as [Hin|[]]. cbn in Hin. exact (Hf2 cur' Hcur' (eq_sym Hin)).
  - destruct Hfresh as [Hf1 Hf2]. destruct Hin as [Hin|Hin].
    + apply (keeps_ids _ _ _ _ Hk) in Hin. exact (Hinv cur' Hcur' Hin).
    + destruct Hin as [Hin|[]]. cbn in Hin. exact (Hf2 cur' Hcur' (eq_sym Hin)).
  - destruct Hin as [Hin|[]]. apply (keeps_ids _ _ _ _ Hk) in Hin.
    exact (Hinv cur' Hcur' Hin).
  - destruct Hin as [Hin|[]]. apply (keeps_ids _ _ _ _ Hk) in Hin.
    exact (Hinv cur' Hcur' Hin).
  - destruct Hin as [Hin|[]]. apply (keeps_ids _ _ _ _ Hk) in Hin.
    exact (Hinv cur' Hcur' Hin).
  - destruct Hin as [Hin|[]]. apply (keeps_ids _ _ _ _ Hk) in Hin.
    exact (Hinv cur' Hcur' Hin).
  - destruct Hin as [Hin|[]]. apply (keeps_ids _ _ _ _ Hk) in Hin.
    exact (Hinv cur' Hcur' Hin).
Qed.


Lemma keeps_NoDup (D : CanvasItem -> Prop) (l l' : list CanvasItem) :
  keeps D l l' -> NoDup (map item_id l) -> NoDup (map item_id l').
Proof.
  induction 1 as [|i l l' _ _ IH|i j l l' Hs Hk IH]; intros Hnd.
  - constructor.
  - apply IH. inversion Hnd; assumption.
  - cbn in *. inversion Hnd as [|? ? Hnotin Hnd']; subst.
    constructor; [|apply IH; exact Hnd'].
    intros Hin. apply Hnotin. rewrite (sameItem_id i j Hs).
    exact (keeps_ids D l l' _ Hk Hin).
Qed.

Lemma NoDup_snoc {A : Type} (l : list A) (a : A) :
  NoDup l -> ~ In a l -> NoDup (l ++ [a]).
Proof.
  intros Hl Ha. induction l as [|b l IH]; cbn.
  - constructor; [intros [] | constructor].
  - inversion Hl as [|? ? Hb Hl']; subst. constructor.
    + intros Hin. apply in_app_or in Hin. destruct Hin as [Hin|[<-|[]]].
      * exact (Hb Hin).
      * apply Ha. left. reflexivity.
    + apply IH; [exact Hl'|]. intros Hin. apply Ha. right. exact Hin.
Qed.

Lemma step_distinctIds (s : App.t) (e : Event) :
  freshFor s e -> inProgressApart s -> distinctIds (App.items s) ->
  distinctIds (App.items (step s e)).
Proof.
  intros Hfresh Hinv Hids.
  destruct (step_frame s e) as [kept [added [Hk [Ha E]]]].
  unfold distinctIds in *. rewrite E, map_app.
  pose proof (keeps_NoDup _ _ _ Hk Hids) as Hkept.
  assert (Hsub : forall id, In id (map item_id kept) -> In id (map item_id (App.items s)))
    by (intros id; apply (keeps_ids _ _ _ _ Hk)).
  unfold freshFor in Hfresh.
  destruct e; cbn [eventAdds eventUid] in *; subst;
    try (rewrite app_nil_r; exact Hkept).
  - destruct Ha as [->|[cur [Hcur ->]]]; [rewrite app_nil_r; exact Hkept|].
    apply NoDup_snoc; [exact Hkept|]. intros Hin. exact (Hinv cur Hcur (Hsub _ Hin)).
  - destruct Ha as [->|[cx [cy [_ ->]]]]; [rewrite app_nil_r; exact Hkept|].
    apply NoDup_snoc; [exact Hkept|]. intros Hin. exact (proj1 Hfresh (Hsub _ Hin)).
  - apply NoDup_snoc; [exact Hkept|]. intros Hin. exact (proj1 Hfresh (Hsub _ Hin)).
  - apply NoDup_snoc; [exact Hkept|]. intros Hin. exact (proj1 Hfresh (Hsub _ Hin)).
Qed.

Lemma run_distinctIds (es : list Event) :
  forall s : App.t,
    freshRun s es -> inProgressApart s -> distinctIds (App.items s) ->
    distinctIds (App.items (run s es)) /\ inProgressApart (run s es).
Proof.
  induction es as [|e es IH]; intros s Hf Hinv Hids; [split; assumption|].
  destruct Hf as [Hfe Hfr]. cbn [run fold_left]. apply IH.
  - exact Hfr.
  - apply step_inProgressApart; assumption.
  - apply step_distinctIds; assumption.
Qed.



Lemma hitTest_topmost_widget_witness :
  hitTest 0 0 [IStroke demoStroke] = None.
Proof.
  apply (proj1 (proj2 (hitTest_topmost_widget 0 0 [IStroke demoStroke]))).
  intros j [<-|[]] [w [E _]]. discriminate.
Defined.

(** ** Text widgets *)

Lemma hitTest_last (x y : number) (l : list CanvasItem) (i : CanvasItem) :
  hitPred x y i = true -> hitTest x y (l ++ [i]) = Some i.
Proof.
  intros H. unfold hitTest. rewrite rev_app_distr. cbn. rewrite H. reflexivity.
Qed.

Lemma hypot_diag (a b : number) : hypot (a - a) (b - b) = 0.
Proof.
  unfold hypot. rewrite !Rminus_diag.
  replace (0 * 0 + 0 * 0) with 0 by ring. apply sqrt_0.
Qed.

(** The parenthesis of C10 fails: the text widget that the text tool has
    just created paints nothing, yet a pointer-down on the canvas at its
    position hits it, selects it and starts a move. *)
Lemma text_widget_reached_by_pointer :
  App.items boardWithText = [IWidget (newWidget "text-1" Text 400 300)] /\
  hitTest 400 300 (App.items boardWithText)
    = Some (IWidget (newWidget "text-1" Text 400 300)) /\
  App.selectedItemId (handleMouseDown boardWithText 400 300 false "u")
    = Some "text-1"%string /\
  App.dragType (handleMouseDown boardWithText 400 300 false "u") = Some move.
Proof.
  assert (H : hitTest 400 300 (App.items boardWithText)
              = Some (IWidget (newWidget "text-1" Text 400 300))).
  { apply (hitTest_last 400 300 []). unfold hitPred; cbn.
    rewrite hypot_diag. apply ltb_true. lra. }
  split; [reflexivity|]. split; [exact H|].
  unfold handleMouseDown. rewrite H. split; reflexivity.
Qed.

Lemma step_text_none (s : App.t) (e : Event) :
  (forall w, In (IWidget w) (App.items s) -> Widget.text w = None) ->
  forall w, In (IWidget w) (App.items (step s e)) -> Widget.text w = None.
Proof.
  intros Hs w Hin.
  destruct (step_frame s e) as [kept [added [Hk [Ha E]]]].
  rewrite E in Hin. apply in_app_or in Hin. destruct Hin as [Hin|Hin].
  - destruct (keeps_In_inv _ _ _ _ Hk Hin) as [i [Hi Hsame]].
    destruct i as [st|w0]; [destruct Hsame|].
    destruct Hsame as [_ [_ Ht]]. rewrite <- Ht. apply Hs. exact Hi.
  - destruct e; cbn in Ha; subst; try (destruct Hin; fail).
    + destruct Ha as [->|[cur [_ ->]]]; [destruct Hin|].
      destruct Hin as [Hin|[]]. discriminate.
    + destruct Ha as [->|[cx [cy [_ ->]]]]; [destruct Hin|].
      destruct Hin as [Hin|[]]. inversion Hin; subst. reflexivity.
    + destruct Hin as [Hin|[]]. inversion Hin; subst. reflexivity.
    + destruct Hin as [Hin|[]]. inversion Hin; subst. reflexivity.
Qed.

Lemma run_text_none (es : list Event) :
  forall s : App.t,
    (forall w, In (IWidget w) (App.items s) -> Widget.text w = None) ->
    forall w, In (IWidget w) (App.items (run s es)) -> Widget.text w = None.
Proof.
  induction es as [|e es IH]; intros s Hs; [exact Hs|].
  cbn [run fold_left]. apply IH. apply step_text_none. exact Hs.
Qed.

Section TextWidget.

Variables drawRuler drawProtractor drawSetSquare drawCompass drawImageWidget
  : Widget.t -> list CanvasOp.
Variable measureTextWidth : string -> number.

Let drawItem' := drawItem drawRuler drawProtractor drawSetSquare drawCompass
                          drawImageWidget measureTextWidth.

(** C10, amended.  The text tool appends to the (deselected) store a text
    widget whose [text] is undefined, and [drawTextWidget] issues no call
    for a widget whose text is absent or empty, so the renderer paints
    nothing for it.  No handler sets [text]: along any run of events from
    the first render every widget of the store has its text undefined.
    The widget is a row of the layer panel, and it is also a target of the
    pointer-down hit test: being on top of the store, it is what the hit
    test returns for any cursor less than 100 units from its position.
    So it is in any store: a text widget without text that is not hidden
    paints nothing, yet a pointer-down less than 100 units from it hits it,
    makes it the selection and flags it alone, as long as no shown widget
    above it in the store is within 100 units of the pointer as well; when
    there is one (widgets are created at the canvas centre, so a widget
    added later covers it until one of the two is moved or hidden), a
    widget above it is hit instead. *)
Theorem text_widget_paints_nothing :
  forall (s : App.t) (uid : string),
    let s' := addWidget s Text uid in
    (exists w,
        App.items s' = map (set_selected false) (App.items s) ++ [IWidget w] /\
        Widget.id w = uid /\ Widget.type w = Text /\ Widget.text w = None /\
        drawItem' (IWidget w) = [] /\
        In (IWidget w) (widgetItems (App.items s')) /\
        forall x y : number,
          hypot (x - Widget.x w) (y - Widget.y w) < 100 ->
          hitTest x y (App.items s') = Some (IWidget w)) /\
    (forall t : Widget.t,
        truthy_string (Widget.text t) = false ->
        drawTextWidget measureTextWidth t = []) /\
    (forall (cv : option Canvas.t) (es : list Event) (w : Widget.t),
        In (IWidget w) (App.items (run (App.init cv) es)) ->
        Widget.text w = None) /\
    (forall (s0 : App.t) (before after : list CanvasItem) (t : Widget.t)
            (x y : number) (r : bool) (u : string),
        App.items s0 = before ++ IWidget t :: after ->
        Widget.type t = Text -> Widget.text t = None ->
        Widget.visible t <> Some false ->
        hypot (x - Widget.x t) (y - Widget.y t) < 100 ->
        drawItem' (IWidget t) = [] /\
        ((forall j, In j after -> ~ hittable x y j) ->
         let s1 := handleMouseDown s0 x y r u in
         hitTest x y (App.items s0) = Some (IWidget t) /\
         App.selectedItemId s1 = Some (Widget.id t) /\
         App.items s1
         = map (fun i => set_selected (String.eqb (item_id i) (Widget.id t)) i)
               (App.items s0)) /\
        ((exists j, In j after /\ hittable x y j) ->
         exists j, In j after /\ hittable x y j /\
                   hitTest x y (App.items s0) = Some j)).
Proof.
  intros s uid s'. split; [|split; [|split]].
  - destruct (addWidget_cases s Text uid)
      as [[idx [existing [Hs _]]] | [cx [cy [_ E]]]]; [discriminate|].
    exists (newWidget uid Text cx cy). unfold s'. rewrite E.
    split; [reflexivity|]. split; [reflexivity|]. split; [reflexivity|].
    split; [reflexivity|]. split; [reflexivity|]. split.
    + unfold widgetItems. apply filter_In. split; [|reflexivity].
      apply in_or_app. right. left. reflexivity.
    + intros x y Hd. apply hitTest_last. apply hitPred_spec.
      eexists. split; [reflexivity|]. split; [discriminate | exact Hd].
  - intros t Ht. unfold drawTextWidget.
    destruct (Widget.text t) as [txt|]; [|reflexivity].
    cbn in Ht. apply negb_false_iff in Ht. rewrite Ht. reflexivity.
  - intros cv es w. apply run_text_none. intros w0 [].
  - intros s0 before after t x y r u E Hty Htx Hv Hd. split; [|split].
    + unfold drawItem', drawItem, is_hidden. cbn [item_visible].
      destruct (Widget.visible t) as [[|]|]; try reflexivity;
        rewrite Hty; unfold drawTextWidget; rewrite Htx; reflexivity.
    + intros Hafter s1.
      assert (H : hitTest x y (App.items s0) = Some (IWidget t)).
      { unfold hitTest. apply find_rev_last. exists before, after.
        split; [exact E|]. split.
        - apply hitPred_spec. exists t. split; [reflexivity|].
          split; assumption.
        - intros j Hj. destruct (hitPred x y j) eqn:Hp; [|reflexivity].
          exfalso. apply (Hafter j Hj). apply hitPred_spec. exact Hp. }
      split; [exact H|]. split.
      * unfold s1. rewrite handleMouseDown_selectedItemId, H. reflexivity.
      * unfold s1. rewrite handleMouseDown_items, H. reflexivity.
    + intros [j0 [Hj0 Hh0]].
      destruct (hitTest x y (App.items s0)) as [j|] eqn:H.
      * unfold hitTest in H. apply find_rev_last in H.
        destruct H as [b' [a' [E' [Hp Hn]]]].
        assert (Hin : In j after).
        { rewrite E in E'.
          assert (Hj0' : In j0 (b' ++ j :: a')).
          { rewrite <- E'. apply in_or_app. right. right. exact Hj0. }
          apply hitPred_spec in Hh0.
          clear - E' Hn Hh0 Hj0 Hp.
          revert b' E'. induction before as [|c before IH]; intros b' E'.
          - destruct b' as [|c' b'].
            + cbn in E'. injection E' as _ Ea. subst a'.
              rewrite (Hn j0 Hj0) in Hh0. discriminate Hh0.
            + cbn in E'. injection E' as _ Ea. rewrite Ea.
              apply in_or_app. right. left. reflexivity.
          - destruct b' as [|c' b'].
            + cbn in E'. injection E' as _ Ea. subst a'.
              assert (Hj : In j0 (before ++ IWidget t :: after))
                by (apply in_or_app; right; right; exact Hj0).
              rewrite (Hn j0 Hj) in Hh0. discriminate Hh0.
            + cbn in E'. injection E' as _ Ea. apply (IH b'). exact Ea. }
        exists j. split; [exact Hin|]. split; [|reflexivity].
        apply hitPred_spec. exact Hp.
      * exfalso. unfold hitTest in H.
        apply hitPred_spec in Hh0.
        rewrite (find_none _ _ H j0) in Hh0; [discriminate|].
        apply in_rev. rewrite rev_involutive, E.
        apply in_or_app. right. right. exact Hj0.
Qed.

End TextWidget.

(** ** Worked examples *)

(** The ruler tool twice: one ruler, now hidden and deselected. *)
Example ruler_tool_twice :
  App.items (run (App.init None) [AddWidget Ruler "ruler-1"; AddWidget Ruler "ruler-2"])
  = [IWidget (Widget.with_selected (Widget.with_visible
                (newWidget "ruler-1" Ruler 400 300) false) false)].
Proof. reflexivity. Qed.

(** A pen gesture on an empty board: the stroke sits in the slot while it is
    drawn and is in the store, whole, after pointer-up. *)
Example pen_gesture :
  let drawing := run (App.init None)
                     [SetMode pen; MouseDown 1 2 false "stroke-1"; MouseMove 3 4] in
  let done := step drawing MouseUp in
  App.items drawing = [] /\
  option_map Stroke.points (App.currentStroke drawing)
    = Some [Point.mk 1 2; Point.mk 3 4] /\
  App.currentStroke done = None /\
  App.items done
  = [IStroke (Stroke.mk "stroke-1" [Point.mk 1 2; Point.mk 3 4] "#000000" 4
                        (Some solid) None None)].
Proof. repeat split; reflexivity. Qed.

(** A right pointer-down on the compass in eraser mode leaves a stroke in
    the slot that no pointer-up of that mode finalizes. *)
Example compass_right_click_in_eraser_mode :
  let s := App.with_mode
             (App.with_items (App.init None) [IWidget demoCompass]) eraser in
  let s' := handleMouseUp (handleMouseDown s 0 0 true "stroke-1") in
  App.dragType s' = None /\
  option_map Stroke.id (App.currentStroke s') = Some "stroke-1"%string /\
  List.length (App.items s') = 1%nat.
Proof.
  intros s s'.
  assert (H : hitTest 0 0 (App.items s) = Some (IWidget demoCompass)).
  { apply (hitTest_last 0 0 []). unfold hitPred; cbn.
    rewrite hypot_0_0. apply ltb_true. lra. }
  unfold s', handleMouseDown. rewrite H. repeat split; reflexivity.
Qed.

(** * Further properties of the interaction engine *)

(** ** Move and rotate drags *)

Lemma truthy_string_Some (cid : string) :
  cid <> EmptyString -> truthy_string (Some cid) = true.
Proof.
  intros H. cbn. destruct (String.eqb_spec cid EmptyString); [contradiction | reflexivity].
Qed.

Lemma handleMouseMove_move (s : App.t) (x y : number) (cid : string) :
  App.isDragging s = true -> App.dragType s = Some move ->
  App.mode s = select ->
  App.selectedItemId s = Some cid -> cid <> EmptyString ->
  handleMouseMove s x y =
  App.with_lastPos
    (App.with_items s
       (map (updateSelected (Some cid)
               (fun w => Widget.with_xy w
                           (Widget.x w + (x - Point.x (App.lastPos s)))
                           (Widget.y w + (y - Point.y (App.lastPos s)))))
            (App.items s)))
    (Point.mk x y).
Proof.
  intros Hd Ht Hm Hs Hne. unfold handleMouseMove.
  rewrite Hd, Ht, Hm, Hs, (truthy_string_Some cid Hne). reflexivity.
Qed.


Lemma in_map_updateSelected_mono (sel : option string)
  (f : Widget.t -> Widget.t) (l : list CanvasItem) (c : Widget.t) :
  In (IWidget c) l -> id_is sel (IWidget c) = true ->
  In (IWidget (f c)) (map (updateSelected sel f) l).
Proof.
  intros Hin Hid. apply in_map_iff. exists (IWidget c). split; [|exact Hin].
  unfold updateSelected. rewrite Hid. reflexivity.
Qed.

Lemma id_is_widget (cid : string) (c : Widget.t) :
  id_is (Some cid) (IWidget c) = true <-> Widget.id c = cid.
Proof. cbn. split; intros H; apply String.eqb_eq; exact H. Qed.

Lemma MoveInv_step (w0 : Widget.t) (x0 y0 : number) (st : App.t) (x y : number) :
  Widget.id w0 <> EmptyString ->
  MoveInv w0 x0 y0 st -> MoveInv w0 x0 y0 (handleMouseMove st x y).
Proof.
  intros Hne [Hd Ht Hm Hs Hids [c [Hin Hc]] Hplace].
  rewrite (handleMouseMove_move st x y (Widget.id w0) Hd Ht Hm Hs Hne).
  constructor; cbn; try assumption.
  - unfold distinctIds. rewrite map_ids_preserved; [exact Hids|].
    intros i. apply updateSelected_id. intros w; reflexivity.
  - eexists. split.
    + apply in_map_updateSelected_mono; [exact Hin | apply id_is_widget; exact Hc].
    + exact Hc.
  - intros c' Hin' Hc'. apply in_map_updateSelected_widget in Hin'.
    destruct Hin' as [c0 [Hin0 [[Hid ->]|[Hid ->]]]].
    + destruct (Hplace c0 Hin0 Hc') as [Hx [Hy Ha]]. cbn.
      rewrite Hx, Hy. repeat split; [lra | lra | exact Ha].
    + apply id_is_widget in Hc'. rewrite Hc' in Hid. discriminate.
Qed.

Lemma MoveInv_drag (w0 : Widget.t) (x0 y0 : number) (samples : list Point.t) :
  Widget.id w0 <> EmptyString ->
  forall st, MoveInv w0 x0 y0 st -> MoveInv w0 x0 y0 (drag st samples).
Proof.
  intros Hne. induction samples as [|p samples IH]; intros st Hinv; [exact Hinv|].
  cbn [drag fold_left]. apply IH. apply MoveInv_step; assumption.
Qed.



Lemma last_cons_default {A : Type} (l : list A) :
  forall a d : A, List.last (a :: l) d = List.last l a.
Proof.
  induction l as [|b l IH]; intros a d; [reflexivity|].
  change (List.last (a :: b :: l) d) with (List.last (b :: l) d).
  rewrite (IH b d), (IH b a). reflexivity.
Qed.

Lemma MoveInv_lastPos (w0 : Widget.t) (x0 y0 : number) (samples : list Point.t) :
  Widget.id w0 <> EmptyString ->
  forall st, MoveInv w0 x0 y0 st ->
             App.lastPos (drag st samples) = lastSample (App.lastPos st) samples.
Proof.
  intros Hne. induction samples as [|p samples IH]; intros st Hinv; [reflexivity|].
  cbn [drag fold_left].
  fold (drag (handleMouseMove st (Point.x p) (Point.y p)) samples).
  rewrite (IH _ (MoveInv_step w0 x0 y0 st (Point.x p) (Point.y p) Hne Hinv)).
  destruct Hinv as [Hd Ht Hm Hs _ _ _].
  rewrite (handleMouseMove_move st _ _ (Widget.id w0) Hd Ht Hm Hs Hne).
  unfold lastSample. rewrite last_cons_default. destruct p; reflexivity.
Qed.


Lemma clicked_widget_after_select (l : list CanvasItem) (w c' : Widget.t) :
  distinctIds l -> In (IWidget w) l ->
  In (IWidget c')
     (map (fun i => set_selected (String.eqb (item_id i) (Widget.id w)) i) l) ->
  Widget.id c' = Widget.id w ->
  c' = Widget.with_selected w true.
Proof.
  intros Hids Hin Hin' Hc'. apply in_map_iff in Hin'.
  destruct Hin' as [i [E Hi]].
  assert (i = IWidget w).
  { apply (same_id_same_item l); try assumption.
    rewrite <- (set_selected_id (String.eqb (item_id i) (Widget.id w)) i), E.
    exact Hc'. }
  subst i. cbn in E. rewrite String.eqb_refl in E. inversion E. reflexivity.
Qed.

Lemma MoveInv_start (s : App.t) (x0 y0 : number) (uid : string) (w : Widget.t) :
  distinctIds (App.items s) ->
  hitTest x0 y0 (App.items s) = Some (IWidget w) ->
  App.mode s = select ->
  MoveInv w x0 y0 (handleMouseDown s x0 y0 false uid) /\
  App.lastPos (handleMouseDown s x0 y0 false uid) = Point.mk x0 y0.
Proof.
  intros Hids Hhit Hm.
  destruct (hitTest_In _ _ _ _ Hhit) as [Hin _].
  unfold handleMouseDown. rewrite Hhit. cbn. rewrite !Hm. cbn.
  split; [|reflexivity].
  constructor; cbn; try reflexivity; try assumption.
  - unfold distinctIds. rewrite map_ids_preserved; [exact Hids|].
    intros i. apply set_selected_id.
  - exists (Widget.with_selected w true). split; [|reflexivity].
    apply in_map_iff. exists (IWidget w). split; [|exact Hin].
    cbn. rewrite String.eqb_refl. reflexivity.
  - intros c' Hin' Hc'.
    rewrite (clicked_widget_after_select _ w c' Hids Hin Hin' Hc'). cbn.
    repeat split; lra.
Qed.


Lemma handleMouseDown_ids (s : App.t) (x y : number) (r : bool) (uid : string) :
  map item_id (App.items (handleMouseDown s x y r uid)) = map item_id (App.items s).
Proof.
  rewrite handleMouseDown_items.
  destruct (hitTest x y (App.items s)).
  - apply map_ids_preserved. intros i. apply set_selected_id.
  - destruct (ToolMode_eqb (App.mode s) select); [|reflexivity].
    apply map_ids_preserved. intros i. apply set_selected_id.
Qed.

Lemma handleMouseDown_mode (s : App.t) (x y : number) (r : bool) (uid : string) :
  App.mode (handleMouseDown s x y r uid) = App.mode s.
Proof.
  unfold handleMouseDown.
  destruct (hitTest x y (App.items s)) as [[st|c]|]; destruct r; cbn;
    repeat match goal with
           | |- context [if ?b then _ else _] => destruct b; cbn
           | |- context [match getSnapPoint ?a ?b ?c ?d with _ => _ end] =>
             destruct (getSnapPoint a b c d); cbn
           end;
    reflexivity.
Qed.

(** Outside eraser mode a pointer-move keeps the ids of the store. *)
Lemma handleMouseMove_ids (s : App.t) (x y : number) :
  App.mode s <> eraser ->
  map item_id (App.items (handleMouseMove s x y)) = map item_id (App.items s).
Proof.
  intros Hm. destruct (handleMouseMove_items s x y) as [E|[[f [Hf E]]|[_ [He _]]]].
  - rewrite E. reflexivity.
  - rewrite E. apply map_ids_preserved. intros i. apply updateSelected_id.
    intros w. symmetry. apply Hf.
  - contradiction.
Qed.

Lemma drag_ids_mode (samples : list Point.t) :
  forall s, App.mode s <> eraser ->
            map item_id (App.items (drag s samples)) = map item_id (App.items s).
Proof.
  induction samples as [|p samples IH]; intros s Hm; [reflexivity|].
  cbn [drag fold_left].
  fold (drag (handleMouseMove s (Point.x p) (Point.y p)) samples).
  rewrite IH.
  - apply handleMouseMove_ids. exact Hm.
  - destruct (handleMouseMove_control s (Point.x p) (Point.y p)) as [H _].
    rewrite H. exact Hm.
Qed.

(** In exact arithmetic the offsets of a move drag telescope: after a left
    pointer-down in select mode that hits the widget [w] and any
    pointer-move samples, the widget with the id of [w] is translated by
    the vector from the pointer-down position to the last sample, at the
    angle it had; no item was added or removed. *)
Theorem move_drag_translates :
  forall (s : App.t) (x0 y0 : number) (uid : string) (w : Widget.t)
         (samples : list Point.t),
    distinctIds (App.items s) ->
    hitTest x0 y0 (App.items s) = Some (IWidget w) ->
    Widget.id w <> EmptyString ->
    App.mode s = select ->
    let sn := drag (handleMouseDown s x0 y0 false uid) samples in
    let p := lastSample (Point.mk x0 y0) samples in
    map item_id (App.items sn) = map item_id (App.items s) /\
    (exists c, In (IWidget c) (App.items sn) /\ Widget.id c = Widget.id w) /\
    (forall c, In (IWidget c) (App.items sn) -> Widget.id c = Widget.id w ->
       Widget.x c = Widget.x w + (Point.x p - x0) /\
       Widget.y c = Widget.y w + (Point.y p - y0) /\
       Widget.angle c = Widget.angle w).
Proof.
  intros s x0 y0 uid w samples Hids Hhit Hne Hm sn p.
  destruct (MoveInv_start s x0 y0 uid w Hids Hhit Hm) as [H0 Hl0].
  pose proof (MoveInv_drag w x0 y0 samples Hne _ H0) as Hn.
  pose proof (MoveInv_lastPos w x0 y0 samples Hne _ H0) as Hl.
  rewrite Hl0 in Hl. fold sn in Hn, Hl. fold p in Hl.
  split; [|split].
  - unfold sn. rewrite drag_ids_mode; [apply handleMouseDown_ids|].
    rewrite handleMouseDown_mode, Hm. discriminate.
  - destruct Hn. assumption.
  - intros c Hin Hc. destruct Hn as [_ _ _ _ _ _ Hplace].
    rewrite <- Hl. apply Hplace; assumption.
Qed.

Lemma demoRuler_hit_at_origin :
  hitTest 0 0 [IWidget demoRuler] = Some (IWidget demoRuler).
Proof.
  apply (hitTest_last 0 0 []). unfold hitPred; cbn.
  rewrite hypot_0_0. apply ltb_true. lra.
Qed.

Lemma move_drag_translates_witness :
  let s := App.with_items (App.init None) [IWidget demoRuler] in
  let sn := drag (handleMouseDown s 0 0 false "u")
                 [Point.mk 10 20; Point.mk 30 5] in
  exists c, In (IWidget c) (App.items sn) /\
            Widget.x c = Widget.x demoRuler + (30 - 0) /\
            Widget.y c = Widget.y demoRuler + (5 - 0) /\
            Widget.angle c = Widget.angle demoRuler.
Proof.
  destruct (move_drag_translates
              (App.with_items (App.init None) [IWidget demoRuler]) 0 0 "u"
              demoRuler [Point.mk 10 20; Point.mk 30 5])
    as [_ [[c [Hin Hc]] Hp]].
  - repeat constructor. intros [].
  - exact demoRuler_hit_at_origin.
  - discriminate.
  - reflexivity.
  - exists c. split; [exact Hin | exact (Hp c Hin Hc)].
Defined.

Lemma walk_telescopes (samples : list Point.t) :
  forall last pos : Point.t,
    walk last samples pos
    = Point.mk (Point.x pos + (Point.x (lastSample last samples) - Point.x last))
               (Point.y pos + (Point.y (lastSample last samples) - Point.y last)).
Proof.
  unfold lastSample.
  induction samples as [|p rest IH]; intros last pos.
  - cbn. destruct pos as [px py]; cbn. unfold number in *.
    f_equal; lra.
  - cbn [walk]. rewrite IH. cbn [Point.x Point.y].
    replace (List.last (p :: rest) last) with (List.last rest p)
      by (symmetry; apply last_cons_default).
    unfold number in *. f_equal; lra.
Qed.

(** X1.  A move drag: a left pointer-down in select mode that hits the
    widget [w], followed by any pointer-move samples.  After the samples
    the store has the ids it had, in their order, and the widget with the
    id of [w] has the angle it had and sits where the samples have walked
    it: every sample in turn has added its offset from the sample before
    (from the pointer-down position for the first).  When the coordinates
    of the widget and of the pointer are on the half-unit grid, where these
    sums are exact also in the arithmetic of the running code, the place is
    the place of [w] plus the vector from the pointer-down position to the
    last sample. *)
Theorem move_drag_running_sum :
  forall (s : App.t) (x0 y0 : number) (uid : string) (w : Widget.t)
         (samples : list Point.t),
    distinctIds (App.items s) ->
    hitTest x0 y0 (App.items s) = Some (IWidget w) ->
    Widget.id w <> EmptyString ->
    App.mode s = select ->
    let sn := drag (handleMouseDown s x0 y0 false uid) samples in
    let p := lastSample (Point.mk x0 y0) samples in
    map item_id (App.items sn) = map item_id (App.items s) /\
    (exists c, In (IWidget c) (App.items sn) /\ Widget.id c = Widget.id w) /\
    (forall c, In (IWidget c) (App.items sn) -> Widget.id c = Widget.id w ->
       Point.mk (Widget.x c) (Widget.y c)
       = walk (Point.mk x0 y0) samples (Point.mk (Widget.x w) (Widget.y w)) /\
       Widget.angle c = Widget.angle w /\
       (onGrid (Widget.x w) -> onGrid x0 ->
        Forall (fun q => onGrid (Point.x q)) samples ->
        Widget.x c = Widget.x w + (Point.x p - x0)) /\
       (onGrid (Widget.y w) -> onGrid y0 ->
        Forall (fun q => onGrid (Point.y q)) samples ->
        Widget.y c = Widget.y w + (Point.y p - y0))).
Proof.
  intros s x0 y0 uid w samples Hids Hhit Hne Hm sn p.
  destruct (move_drag_translates s x0 y0 uid w samples Hids Hhit Hne Hm)
    as [Hmap [Hex Hpl]].
  split; [exact Hmap|]. split; [exact Hex|].
  intros c Hin Hc. destruct (Hpl c Hin Hc) as [Hx [Hy Ha]].
  fold p in Hx, Hy.
  split; [|split; [exact Ha|split; intros _ _ _; assumption]].
  rewrite walk_telescopes. cbn [Point.x Point.y]. fold p.
  rewrite Hx, Hy. reflexivity.
Qed.

Lemma onGrid_IZR (k : Z) : (Z.abs k <= 2 ^ 49)%Z -> onGrid (IZR k).
Proof.
  intros H. exists (2 * k)%Z. split.
  - rewrite mult_IZR. unfold number. lra.
  - lia.
Qed.

Lemma move_drag_running_sum_witness :
  let s := App.with_items (App.init None) [IWidget demoRuler] in
  let sn := drag (handleMouseDown s 0 0 false "u")
                 [Point.mk 10 20; Point.mk 30 5] in
  exists c, In (IWidget c) (App.items sn) /\
            Point.mk (Widget.x c) (Widget.y c)
            = walk (Point.mk 0 0) [Point.mk 10 20; Point.mk 30 5]
                   (Point.mk (Widget.x demoRuler) (Widget.y demoRuler)) /\
            Widget.angle c = Widget.angle demoRuler /\
            Widget.x c = Widget.x demoRuler + (30 - 0).
Proof.
  destruct (move_drag_running_sum
              (App.with_items (App.init None) [IWidget demoRuler]) 0 0 "u"
              demoRuler [Point.mk 10 20; Point.mk 30 5])
    as [_ [[c [Hin Hc]] Hp]].
  - repeat constructor. intros [].
  - exact demoRuler_hit_at_origin.
  - discriminate.
  - reflexivity.
  - exists c. split; [exact Hin|].
    destruct (Hp c Hin Hc) as [Hw [Ha [Hx _]]].
    split; [exact Hw|]. split; [exact Ha|].
    apply Hx.
    + apply (onGrid_IZR 0). cbn. lia.
    + apply (onGrid_IZR 0). cbn. lia.
    + repeat constructor; cbn [Point.x];
        [apply (onGrid_IZR 10) | apply (onGrid_IZR 30)]; cbn; lia.
Defined.



(** ** Wheel and pointer-up *)

Lemma sign_opp (d : number) : sign (- d) = - sign d.
Proof.
  unfold sign.
  destruct (Rlt_dec 0 d), (Rlt_dec d 0), (Rlt_dec 0 (- d)), (Rlt_dec (- d) 0);
    lra.
Qed.

Lemma sign_values (d : number) : sign d = 1 \/ sign d = -1 \/ sign d = 0.
Proof.
  unfold sign. destruct (Rlt_dec 0 d); [left; reflexivity|].
  destruct (Rlt_dec d 0); [right; left | right; right]; reflexivity.
Qed.

Lemma with_items_same (s : App.t) : App.with_items s (App.items s) = s.
Proof. destruct s; reflexivity. Qed.

Lemma with_items_twice (s : App.t) (l1 l2 : list CanvasItem) :
  App.with_items (App.with_items s l1) l2 = App.with_items s l2.
Proof. reflexivity. Qed.

Lemma handleWheel_items (s : App.t) (d : number) :
  truthy_string (App.selectedItemId s) = true ->
  handleWheel s d
  = App.with_items s (map (wheelItem (App.selectedItemId s) d) (App.items s)).
Proof.
  intros Ht. unfold handleWheel. rewrite Ht. f_equal.
  apply map_ext. intros [st|w]; cbn.
  - rewrite andb_false_r. reflexivity.
  - rewrite andb_true_r. destruct (id_is _ _); [|reflexivity].
    rewrite num_or_zero_default.
    replace (Widget.angle w + sign d * 5) with (Widget.angle w + 5 * sign d) by ring.
    reflexivity.
Qed.

Lemma wheelItem_undo (sel : option string) (d : number) (i : CanvasItem) :
  wheelItem sel (- d) (wheelItem sel d i) = i.
Proof.
  destruct i as [st|w]; [reflexivity|].
  unfold wheelItem. destruct (id_is sel (IWidget w)) eqn:Hid; [|rewrite Hid; reflexivity].
  assert (Hid' : id_is sel (IWidget (Widget.with_angle w (Widget.angle w + 5 * sign d)))
                 = true) by exact Hid.
  rewrite Hid'. destruct w. unfold Widget.with_angle; cbn.
  rewrite sign_opp. apply f_equal.
  unfold number in *.
  replace (angle + 5 * sign d + 5 * - sign d) with angle by lra.
  reflexivity.
Qed.

(** X3.  The wheel.  With no selection ([selectedItemId] null or empty) a
    wheel event changes nothing.  With a selection it turns every widget
    that carries the selected id by +5, -5 or 0 degrees, after the sign of
    [deltaY] and whatever its size, and leaves strokes, other items and the
    rest of the state alone.  When the angles of the widgets that carry the
    selected id are on the half-unit grid, where adding and taking away 5
    is exact also in the arithmetic of the running code, a tick the other
    way restores the state. *)
Theorem wheel_turns_selection_and_undoes :
  forall (s : App.t) (d : number),
    (truthy_string (App.selectedItemId s) = false -> handleWheel s d = s) /\
    (truthy_string (App.selectedItemId s) = true ->
     handleWheel s d
     = App.with_items s (map (wheelItem (App.selectedItemId s) d) (App.items s))) /\
    (5 * sign d = 5 \/ 5 * sign d = -5 \/ 5 * sign d = 0) /\
    ((forall w, In (IWidget w) (App.items s) ->
                id_is (App.selectedItemId s) (IWidget w) = true ->
                onGrid (Widget.angle w)) ->
     handleWheel (handleWheel s d) (- d) = s).
Proof.
  intros s d. split; [|split; [|split]].
  - intros H. unfold handleWheel. rewrite H. reflexivity.
  - apply handleWheel_items.
  - destruct (sign_values d) as [H|[H|H]]; rewrite H; lra.
  - intros _. destruct (truthy_string (App.selectedItemId s)) eqn:Ht.
    + rewrite (handleWheel_items s d Ht).
      rewrite handleWheel_items by exact Ht.
      cbn [App.items App.with_items App.selectedItemId].
      rewrite with_items_twice, map_map.
      rewrite (map_ext
                 (fun x => wheelItem (App.selectedItemId s) (- d)
                             (wheelItem (App.selectedItemId s) d x))
                 (fun i => i)) by (intros i; apply wheelItem_undo).
      rewrite map_id. apply with_items_same.
    + unfold handleWheel. rewrite Ht. cbn. rewrite Ht. reflexivity.
Qed.

(** X4.  Pointer-up is idempotent: once it has run, running it again (the
    canvas also calls it on mouse-leave) changes nothing; and after it the
    state is never in a drag: not dragging, no drag kind, no locked
    pivot. *)
Theorem handleMouseUp_idempotent :
  forall s : App.t,
    handleMouseUp (handleMouseUp s) = handleMouseUp s /\
    App.isDragging (handleMouseUp s) = false /\
    App.dragType (handleMouseUp s) = None /\
    App.compassPivot (handleMouseUp s) = None.
Proof.
  intros s. unfold handleMouseUp.
  destruct (App.currentStroke s) as [cur|] eqn:Hc;
    destruct (App.dragType s) as [[| |]|] eqn:Hd; cbn;
    destruct (App.mode s) eqn:Hm; cbn; rewrite ?Hc, ?Hm; cbn;
    repeat split; reflexivity.
Qed.

(** ** Pen gesture *)

Lemma snapItem_set_selected (x y t : number) (b : bool) (i : CanvasItem) :
  snapItem x y (set_selected b i) t = snapItem x y i t.
Proof. destruct i; reflexivity. Qed.

Lemma getSnapPoint_map_selected (x y t : number) (f : CanvasItem -> bool)
  (l : list CanvasItem) :
  getSnapPoint x y (map (fun i => set_selected (f i) i) l) t = getSnapPoint x y l t.
Proof.
  induction l as [|a l IH]; [reflexivity|].
  cbn. rewrite snapItem_set_selected, IH. reflexivity.
Qed.

Lemma handleMouseDown_snap_view (s : App.t) (x0 y0 : number) (r : bool)
  (uid : string) :
  forall x y t,
    getSnapPoint x y (App.items (handleMouseDown s x0 y0 r uid)) t
    = getSnapPoint x y (App.items s) t.
Proof.
  intros x y t. rewrite handleMouseDown_items.
  destruct (hitTest x0 y0 (App.items s)) as [clicked|].
  - apply (getSnapPoint_map_selected x y t
             (fun i => String.eqb (item_id i) (item_id clicked))).
  - destruct (ToolMode_eqb (App.mode s) select); [|reflexivity].
    apply (getSnapPoint_map_selected x y t (fun _ => false)).
Qed.

(** Pointer-down with the left button in pen mode. *)
Lemma handleMouseDown_pen (s : App.t) (x0 y0 : number) (uid : string) :
  App.mode s = pen ->
  handleMouseDown s x0 y0 false uid =
  let p := penPoint s (Point.mk x0 y0) in
  let s1 := match hitTest x0 y0 (App.items s) with
            | Some clicked =>
              App.with_items (App.with_selectedItemId s (Some (item_id clicked)))
                (map (fun i => set_selected
                                 (String.eqb (item_id i) (item_id clicked)) i)
                     (App.items s))
            | None => s
            end in
  App.with_isDragging
    (App.with_lastPos
       (App.with_dragType
          (App.with_currentStroke s1 (Some (freshStroke s uid p))) None) p)
    true.
Proof.
  intros Hm. unfold handleMouseDown, penPoint. rewrite Hm.
  cbn [negb andb ToolMode_eqb Point.x Point.y].
  destruct (hitTest x0 y0 (App.items s)) as [clicked|]; cbn; rewrite ?Hm; cbn;
    destruct (App.snap s); cbn;
    try destruct (getSnapPoint x0 y0 (App.items s) default_threshold) as [[qx qy]|];
    reflexivity.
Qed.

Lemma PenInv_start (s : App.t) (x0 y0 : number) (uid : string) :
  App.mode s = pen ->
  PenInv s uid [Point.mk x0 y0] (handleMouseDown s x0 y0 false uid).
Proof.
  intros Hm. constructor.
  - rewrite (handleMouseDown_pen s x0 y0 uid Hm). reflexivity.
  - rewrite (handleMouseDown_pen s x0 y0 uid Hm). reflexivity.
  - rewrite handleMouseDown_mode. exact Hm.
  - rewrite (handleMouseDown_pen s x0 y0 uid Hm). cbn.
    destruct (hitTest x0 y0 (App.items s)); reflexivity.
  - apply handleMouseDown_snap_view.
  - rewrite (handleMouseDown_pen s x0 y0 uid Hm). reflexivity.
Qed.

Lemma handleMouseMove_pen (st : App.t) (x y : number) (cur : Stroke.t) :
  App.isDragging st = true -> App.dragType st = None -> App.mode st = pen ->
  App.currentStroke st = Some cur ->
  handleMouseMove st x y =
  let p := penPoint st (Point.mk x y) in
  App.with_lastPos
    (App.with_currentStroke st
       (Some (Stroke.with_points cur (Stroke.points cur ++ [p])))) p.
Proof.
  intros Hd Ht Hm Hc. unfold handleMouseMove, penPoint.
  rewrite Hd, Ht, Hm, Hc. cbn.
  destruct (App.snap st); cbn;
    try destruct (getSnapPoint x y (App.items st) default_threshold) as [[qx qy]|];
    cbn; rewrite ?Hc; reflexivity.
Qed.

Lemma PenInv_step (s : App.t) (uid : string) (seen : list Point.t) (st : App.t)
  (p : Point.t) :
  PenInv s uid seen st ->
  PenInv s uid (seen ++ [p]) (handleMouseMove st (Point.x p) (Point.y p)).
Proof.
  intros [Hd Ht Hm Hsn Hit Hc].
  rewrite (handleMouseMove_pen st _ _ _ Hd Ht Hm Hc).
  constructor; cbn; try assumption.
  rewrite map_app. cbn. do 3 f_equal.
  unfold penPoint. rewrite Hsn, Hit. destruct p; reflexivity.
Qed.

Lemma PenInv_drag (s : App.t) (uid : string) (samples : list Point.t) :
  forall (seen : list Point.t) (st : App.t),
    PenInv s uid seen st -> PenInv s uid (seen ++ samples) (drag st samples).
Proof.
  induction samples as [|p samples IH]; intros seen st Hinv.
  - rewrite app_nil_r. exact Hinv.
  - cbn [drag fold_left].
    fold (drag (handleMouseMove st (Point.x p) (Point.y p)) samples).
    replace (seen ++ p :: samples) with ((seen ++ [p]) ++ samples)
      by (rewrite <- app_assoc; reflexivity).
    apply IH. apply PenInv_step. exact Hinv.
Qed.

(** Along a pen gesture the store does not change. *)
Lemma pen_drag_items (s : App.t) (uid : string) (samples : list Point.t) :
  forall (seen : list Point.t) (st : App.t),
    PenInv s uid seen st -> App.items (drag st samples) = App.items st.
Proof.
  induction samples as [|p samples IH]; intros seen st Hinv; [reflexivity|].
  cbn [drag fold_left].
  fold (drag (handleMouseMove st (Point.x p) (Point.y p)) samples).
  rewrite (IH _ _ (PenInv_step s uid seen st p Hinv)).
  destruct Hinv as [Hd Ht Hm _ _ Hc].
  rewrite (handleMouseMove_pen st _ _ _ Hd Ht Hm Hc). reflexivity.
Qed.

(** X5.  A pen gesture: in pen mode, a left pointer-down at [(x0, y0)], any
    pointer-move samples, then pointer-up.  The gesture appends exactly one
    stroke to the store and empties the slot.  The stroke carries the id
    from [uuidv4], the colour, width and style of the toolbar, and one point
    per cursor position, in order: the snap point of the position when
    snapping is on and an instrument edge is in reach (edges as they were at
    pointer-down), the position itself otherwise.  The store is otherwise
    what pointer-down left (only selection flags may have changed). *)
Theorem pen_gesture_appends_stroke :
  forall (s : App.t) (x0 y0 : number) (uid : string) (samples : list Point.t),
    App.mode s = pen ->
    let s0 := handleMouseDown s x0 y0 false uid in
    let sn := handleMouseUp (drag s0 samples) in
    App.items sn
    = App.items s0
      ++ [IStroke (Stroke.mk uid (map (penPoint s) (Point.mk x0 y0 :: samples))
                             (App.color s) (App.width s)
                             (Some (App.strokeStyle s)) None None)] /\
    App.currentStroke sn = None /\
    map item_id (App.items s0) = map item_id (App.items s) /\
    (App.snap s = false ->
     map (penPoint s) (Point.mk x0 y0 :: samples) = Point.mk x0 y0 :: samples).
Proof.
  intros s x0 y0 uid samples Hm s0 sn.
  pose proof (PenInv_start s x0 y0 uid Hm) as H0. fold s0 in H0.
  pose proof (PenInv_drag s uid samples _ _ H0) as Hn.
  pose proof (pen_drag_items s uid samples _ _ H0) as Hi.
  destruct Hn as [Hd Ht Hmn _ _ Hc].
  assert (Hraw : App.snap s = false ->
                 map (penPoint s) (Point.mk x0 y0 :: samples)
                 = Point.mk x0 y0 :: samples).
  { intros Hs.
    transitivity (map (fun p : Point.t => p) (Point.mk x0 y0 :: samples));
      [|apply map_id].
    apply map_ext. intros p. unfold penPoint. rewrite Hs. reflexivity. }
  split; [|split; [|split; [apply handleMouseDown_ids | exact Hraw]]].
  - unfold sn, handleMouseUp. rewrite Hc, Ht, Hmn. cbn. rewrite Hi. reflexivity.
  - unfold sn, handleMouseUp. rewrite Hc, Ht, Hmn. reflexivity.
Qed.

Lemma pen_gesture_appends_stroke_witness :
  App.currentStroke
    (handleMouseUp
       (drag (handleMouseDown (App.with_mode (App.init None) pen) 1 2 false "s1")
             [Point.mk 3 4; Point.mk 5 6])) = None.
Proof.
  apply (pen_gesture_appends_stroke (App.with_mode (App.init None) pen) 1 2 "s1"
           [Point.mk 3 4; Point.mk 5 6]).
  reflexivity.
Defined.

(** ** Ids and selection along a run *)

(** X6.  Ids stay distinct: along any run of events from the first render
    in which [uuidv4] returns fresh ids, no two items of the store carry the
    same id (the stroke that pointer-up appends included). *)
Theorem ids_distinct_along_run :
  forall (cv : option Canvas.t) (es : list Event),
    freshRun (App.init cv) es ->
    distinctIds (App.items (run (App.init cv) es)).
Proof.
  intros cv es Hf. apply (run_distinctIds es (App.init cv) Hf).
  - intros cur Hcur. discriminate.
  - constructor.
Qed.

Lemma ids_distinct_along_run_witness :
  distinctIds
    (App.items (run (App.init None)
                    [SetMode pen; MouseDown 1 2 false "s1"; MouseMove 3 4;
                     MouseUp; AddWidget Ruler "r"; AddWidget Text "t"])).
Proof.
  apply (ids_distinct_along_run None).
  cbn. repeat split; try tauto; try (intros; discriminate);
    intros H; repeat (destruct H as [H|H]; [discriminate|]); exact H.
Defined.

Lemma handleMouseDown_currentStroke_plain (s : App.t) (x y : number) (r : bool)
  (uid : string) :
  App.currentStroke (handleMouseDown s x y r uid) = App.currentStroke s \/
  exists cur, App.currentStroke (handleMouseDown s x y r uid) = Some cur /\
              Stroke.selected cur = None.
Proof.
  unfold handleMouseDown.
  destruct (hitTest x y (App.items s)) as [[st|c]|]; destruct r; cbn;
    repeat match goal with
           | |- context [WidgetType_eqb ?a Compass] =>
             destruct (WidgetType_eqb a Compass); cbn
           | |- context [ToolMode_eqb (App.mode s) ?m] =>
             destruct (ToolMode_eqb (App.mode s) m); cbn
           | |- context [if App.snap s then _ else _] => destruct (App.snap s); cbn
           | |- context [match getSnapPoint ?a ?b ?c ?d with _ => _ end] =>
             destruct (getSnapPoint a b c d); cbn
           end;
    try (left; reflexivity); right; eexists; split; reflexivity.
Qed.

Lemma handleMouseMove_selection (s : App.t) (x y : number) :
  App.selectedItemId (handleMouseMove s x y) = App.selectedItemId s /\
  (App.items (handleMouseMove s x y) = App.items s \/
   (exists f,
       (forall w, Widget.id (f w) = Widget.id w /\
                  Widget.selected (f w) = Widget.selected w) /\
       App.items (handleMouseMove s x y)
       = map (updateSelected (App.selectedItemId s) f) (App.items s)) \/
   App.items (handleMouseMove s x y) = filter (eraserKeeps x y) (App.items s)).
Proof.
  unfold handleMouseMove.
  destruct (App.isDragging s); cbn [negb]; [|split; [|left]; reflexivity].
  destruct (is_drag (App.dragType s) compass_arc && truthy_string (App.selectedItemId s)
            && isSome (App.compassPivot s)).
  { destruct (App.compassPivot s) as [pivot|]; [|split; [|left]; reflexivity].
    split.
    - destruct (find (id_is (App.selectedItemId s)) (App.items s)) as [[st|cur]|];
        reflexivity.
    - right; left. eexists. split; [|
        destruct (find (id_is (App.selectedItemId s)) (App.items s)) as [[st|cur]|];
        cbn; reflexivity].
      intros w. split; reflexivity. }
  destruct (is_drag (App.dragType s) rotate && truthy_string (App.selectedItemId s)).
  { split; [reflexivity|]. right; left. eexists. split; [|cbn; reflexivity].
    intros w. split; reflexivity. }
  destruct (ToolMode_eqb (App.mode s) pen && isSome (App.currentStroke s)).
  { destruct (App.snap s); cbn;
      [destruct (getSnapPoint x y (App.items s) default_threshold)|];
      (split; [|left]; reflexivity). }
  destruct (is_drag (App.dragType s) move && truthy_string (App.selectedItemId s)).
  { split; [reflexivity|]. right; left. eexists. split; [|cbn; reflexivity].
    intros w. split; reflexivity. }
  destruct (ToolMode_eqb (App.mode s) eraser); split; try reflexivity;
    [right; right | left]; reflexivity.
Qed.

Lemma handleMouseUp_selectedItemId (s : App.t) :
  App.selectedItemId (handleMouseUp s) = App.selectedItemId s.
Proof.
  unfold handleMouseUp. destruct (App.currentStroke s); [|reflexivity].
  destruct (is_drag (App.dragType s) compass_arc); [reflexivity|].
  destruct (ToolMode_eqb (App.mode s) pen); reflexivity.
Qed.

Lemma in_mapi_from {A B : Type} (f : A -> nat -> B) (l : list A) (b : B) :
  forall n, In b (mapi_from f n l) ->
            exists a k, nth_error l k = Some a /\ b = f a (n + k)%nat.
Proof.
  induction l as [|a l IH]; intros n Hin; [destruct Hin|].
  cbn in Hin. destruct Hin as [<-|Hin].
  - exists a, 0%nat. rewrite Nat.add_0_r. split; reflexivity.
  - destruct (IH (S n) Hin) as [a' [k [Hk ->]]].
    exists a', (S k). split; [exact Hk|]. f_equal. lia.
Qed.

Lemma is_selected_set_visible (b : bool) (i : CanvasItem) :
  is_selected (set_visible b i) = is_selected i.
Proof. destruct i; reflexivity. Qed.

Lemma is_selected_updateSelected (sel : option string) (f : Widget.t -> Widget.t)
  (i : CanvasItem) :
  (forall w, Widget.id (f w) = Widget.id w /\
             Widget.selected (f w) = Widget.selected w) ->
  is_selected (updateSelected sel f i) = is_selected i /\
  item_id (updateSelected sel f i) = item_id i.
Proof.
  intros Hf. unfold updateSelected. destruct (id_is sel i); [|split; reflexivity].
  destruct i as [st|w]; [split; reflexivity|].
  destruct (Hf w) as [Hid Hs]. unfold is_selected; cbn. rewrite Hid, Hs.
  split; reflexivity.
Qed.

(** The instrument tools leave ref and flags in agreement, whatever they
    were before. *)
Lemma addWidget_selection (s : App.t) (t : WidgetType) (uid : string) :
  forall i, In i (App.items (addWidget s t uid)) -> is_selected i = true ->
            App.selectedItemId (addWidget s t uid) = Some (item_id i).
Proof.
  intros i. unfold addWidget.
  destruct (if isSingleton t
            then findIndex (fun j => ItemType_eqb (item_type j) (TWidget t))
                           (App.items s)
            else None) as [idx|] eqn:Hidx.
  - destruct (isSingleton t); [|discriminate].
    destruct (findIndex_Some _ _ _ Hidx) as [existing [Hn _]]. rewrite Hn.
    cbv zeta. intros Hin Hsel.
    assert (Hin' : In i (mapi (fun j idx' =>
                                 if Nat.eqb idx' idx
                                 then set_selected (is_hidden existing)
                                        (set_visible (is_hidden existing) j)
                                 else set_selected false j) (App.items s))).
    { destruct (is_hidden existing); [exact Hin|].
      destruct (id_is _ existing); exact Hin. }
    clear Hin. unfold mapi in Hin'. apply in_mapi_from in Hin'.
    destruct Hin' as [a [k [Hk ->]]]. cbn [Nat.add] in Hsel |- *.
    destruct (Nat.eqb_spec k idx) as [E|Hne].
    + rewrite E, Hn in Hk. inversion Hk; subst a.
      rewrite is_selected_set in Hsel. rewrite Hsel. cbn.
      rewrite set_selected_id, set_visible_id. reflexivity.
    + rewrite is_selected_set in Hsel. discriminate.
  - cbn. intros Hin Hsel. apply in_app_or in Hin. destruct Hin as [Hin|[<-|[]]].
    + apply in_map_iff in Hin. destruct Hin as [j [<- _]].
      rewrite is_selected_set in Hsel. discriminate.
    + reflexivity.
Qed.

Lemma step_selConsistent (s : App.t) (e : Event) :
  noInjection e = true -> selConsistent s -> selConsistent (step s e).
Proof.
  intros He [Hsel Hcur].
  pose proof (step_currentStroke_other s e) as Hother.
  destruct e as [x y r uid|x y| |d|t uid|id|id|id| |uid src w h|uid src w h
                |m|c w st|b|b|w h]; cbn [step] in *; try discriminate.
  - (* pointer-down *)
    split.
    + intros i. rewrite handleMouseDown_items, handleMouseDown_selectedItemId.
      destruct (hitTest x y (App.items s)) as [clicked|].
      * intros Hin Hs. apply in_map_iff in Hin. destruct Hin as [j [<- _]].
        rewrite is_selected_set in Hs. apply String.eqb_eq in Hs.
        rewrite set_selected_id, Hs. reflexivity.
      * destruct (ToolMode_eqb (App.mode s) select); [|apply Hsel].
        intros Hin Hs. apply in_map_iff in Hin. destruct Hin as [j [<- _]].
        rewrite is_selected_set in Hs. discriminate.
    + intros cur Hc.
      destruct (handleMouseDown_currentStroke_plain s x y r uid)
        as [E|[cur' [E Hn]]]; rewrite E in Hc.
      * exact (Hcur cur Hc).
      * inversion Hc; subst. exact Hn.
  - (* pointer-move *)
    destruct (handleMouseMove_selection s x y) as [Eid Hitems]. split.
    + intros i. rewrite Eid. destruct Hitems as [E|[[f [Hf E]]|E]]; rewrite E.
      * apply Hsel.
      * intros Hin Hs. apply in_map_iff in Hin. destruct Hin as [j [<- Hj]].
        destruct (is_selected_updateSelected (App.selectedItemId s) f j Hf) as [E1 E2].
        rewrite E1 in Hs. rewrite E2. exact (Hsel j Hj Hs).
      * intros Hin. apply filter_In in Hin. apply Hsel. apply Hin.
    + intros cur Hc.
      destruct (handleMouseMove_currentStroke s x y) as [E|[p E]]; rewrite E in Hc.
      * exact (Hcur cur Hc).
      * destruct (App.currentStroke s) as [c0|] eqn:Hc0; [|discriminate].
        cbn in Hc. inversion Hc; subst. cbn. exact (Hcur c0 eq_refl).
  - (* pointer-up *)
    unfold selConsistent. rewrite handleMouseUp_selectedItemId.
    destruct (handleMouseUp_cases s) as [[cur [Hc [_ [Ei En]]]]|[_ [Ei Ec]]].
    + split.
      * intros i. rewrite Ei. intros Hin Hs. apply in_app_or in Hin.
        destruct Hin as [Hin|[<-|[]]]; [exact (Hsel i Hin Hs)|].
        unfold is_selected in Hs; cbn in Hs. rewrite (Hcur cur Hc) in Hs.
        discriminate.
      * intros c0. rewrite En. discriminate.
    + split.
      * rewrite Ei. exact Hsel.
      * rewrite Ec. exact Hcur.
  - (* wheel *)
    split; [|rewrite Hother; exact Hcur].
    unfold handleWheel. destruct (truthy_string (App.selectedItemId s)); [|exact Hsel].
    cbn. intros i Hin Hs. apply in_map_iff in Hin. destruct Hin as [j [<- Hj]].
    destruct (id_is (App.selectedItemId s) j && negb (is_stroke j)).
    + destruct j as [st|w0]; [exact (Hsel _ Hj Hs)|]. exact (Hsel (IWidget w0) Hj Hs).
    + exact (Hsel j Hj Hs).
  - (* tools *)
    split; [apply addWidget_selection | rewrite Hother; exact Hcur].
  - (* visibility *)
    split; [|exact Hcur]. cbn. intros i Hin Hs.
    apply in_map_iff in Hin. destruct Hin as [j [<- Hj]].
    destruct (String.eqb (item_id j) id).
    + rewrite is_selected_set_visible in Hs. rewrite set_visible_id.
      exact (Hsel j Hj Hs).
    + exact (Hsel j Hj Hs).
  - (* delete *)
    split; [|exact Hcur]. cbn. intros i Hin. apply filter_In in Hin.
    apply Hsel. apply Hin.
  - (* layer panel *)
    split; [|exact Hcur]. cbn. intros i Hin Hs.
    apply in_map_iff in Hin. destruct Hin as [j [<- _]].
    rewrite is_selected_set in Hs. apply String.eqb_eq in Hs.
    rewrite set_selected_id, Hs. reflexivity.
  - split; [intros i []|exact Hcur].
  - split; assumption.
  - split; assumption.
  - split; assumption.
  - split; assumption.
  - split; assumption.
Qed.

Lemma selectedCount_zero (l : list CanvasItem) :
  (forall i, In i l -> is_selected i = false) -> selectedCount l = 0%nat.
Proof.
  induction l as [|a l IH]; intros H; [reflexivity|].
  rewrite selectedCount_cons, (H a (or_introl eq_refl)), IH; [reflexivity|].
  intros i Hi. apply H. right. exact Hi.
Qed.

Lemma selectedCount_same_id (l : list CanvasItem) (c : string) :
  NoDup (map item_id l) ->
  (forall i, In i l -> is_selected i = true -> item_id i = c) ->
  (selectedCount l <= 1)%nat.
Proof.
  induction l as [|a l IH]; intros Hnd H; [cbn; lia|].
  cbn in Hnd. inversion Hnd as [|? ? Hnotin Hnd']; subst.
  rewrite selectedCount_cons. destruct (is_selected a) eqn:Ha.
  - rewrite selectedCount_zero; [lia|].
    intros i Hi. destruct (is_selected i) eqn:Hs; [|reflexivity].
    exfalso. apply Hnotin.
    rewrite (H a (or_introl eq_refl) Ha), <- (H i (or_intror Hi) Hs).
    apply in_map. exact Hi.
  - apply IH; [exact Hnd'|]. intros i Hi. apply H. right. exact Hi.
Qed.

Lemma run_selConsistent (es : list Event) :
  forall s : App.t,
    forallb noInjection es = true -> selConsistent s -> selConsistent (run s es).
Proof.
  induction es as [|e es IH]; intros s Hn Hc; [exact Hc|].
  cbn in Hn. apply andb_true_iff in Hn. destruct Hn as [He Hn].
  cbn [run fold_left]. apply IH; [exact Hn|]. apply step_selConsistent; assumption.
Qed.

(** X7.  Selection bookkeeping.  Along any run of events from the first
    render that contains no image injection (paste to canvas, diagram) and
    in which [uuidv4] returns fresh ids, the ref [selectedItemId] and the
    [selected] flags agree (every flagged item carries the selected id) and
    at most one item is flagged.  The image injections are the events that
    break both (claim C4). *)
Theorem selection_consistent_along_run :
  forall (cv : option Canvas.t) (es : list Event),
    forallb noInjection es = true ->
    freshRun (App.init cv) es ->
    let s := run (App.init cv) es in
    (forall i, In i (App.items s) -> is_selected i = true ->
               App.selectedItemId s = Some (item_id i)) /\
    (selectedCount (App.items s) <= 1)%nat.
Proof.
  intros cv es Hn Hf s.
  assert (Hc : selConsistent s).
  { apply run_selConsistent; [exact Hn|]. split; [intros i []|discriminate]. }
  split; [exact (proj1 Hc)|].
  assert (Hids : distinctIds (App.items s)).
  { apply (run_distinctIds es (App.init cv) Hf);
      [intros cur Hcur; discriminate | constructor]. }
  destruct (App.selectedItemId s) as [c|] eqn:Hsel.
  - apply (selectedCount_same_id _ c Hids). intros i Hi Hs.
    pose proof (proj1 Hc i Hi Hs) as E. rewrite Hsel in E. congruence.
  - rewrite selectedCount_zero; [lia|]. intros i Hi.
    destruct (is_selected i) eqn:Hs; [|reflexivity].
    pose proof (proj1 Hc i Hi Hs) as E. rewrite Hsel in E. discriminate.
Qed.

Lemma selection_consistent_along_run_witness :
  (selectedCount
     (App.items (run (App.init None)
                     [AddWidget Ruler "r"; AddWidget Compass "c";
                      SelectLayer "r"; Wheel 3%R; ToggleVisibility "c"]))
   <= 1)%nat.
Proof.
  apply (selection_consistent_along_run None
           [AddWidget Ruler "r"; AddWidget Compass "c";
            SelectLayer "r"; Wheel 3%R; ToggleVisibility "c"]).
  - reflexivity.
  - cbn. repeat split; try tauto; try (intros; discriminate);
      intros H; repeat (destruct H as [H|H]; [discriminate|]); exact H.
Defined.

(** ** Layer panel: visibility and delete *)

Lemma set_visible_back (b : bool) (i : CanvasItem) :
  item_visible i = Some b -> set_visible b (set_visible (negb b) i) = i.
Proof.
  destruct i as [st|w]; cbn; intros H.
  - destruct st; cbn in *. subst. reflexivity.
  - destruct w; cbn in *. subst. reflexivity.
Qed.

(** The first press of the eye button on an item without [visible] does not
    hide it. *)
Lemma toggleVisibility_undefined_stays_shown (s : App.t) (id : string)
  (i : CanvasItem) :
  In i (App.items s) -> item_id i = id -> item_visible i = None ->
  In (set_visible true i) (App.items (toggleVisibility s id)) /\
  is_hidden (set_visible true i) = false.
Proof.
  intros Hi E Hv. split; [|destruct i; reflexivity].
  cbn. apply in_map_iff. exists i. split; [|exact Hi].
  rewrite <- E, String.eqb_refl, Hv. reflexivity.
Qed.

Lemma toggleVisibility_twice (s : App.t) (id : string) :
  (forall i, In i (App.items s) -> item_id i = id -> item_visible i <> None) ->
  toggleVisibility (toggleVisibility s id) id = s.
Proof.
  intros Hdef. unfold toggleVisibility. cbn [App.items App.with_items].
  rewrite with_items_twice, map_map.
  transitivity (App.with_items s (App.items s)); [|apply with_items_same].
  f_equal.
  transitivity (map (fun i : CanvasItem => i) (App.items s)); [|apply map_id].
  apply map_ext_in. intros i Hi.
  destruct (String.eqb_spec (item_id i) id) as [E|NE].
  - rewrite set_visible_id.
    destruct (String.eqb_spec (item_id i) id) as [_|NE]; [|contradiction].
    destruct (item_visible i) as [b|] eqn:Hv; [|exfalso; exact (Hdef i Hi E Hv)].
    assert (Hv' : item_visible (set_visible (negb b) i) = Some (negb b))
      by (destruct i; reflexivity).
    rewrite Hv'. rewrite negb_involutive. apply set_visible_back. exact Hv.
  - destruct (String.eqb_spec (item_id i) id) as [E|_]; [contradiction|reflexivity].
Qed.

(** X8.  The eye button.  [toggleVisibility id] keeps the ids and the order
    of the store and touches only the items that carry [id], whose [visible]
    property alone it rewrites: an item whose [visible] is defined changes
    sides (hidden to shown, shown to hidden), while an item whose [visible]
    is undefined, which counts as shown, gets [visible = true] and so stays
    shown.  When every item with that id has [visible] defined, as the
    widgets that the handlers create do, toggling twice restores the state
    exactly. *)
Theorem toggleVisibility_involution :
  forall (s : App.t) (id : string),
    map item_id (App.items (toggleVisibility s id)) = map item_id (App.items s) /\
    (forall i, In i (App.items s) -> item_id i <> id ->
               In i (App.items (toggleVisibility s id))) /\
    (forall i, In i (App.items s) -> item_id i = id -> item_visible i <> None ->
               exists i', In i' (App.items (toggleVisibility s id)) /\
                          sameItem i i' /\ is_selected i' = is_selected i /\
                          is_hidden i' = negb (is_hidden i)) /\
    (forall i, In i (App.items s) -> item_id i = id -> item_visible i = None ->
               In (set_visible true i) (App.items (toggleVisibility s id)) /\
               is_hidden (set_visible true i) = false) /\
    ((forall i, In i (App.items s) -> item_id i = id -> item_visible i <> None) ->
     toggleVisibility (toggleVisibility s id) id = s).
Proof.
  intros s id. split; [|split; [|split; [|split]]].
  - cbn. apply map_ids_preserved. intros i.
    destruct (String.eqb (item_id i) id); [apply set_visible_id | reflexivity].
  - intros i Hi NE. cbn. apply in_map_iff. exists i. split; [|exact Hi].
    destruct (String.eqb_spec (item_id i) id); [contradiction | reflexivity].
  - intros i Hi E Hdef. eexists. split.
    + cbn. apply in_map_iff. exists i. split; [reflexivity | exact Hi].
    + rewrite <- E, String.eqb_refl.
      split; [apply sameItem_set_visible|].
      split; [apply is_selected_set_visible|].
      destruct (item_visible i) as [b|] eqn:Hv; [|contradiction Hdef; reflexivity].
      destruct i as [st|w]; unfold is_hidden; cbn in *; rewrite Hv;
        destruct b; reflexivity.
  - apply toggleVisibility_undefined_stays_shown.
  - apply toggleVisibility_twice.
Qed.

Lemma toggleVisibility_involution_witness :
  toggleVisibility (toggleVisibility boardWithRuler "ruler-1") "ruler-1"
  = boardWithRuler.
Proof.
  apply (toggleVisibility_involution boardWithRuler "ruler-1").
  intros i [<-|[]] _. discriminate.
Defined.

Lemma wheelItem_absent (sel : string) (d : number) (l : list CanvasItem) :
  ~ In sel (map item_id l) -> map (wheelItem (Some sel) d) l = l.
Proof.
  intros Hn. transitivity (map (fun i : CanvasItem => i) l); [|apply map_id].
  apply map_ext_in. intros i Hi. destruct i as [st|w]; [reflexivity|].
  unfold wheelItem. destruct (id_is (Some sel) (IWidget w)) eqn:Hid; [|reflexivity].
  exfalso. apply Hn. apply id_is_widget in Hid. rewrite <- Hid.
  apply (in_map item_id _ (IWidget w)). exact Hi.
Qed.

(** X9.  Delete.  [deleteItem id] removes every item that carries [id] and
    nothing else, and is idempotent.  It does not touch the
    selection ref: deleting the selected item leaves [selectedItemId]
    pointing at an id that is no longer in the store, and a wheel event
    after that changes nothing. *)
Theorem deleteItem_removes_id :
  forall (s : App.t) (id : string),
    let s' := deleteItem s id in
    (forall i, In i (App.items s') <-> In i (App.items s) /\ item_id i <> id) /\
    ~ In id (map item_id (App.items s')) /\
    deleteItem s' id = s' /\
    App.selectedItemId s' = App.selectedItemId s /\
    (App.selectedItemId s = Some id -> forall d, handleWheel s' d = s').
Proof.
  intros s id s'. split; [|split; [|split; [|split]]].
  - intros i. cbn. rewrite filter_In.
    destruct (String.eqb_spec (item_id i) id); cbn; intuition congruence.
  - cbn. intros H. apply in_map_iff in H. destruct H as [i [E Hi]].
    apply filter_In in Hi. destruct Hi as [_ Hi].
    rewrite E, String.eqb_refl in Hi. discriminate.
  - unfold s', deleteItem. cbn [App.items App.with_items].
    rewrite with_items_twice. f_equal.
    induction (App.items s) as [|a l IH]; [reflexivity|].
    cbn. destruct (negb (String.eqb (item_id a) id)) eqn:Ha; cbn;
      [rewrite Ha, IH; reflexivity | exact IH].
  - reflexivity.
  - intros Hsel d.
    assert (Hn : ~ In id (map item_id (App.items s'))).
    { cbn. intros H. apply in_map_iff in H. destruct H as [i [E Hi]].
      apply filter_In in Hi. destruct Hi as [_ Hi].
      rewrite E, String.eqb_refl in Hi. discriminate. }
    destruct (truthy_string (App.selectedItemId s')) eqn:Ht.
    + rewrite (handleWheel_items s' d Ht).
      change (App.selectedItemId s') with (App.selectedItemId s). rewrite Hsel.
      rewrite (wheelItem_absent id d _ Hn). apply with_items_same.
    + unfold handleWheel. rewrite Ht. reflexivity.
Qed.

(** ** Toolbar highlight *)

Lemma countType_zero_none (t : WidgetType) (l : list CanvasItem) :
  countType t l = 0%nat ->
  forall i, In i l -> ItemType_eqb (item_type i) (TWidget t) = false.
Proof.
  induction l as [|a l IH]; intros H i Hi; [destruct Hi|].
  rewrite countType_cons in H.
  destruct (ItemType_eqb (item_type a) (TWidget t)) eqn:Ha; [discriminate|].
  destruct Hi as [<-|Hi]; [exact Ha | apply IH; [exact H | exact Hi]].
Qed.

Lemma toolVisible_none (t : WidgetType) (l : list CanvasItem) :
  countType t l = 0%nat ->
  existsb (fun i => ItemType_eqb (item_type i) (TWidget t) && negb (is_hidden i)) l
  = false.
Proof.
  intros H. destruct (existsb _ l) eqn:E; [|reflexivity].
  apply existsb_exists in E. destruct E as [i [Hi Hp]].
  rewrite (countType_zero_none t l H i Hi) in Hp. discriminate.
Qed.

Lemma toolVisible_single (t : WidgetType) (l : list CanvasItem) :
  forall (idx : nat) (ex : CanvasItem),
    (countType t l <= 1)%nat ->
    findIndex (fun i => ItemType_eqb (item_type i) (TWidget t)) l = Some idx ->
    nth_error l idx = Some ex ->
    existsb (fun i => ItemType_eqb (item_type i) (TWidget t) && negb (is_hidden i)) l
    = negb (is_hidden ex).
Proof.
  induction l as [|a l IH]; intros idx ex Hc Hf Hn; [discriminate|].
  rewrite countType_cons in Hc. cbn in Hf |- *.
  destruct (ItemType_eqb (item_type a) (TWidget t)) eqn:Ha.
  - inversion Hf; subst idx. cbn in Hn. inversion Hn; subst ex.
    rewrite toolVisible_none by lia. cbn. apply orb_false_r.
  - destruct (findIndex _ l) as [k|] eqn:Hk; [|discriminate].
    inversion Hf; subst idx. cbn in Hn |- *. apply (IH k ex); [lia | reflexivity | exact Hn].
Qed.

Lemma findIndex_mapi_from (t : WidgetType) (f : CanvasItem -> nat -> CanvasItem)
  (l : list CanvasItem) :
  (forall i n, item_type (f i n) = item_type i) ->
  forall n,
    findIndex (fun i => ItemType_eqb (item_type i) (TWidget t)) (mapi_from f n l)
    = findIndex (fun i => ItemType_eqb (item_type i) (TWidget t)) l.
Proof.
  intros Hf. induction l as [|a l IH]; intros n; [reflexivity|].
  cbn. rewrite Hf, IH. reflexivity.
Qed.

Lemma countType_mapi_from (t : WidgetType) (f : CanvasItem -> nat -> CanvasItem)
  (l : list CanvasItem) :
  (forall i n, item_type (f i n) = item_type i) ->
  forall n, countType t (mapi_from f n l) = countType t l.
Proof.
  intros Hf. induction l as [|a l IH]; intros n; [reflexivity|].
  cbn [mapi_from]. rewrite !countType_cons, Hf, IH. reflexivity.
Qed.

Lemma item_type_set_selected (b : bool) (i : CanvasItem) :
  item_type (set_selected b i) = item_type i.
Proof. destruct i; reflexivity. Qed.

Lemma item_type_set_visible (b : bool) (i : CanvasItem) :
  item_type (set_visible b i) = item_type i.
Proof. destruct i; reflexivity. Qed.

(** X10.  The toolbar highlight follows the tool: for an instrument type of
    which the store holds at most one widget, each invocation of its tool
    flips [isToolVisible] for that type (off to on when the widget is
    created or shown again, on to off when it is hidden). *)
Theorem isToolVisible_flips :
  forall (s : App.t) (t : WidgetType) (uid : string),
    isSingleton t = true ->
    (countType t (App.items s) <= 1)%nat ->
    isToolVisible (addWidget s t uid) t = negb (isToolVisible s t).
Proof.
  intros s t uid Hs Hc. unfold isToolVisible, addWidget.
  rewrite Hs.
  destruct (findIndex (fun i => ItemType_eqb (item_type i) (TWidget t)) (App.items s))
    as [idx|] eqn:Hidx.
  - destruct (findIndex_Some _ _ _ Hidx) as [existing [Hn Hty]]. rewrite Hn.
    rewrite (toolVisible_single t (App.items s) idx existing Hc Hidx Hn).
    set (f := fun (i : CanvasItem) (idx' : nat) =>
                if Nat.eqb idx' idx
                then set_selected (is_hidden existing)
                       (set_visible (is_hidden existing) i)
                else set_selected false i).
    assert (Hf : forall i n, item_type (f i n) = item_type i).
    { intros i n. unfold f. destruct (Nat.eqb n idx).
      - rewrite item_type_set_selected. apply item_type_set_visible.
      - apply item_type_set_selected. }
    assert (E : existsb (fun i => ItemType_eqb (item_type i) (TWidget t)
                                  && negb (is_hidden i))
                        (mapi f (App.items s))
                = negb (negb (is_hidden existing))).
    { rewrite <- (is_hidden_toggled (is_hidden existing) existing).
      apply (toolVisible_single t _ idx).
      - unfold mapi. rewrite countType_mapi_from by exact Hf. exact Hc.
      - unfold mapi. rewrite findIndex_mapi_from by exact Hf. exact Hidx.
      - unfold mapi. rewrite nth_error_mapi_from, Hn. cbn. unfold f.
        rewrite Nat.eqb_refl. reflexivity. }
    cbv zeta. fold f.
    destruct (is_hidden existing); [exact E|].
    destruct (id_is _ existing); exact E.
  - assert (H0 : countType t (App.items s) = 0%nat).
    { unfold countType. pose proof (findIndex_None _ _ Hidx) as Hnone.
      clear -Hnone. induction (App.items s) as [|a l IH]; [reflexivity|].
      cbn. rewrite (Hnone a (or_introl eq_refl)). apply IH.
      intros b Hb. apply Hnone. right. exact Hb. }
    rewrite (toolVisible_none t _ H0). cbn.
    rewrite existsb_app. cbn.
    assert (Et : WidgetType_eqb t t = true) by (destruct t; reflexivity).
    rewrite Et. cbn. apply orb_true_r.
Qed.

Lemma isToolVisible_flips_witness :
  isToolVisible (addWidget boardWithRuler Ruler "ruler-2") Ruler
  = negb (isToolVisible boardWithRuler Ruler).
Proof.
  apply (isToolVisible_flips boardWithRuler Ruler "ruler-2").
  - reflexivity.
  - cbn. lia.
Defined.

(** ** Snap resolver: set-square, idempotence, who may snap *)

Lemma cursorLocal_toWorld (r : Widget.t) (lx ly : number) :
  cursorLocal r (Point.x (toWorld r lx ly)) (Point.y (toWorld r lx ly))
  = Point.mk lx ly.
Proof. unfold cursorLocal, toWorld. apply worldToLocal_inverse. Qed.

Lemma snapItem_triangle_unfold (r : Widget.t) (x y t : number) :
  Widget.type r = Triangle -> is_hidden (IWidget r) = false ->
  snapItem x y (IWidget r) t =
  let lx := Point.x (cursorLocal r x y) in
  let ly := Point.y (cursorLocal r x y) in
  let vertical :=
    if geb ly (0 - t) && leb ly (rulerHeight r + t)
    then if ltb (Rabs lx) t then Some (toWorld r 0 ly) else None
    else None in
  if geb lx (0 - t) && leb lx (rulerWidth r + t)
  then if ltb (Rabs ly) t then Some (toWorld r lx 0) else vertical
  else vertical.
Proof. intros Hty Hvis. unfold snapItem. rewrite Hvis, Hty. reflexivity. Qed.

Lemma onHorizontalLeg_test (r : Widget.t) (x y t : number) :
  (geb (Point.x (cursorLocal r x y)) (0 - t)
   && leb (Point.x (cursorLocal r x y)) (rulerWidth r + t) = true /\
   ltb (Rabs (Point.y (cursorLocal r x y))) t = true)
  <-> onHorizontalLeg r x y t.
Proof.
  rewrite andb_true_iff, geb_true, leb_true, ltb_true. unfold onHorizontalLeg. tauto.
Qed.

Lemma onVerticalLeg_test (r : Widget.t) (x y t : number) :
  (geb (Point.y (cursorLocal r x y)) (0 - t)
   && leb (Point.y (cursorLocal r x y)) (rulerHeight r + t) = true /\
   ltb (Rabs (Point.x (cursorLocal r x y))) t = true)
  <-> onVerticalLeg r x y t.
Proof.
  rewrite andb_true_iff, geb_true, leb_true, ltb_true. unfold onVerticalLeg. tauto.
Qed.

Lemma snapItem_triangle_cases (r : Widget.t) (x y t : number) :
  Widget.type r = Triangle -> is_hidden (IWidget r) = false ->
  (onHorizontalLeg r x y t /\
   snapItem x y (IWidget r) t = Some (toWorld r (Point.x (cursorLocal r x y)) 0)) \/
  (~ onHorizontalLeg r x y t /\ onVerticalLeg r x y t /\
   snapItem x y (IWidget r) t = Some (toWorld r 0 (Point.y (cursorLocal r x y)))) \/
  (~ onHorizontalLeg r x y t /\ ~ onVerticalLeg r x y t /\
   snapItem x y (IWidget r) t = None).
Proof.
  intros Hty Hvis. rewrite (snapItem_triangle_unfold r x y t Hty Hvis). cbv zeta.
  pose proof (onHorizontalLeg_test r x y t) as HH.
  pose proof (onVerticalLeg_test r x y t) as HV.
  destruct (geb (Point.x (cursorLocal r x y)) (0 - t)
            && leb (Point.x (cursorLocal r x y)) (rulerWidth r + t)) eqn:E1;
    destruct (ltb (Rabs (Point.y (cursorLocal r x y))) t) eqn:E2;
    try (left; split; [apply HH; split; reflexivity | reflexivity]);
    (assert (NH : ~ onHorizontalLeg r x y t)
       by (intros H; apply HH in H; destruct H; discriminate));
    destruct (geb (Point.y (cursorLocal r x y)) (0 - t)
              && leb (Point.y (cursorLocal r x y)) (rulerHeight r + t)) eqn:E3;
    destruct (ltb (Rabs (Point.x (cursorLocal r x y))) t) eqn:E4;
    try (right; left; split; [exact NH|];
         split; [apply HV; split; reflexivity | reflexivity]);
    right; right; (split; [exact NH|]); (split; [|reflexivity]);
    intros H; apply HV in H; destruct H; discriminate.
Qed.

(** X11.  Snapping to the set-square.  For a set-square that is not hidden,
    the loop body of [getSnapPoint] returns a point exactly when the cursor
    is on the horizontal leg or on the vertical leg (local frame, right
    angle at the origin, margin and reach [t]).  The horizontal leg is
    tried first.  The point returned is the cursor with its off-axis local
    coordinate set to exactly 0: in the local frame it is [(lx, 0)] on the
    horizontal leg and [(0, ly)] on the vertical one. *)
Theorem triangle_snap_legs :
  forall (r : Widget.t) (x y t : number),
    Widget.type r = Triangle ->
    is_hidden (IWidget r) = false ->
    let lx := Point.x (cursorLocal r x y) in
    let ly := Point.y (cursorLocal r x y) in
    ((exists p, snapItem x y (IWidget r) t = Some p) <->
     onHorizontalLeg r x y t \/ onVerticalLeg r x y t) /\
    (onHorizontalLeg r x y t ->
     snapItem x y (IWidget r) t = Some (toWorld r lx 0)) /\
    (~ onHorizontalLeg r x y t -> onVerticalLeg r x y t ->
     snapItem x y (IWidget r) t = Some (toWorld r 0 ly)) /\
    (forall p, snapItem x y (IWidget r) t = Some p ->
       cursorLocal r (Point.x p) (Point.y p) = Point.mk lx 0 \/
       cursorLocal r (Point.x p) (Point.y p) = Point.mk 0 ly).
Proof.
  intros r x y t Hty Hvis lx ly.
  destruct (snapItem_triangle_cases r x y t Hty Hvis)
    as [[HH E]|[[NH [HV E]]|[NH [NV E]]]]; rewrite E.
  - split; [|split; [|split]].
    + split; [intros _; left; exact HH | intros _; eexists; reflexivity].
    + intros _. reflexivity.
    + intros H. contradiction.
    + intros p Hp. inversion Hp; subst p. left. apply cursorLocal_toWorld.
  - split; [|split; [|split]].
    + split; [intros _; right; exact HV | intros _; eexists; reflexivity].
    + intros H. contradiction.
    + intros _ _. reflexivity.
    + intros p Hp. inversion Hp; subst p. right. apply cursorLocal_toWorld.
  - split; [|split; [|split]].
    + split; [intros [p Hp]; discriminate | intros [H|H]; contradiction].
    + intros H. contradiction.
    + intros _ H. contradiction.
    + intros p Hp. discriminate.
Qed.

Lemma cursorLocal_unrotated (r : Widget.t) (x y : number) :
  Widget.angle r = 0 ->
  cursorLocal r x y = Point.mk (x - Widget.x r) (y - Widget.y r).
Proof.
  intros Ha. unfold cursorLocal, worldToLocal. rewrite Ha.
  rewrite deg2rad_0, Ropp_0, cos_0, sin_0. f_equal; ring.
Qed.

Lemma triangle_snap_legs_witness :
  snapItem 50 5 (IWidget demoTriangle) 20
  = Some (toWorld demoTriangle (Point.x (cursorLocal demoTriangle 50 5)) 0).
Proof.
  apply (triangle_snap_legs demoTriangle 50 5 20).
  - reflexivity.
  - reflexivity.
  - unfold onHorizontalLeg.
    rewrite (cursorLocal_unrotated demoTriangle 50 5 eq_refl). cbn [Point.x Point.y].
    assert (W : rulerWidth demoTriangle = 200).
    { unfold rulerWidth, demoTriangle; cbn. apply num_or_nonzero.
      unfold TOOL_DEFAULTS.TRIANGLE_width. lra. }
    rewrite W. unfold demoTriangle; cbn.
    split; [lra|]. rewrite Rabs_right; lra.
Defined.

(** X12.  Snapping is idempotent on one instrument: the point returned for
    a ruler whose height is at least the threshold, or for a set-square of
    non-negative width, is returned again when it is itself taken as the
    cursor.  (On a ruler thinner than the threshold a point of the bottom
    edge is within reach of the top edge, which is tried first.) *)
Theorem snap_point_is_fixed :
  forall (r : Widget.t) (x y t : number) (p : Point.t),
    is_hidden (IWidget r) = false ->
    (Widget.type r = Ruler /\ t <= Rabs (rulerHeight r)) \/
    (Widget.type r = Triangle /\ 0 <= rulerWidth r) ->
    snapItem x y (IWidget r) t = Some p ->
    snapItem (Point.x p) (Point.y p) (IWidget r) t = Some p.
Proof.
  intros r x y t p Hvis [[Hty Hh]|[Hty Hw]] Hp.
  - destruct (snapItem_ruler_hit r x y t Hty Hvis p Hp)
      as [Hs [[Ht ->]|[Hnt [Hb ->]]]].
    + assert (Hpos : 0 < t)
        by (unfold nearTop in Ht; pose proof (Rabs_pos (Point.y (cursorLocal r x y)
                                                     - - rulerHeight r / 2)); lra).
      rewrite snapItem_ruler_top; try assumption.
      * rewrite cursorLocal_toWorld. reflexivity.
      * unfold inSpan in *. rewrite cursorLocal_toWorld. exact Hs.
      * unfold nearTop. rewrite cursorLocal_toWorld. cbn [Point.y].
        rewrite Rminus_diag, Rabs_R0. exact Hpos.
    + assert (Hpos : 0 < t)
        by (unfold nearBottom in Hb; pose proof (Rabs_pos (Point.y (cursorLocal r x y)
                                                        - rulerHeight r / 2)); lra).
      rewrite snapItem_ruler_bottom; try assumption.
      * rewrite cursorLocal_toWorld. reflexivity.
      * unfold inSpan in *. rewrite cursorLocal_toWorld. exact Hs.
      * unfold nearTop. rewrite cursorLocal_toWorld. cbn [Point.y].
        replace (rulerHeight r / 2 - - rulerHeight r / 2) with (rulerHeight r) by lra.
        lra.
      * unfold nearBottom. rewrite cursorLocal_toWorld. cbn [Point.y].
        rewrite Rminus_diag, Rabs_R0. exact Hpos.
  - destruct (snapItem_triangle_cases r x y t Hty Hvis)
      as [[HH E]|[[NH [HV E]]|[NH [NV E]]]]; rewrite E in Hp; [| |discriminate].
    + assert (Ep : toWorld r (Point.x (cursorLocal r x y)) 0 = p) by congruence.
      subst p. clear Hp.
      set (q := toWorld r (Point.x (cursorLocal r x y)) 0).
      assert (Lq : cursorLocal r (Point.x q) (Point.y q)
                   = Point.mk (Point.x (cursorLocal r x y)) 0)
        by apply cursorLocal_toWorld.
      assert (Hpos : 0 < t)
        by (destruct HH as [_ HH];
            pose proof (Rabs_pos (Point.y (cursorLocal r x y))); lra).
      destruct (snapItem_triangle_cases r (Point.x q) (Point.y q) t Hty Hvis)
        as [[_ E']|[[NH' _]|[NH' _]]].
      * rewrite E', Lq. reflexivity.
      * exfalso. apply NH'. unfold onHorizontalLeg in *. rewrite Lq.
        cbn [Point.x Point.y]. split; [apply HH|]. rewrite Rabs_R0. exact Hpos.
      * exfalso. apply NH'. unfold onHorizontalLeg in *. rewrite Lq.
        cbn [Point.x Point.y]. split; [apply HH|]. rewrite Rabs_R0. exact Hpos.
    + assert (Ep : toWorld r 0 (Point.y (cursorLocal r x y)) = p) by congruence.
      subst p. clear Hp.
      set (q := toWorld r 0 (Point.y (cursorLocal r x y))).
      assert (Lq : cursorLocal r (Point.x q) (Point.y q)
                   = Point.mk 0 (Point.y (cursorLocal r x y)))
        by apply cursorLocal_toWorld.
      assert (Hpos : 0 < t)
        by (destruct HV as [_ HV];
            pose proof (Rabs_pos (Point.x (cursorLocal r x y))); lra).
      assert (Hly : t <= Rabs (Point.y (cursorLocal r x y))).
      { destruct (Rlt_dec (Rabs (Point.y (cursorLocal r x y))) t) as [Hlt|Hge];
          [|lra].
        exfalso. apply NH. split; [|exact Hlt].
        destruct HV as [_ HV]. apply Rabs_def2 in HV. lra. }
      destruct (snapItem_triangle_cases r (Point.x q) (Point.y q) t Hty Hvis)
        as [[HH' _]|[[_ [_ E']]|[_ [NV' _]]]].
      * exfalso. destruct HH' as [_ HH']. rewrite Lq in HH'.
        cbn [Point.y] in HH'. lra.
      * rewrite E', Lq. reflexivity.
      * exfalso. apply NV'. unfold onVerticalLeg in *. rewrite Lq.
        cbn [Point.x Point.y]. split; [apply HV|]. rewrite Rabs_R0. exact Hpos.
Qed.

Lemma demoRuler_snap_top :
  snapItem 0 (-25) (IWidget demoRuler) 20
  = Some (toWorld demoRuler (Point.x (cursorLocal demoRuler 0 (-25)))
                  (- rulerHeight demoRuler / 2)).
Proof.
  apply (snapItem_ruler_top demoRuler 0 (-25) 20 eq_refl eq_refl).
  - unfold inSpan. rewrite demoRuler_cursorLocal, demoRuler_width.
    cbn [Point.x]. lra.
  - unfold nearTop. rewrite demoRuler_cursorLocal, demoRuler_height.
    cbn [Point.y].
    match goal with |- Rabs ?e < _ => replace e with 0 by lra end.
    rewrite Rabs_R0. lra.
Qed.

Lemma snap_point_is_fixed_witness :
  let p := toWorld demoRuler (Point.x (cursorLocal demoRuler 0 (-25)))
                   (- rulerHeight demoRuler / 2) in
  snapItem (Point.x p) (Point.y p) (IWidget demoRuler) 20 = Some p.
Proof.
  apply (snap_point_is_fixed demoRuler 0 (-25) 20).
  - reflexivity.
  - left. split; [reflexivity|]. rewrite demoRuler_height.
    rewrite Rabs_right; lra.
  - exact demoRuler_snap_top.
Defined.

Lemma snapItem_nonpositive_threshold (x y t : number) (i : CanvasItem) :
  t <= 0 -> snapItem x y i t = None.
Proof.
  intros Ht.
  assert (N : forall e, ltb (Rabs e) t = false).
  { intros e. apply ltb_false. pose proof (Rabs_pos e). lra. }
  unfold snapItem. destruct (is_hidden i); [reflexivity|].
  destruct i as [st|w]; [reflexivity|].
  destruct (Widget.type w); try reflexivity; cbv zeta; rewrite !N;
    repeat match goal with
           | |- context [if ?b then _ else _] => destruct b
           end; reflexivity.
Qed.

Lemma snapItem_other_types (x y t : number) (i : CanvasItem) :
  item_type i <> TWidget Ruler -> item_type i <> TWidget Triangle ->
  snapItem x y i t = None.
Proof.
  intros H1 H2. unfold snapItem. destruct (is_hidden i); [reflexivity|].
  destruct i as [st|w]; [reflexivity|]. cbn in H1, H2.
  destruct (Widget.type w); try reflexivity; contradiction.
Qed.

(** X13.  Who may snap.  Strokes, protractors, compasses, images and texts
    never give a snap point, nor does a hidden item: a store without a shown
    ruler or set-square never snaps.  With a threshold that is zero or
    negative nothing snaps at all.  Otherwise the first item of the store
    that qualifies decides, whatever comes after it. *)
Theorem getSnapPoint_who_snaps :
  forall (x y t : number) (items : list CanvasItem),
    ((forall i, In i items ->
        is_hidden i = true \/
        (item_type i <> TWidget Ruler /\ item_type i <> TWidget Triangle)) ->
     getSnapPoint x y items t = None) /\
    (t <= 0 -> getSnapPoint x y items t = None) /\
    (forall before i after p,
        items = before ++ i :: after ->
        (forall j, In j before -> snapItem x y j t = None) ->
        snapItem x y i t = Some p ->
        getSnapPoint x y items t = Some p) /\
    (forall p, getSnapPoint x y items t = Some p ->
       exists before i after,
         items = before ++ i :: after /\
         (forall j, In j before -> snapItem x y j t = None) /\
         snapItem x y i t = Some p /\
         is_hidden i = false /\
         (item_type i = TWidget Ruler \/ item_type i = TWidget Triangle)).
Proof.
  intros x y t items. split; [|split; [|split]].
  - intros H. apply getSnapPoint_none. intros i Hi.
    destruct (H i Hi) as [Hh|[H1 H2]];
      [apply snapItem_hidden; exact Hh | apply snapItem_other_types; assumption].
  - intros Ht. apply getSnapPoint_none. intros i _.
    apply snapItem_nonpositive_threshold. exact Ht.
  - intros before i after p -> Hb Hp.
    rewrite getSnapPoint_skip by exact Hb. cbn. rewrite Hp. reflexivity.
  - induction items as [|a l IH]; intros p Hp; [discriminate|].
    cbn in Hp. destruct (snapItem x y a t) as [q|] eqn:Ha.
    + inversion Hp; subst q. exists [], a, l.
      split; [reflexivity|]. split; [intros j []|]. split; [exact Ha|].
      destruct (is_hidden a) eqn:Hh;
        [rewrite (snapItem_hidden x y t a Hh) in Ha; discriminate|].
      split; [reflexivity|].
      destruct a as [st|w]; [unfold snapItem in Ha; rewrite Hh in Ha; discriminate|].
      unfold snapItem in Ha. rewrite Hh in Ha. cbn.
      destruct (Widget.type w); try discriminate; [left | right]; reflexivity.
    + destruct (IH p Hp) as [before [i [after [-> [Hb [Hi [Hh Hty]]]]]]].
      exists (a :: before), i, after. split; [reflexivity|].
      split; [|split; [exact Hi | split; assumption]].
      intros j [<-|Hj]; [exact Ha | apply Hb; exact Hj].
Qed.

(** ** Eraser drags *)

Lemma filter_filter {A : Type} (f g : A -> bool) (l : list A) :
  filter g (filter f l) = filter (fun a => f a && g a) l.
Proof.
  induction l as [|a l IH]; [reflexivity|].
  cbn. destruct (f a); cbn; [destruct (g a)|]; rewrite IH; reflexivity.
Qed.

Lemma filter_all_true {A : Type} (l : list A) : filter (fun _ => true) l = l.
Proof. induction l as [|a l IH]; [reflexivity | cbn; rewrite IH; reflexivity]. Qed.

Lemma eraser_drag_items (samples : list Point.t) :
  forall st : App.t,
    App.mode st = eraser -> App.isDragging st = true -> App.dragType st = None ->
    App.items (drag st samples) = filter (survives samples) (App.items st).
Proof.
  induction samples as [|p samples IH]; intros st Hm Hd Ht.
  - cbn. symmetry. apply filter_all_true.
  - cbn [drag fold_left].
    fold (drag (handleMouseMove st (Point.x p) (Point.y p)) samples).
    destruct (handleMouseMove_control st (Point.x p) (Point.y p)) as [Hm' [Hd' Ht']].
    rewrite IH by congruence.
    rewrite (handleMouseMove_eraser st _ _ Hm Hd Ht), filter_filter.
    reflexivity.
Qed.

Lemma survives_same_samples (l1 l2 : list Point.t) (i : CanvasItem) :
  (forall p, In p l1 <-> In p l2) -> survives l1 i = survives l2 i.
Proof.
  intros H. unfold survives.
  destruct (forallb _ l1) eqn:E1, (forallb _ l2) eqn:E2; try reflexivity.
  - rewrite forallb_forall in E1. rewrite <- E2. symmetry. apply forallb_forall.
    intros p Hp. apply E1. apply H. exact Hp.
  - rewrite forallb_forall in E2. rewrite <- E1. apply forallb_forall.
    intros p Hp. apply E2. apply H. exact Hp.
Qed.

(** X15.  An eraser drag as a whole.  After a pointer-down in eraser mode
    and any samples, the store is what pointer-down left, filtered: the
    items that remain are those that every sample keeps, in their order.
    So the outcome depends on the set of cursor positions only, not on
    their order or repetition, and a stroke once erased does not come
    back. *)
Theorem eraser_drag_is_one_filter :
  forall (s : App.t) (x0 y0 : number) (r : bool) (uid : string)
         (samples samples' : list Point.t),
    App.mode s = eraser ->
    let s0 := handleMouseDown s x0 y0 r uid in
    App.items (drag s0 samples) = filter (survives samples) (App.items s0) /\
    (forall i, In i (App.items (drag s0 samples)) <->
               In i (App.items s0) /\
               forall p, In p samples -> ~ erasedAt (Point.x p) (Point.y p) i) /\
    ((forall p, In p samples <-> In p samples') ->
     App.items (drag s0 samples) = App.items (drag s0 samples')) /\
    App.items (drag s0 (samples ++ samples'))
    = filter (survives samples') (App.items (drag s0 samples)).
Proof.
  intros s x0 y0 r uid samples samples' Hm s0.
  destruct (handleMouseDown_eraser s x0 y0 r uid Hm) as [Hm0 [Hd0 Ht0]].
  fold s0 in Hm0, Hd0, Ht0.
  assert (E : forall l, App.items (drag s0 l) = filter (survives l) (App.items s0))
    by (intros l; apply eraser_drag_items; assumption).
  split; [apply E|]. split; [|split].
  - intros i. rewrite E, filter_In. unfold survives. rewrite forallb_forall.
    split; intros [Hi H]; (split; [exact Hi|]); intros p Hp.
    + intros He. apply eraserKeeps_spec in He. rewrite (H p Hp) in He. discriminate.
    + destruct (eraserKeeps (Point.x p) (Point.y p) i) eqn:K; [reflexivity|].
      exfalso. apply (H p Hp). apply eraserKeeps_spec. exact K.
  - intros H. rewrite !E. apply filter_ext. intros i.
    apply survives_same_samples. exact H.
  - rewrite !E, filter_filter. apply filter_ext. intros i.
    unfold survives. apply forallb_app.
Qed.

Lemma eraser_drag_is_one_filter_witness :
  App.items (drag (handleMouseDown eraserBoard 3 4 false "u")
                  [Point.mk 3 4; Point.mk 50 60])
  = App.items (drag (handleMouseDown eraserBoard 3 4 false "u")
                    [Point.mk 50 60; Point.mk 3 4; Point.mk 50 60]).
Proof.
  apply (eraser_drag_is_one_filter eraserBoard 3 4 false "u"
           [Point.mk 3 4; Point.mk 50 60]
           [Point.mk 50 60; Point.mk 3 4; Point.mk 50 60]).
  - reflexivity.
  - intros p. cbn. tauto.
Defined.

(** ** Renderer: strokes and grid *)

Lemma smoothCurve_all_curves (l : list Point.t) :
  filter isCurve (smoothCurve l) = smoothCurve l /\
  filter isSave (smoothCurve l) = [] /\ filter isRestore (smoothCurve l) = [] /\
  filter isMoveTo (smoothCurve l) = [] /\ filter isLineTo (smoothCurve l) = [].
Proof.
  induction l as [|p1 [|p2 l] IH]; try (repeat split; reflexivity).
  destruct IH as [H1 [H2 [H3 [H4 H5]]]].
  change (smoothCurve (p1 :: p2 :: l))
    with (QuadraticCurveTo (Point.x p1) (Point.y p1)
            ((Point.x p1 + Point.x p2) / 2) ((Point.y p1 + Point.y p2) / 2)
          :: smoothCurve (p2 :: l)).
  cbn [filter isCurve isSave isRestore isMoveTo isLineTo].
  rewrite H1, H2, H3, H4, H5. repeat split; reflexivity.
Qed.

Lemma length_smoothCurve (l : list Point.t) :
  List.length (smoothCurve l) = (List.length l - 1)%nat.
Proof.
  induction l as [|p1 [|p2 l] IH]; try reflexivity.
  change (smoothCurve (p1 :: p2 :: l))
    with (QuadraticCurveTo (Point.x p1) (Point.y p1)
            ((Point.x p1 + Point.x p2) / 2) ((Point.y p1 + Point.y p2) / 2)
          :: smoothCurve (p2 :: l)).
  cbn [List.length] in *. rewrite IH. lia.
Qed.

Lemma count_app (f : CanvasOp -> bool) (a b : list CanvasOp) :
  count f (a ++ b) = (count f a + count f b)%nat.
Proof. unfold count. rewrite filter_app, length_app. reflexivity. Qed.

(** X16.  How a stroke is drawn.  A stroke with fewer than two points
    issues no canvas call at all.  A stroke with [n >= 2] points is drawn,
    whatever its style, as one path between one [save] and one [restore]:
    one [moveTo], then [n - 2] quadratic curves, then one [lineTo]; the last
    three calls are the [lineTo] to the last point of the stroke, [stroke]
    and [restore]. *)
Theorem drawStroke_shape :
  forall st : Stroke.t,
    let n := List.length (Stroke.points st) in
    let ops := drawStroke st in
    ((n < 2)%nat -> ops = []) /\
    ((2 <= n)%nat ->
     count isSave ops = 1%nat /\ count isRestore ops = 1%nat /\
     count isMoveTo ops = 1%nat /\ count isLineTo ops = 1%nat /\
     count isCurve ops = (n - 2)%nat /\
     hd_error ops = Some Save /\
     exists front first,
       hd_error (Stroke.points st) = Some first /\
       let last := List.last (Stroke.points st) first in
       ops = front ++ [LineTo (Point.x last) (Point.y last); StrokePath; Restore]).
Proof.
  intros st n ops. unfold n, ops, drawStroke.
  destruct (Stroke.points st) as [|first [|second rest]] eqn:Hp.
  - split; [reflexivity | cbn; lia].
  - split; [reflexivity | cbn; lia].
  - split; [cbn; lia|]. intros _.
    destruct (smoothCurve_all_curves (second :: rest)) as [H1 [H2 [H3 [H4 H5]]]].
    assert (Hc : count isCurve (smoothCurve (second :: rest))
                 = List.length rest).
    { unfold count. rewrite H1, length_smoothCurve. cbn. lia. }
    assert (Hz : forall f, filter f (smoothCurve (second :: rest)) = [] ->
                           count f (smoothCurve (second :: rest)) = 0%nat)
      by (intros f E; unfold count; rewrite E; reflexivity).
    split; [|split; [|split; [|split; [|split; [|split]]]]].
    + rewrite !count_app, (Hz _ H2).
      destruct (Stroke.strokeStyle st) as [[| | |]|]; reflexivity.
    + rewrite !count_app, (Hz _ H3).
      destruct (Stroke.strokeStyle st) as [[| | |]|]; reflexivity.
    + rewrite !count_app, (Hz _ H4).
      destruct (Stroke.strokeStyle st) as [[| | |]|]; reflexivity.
    + rewrite !count_app, (Hz _ H5).
      destruct (Stroke.strokeStyle st) as [[| | |]|]; reflexivity.
    + rewrite !count_app, Hc.
      destruct (Stroke.strokeStyle st) as [[| | |]|]; cbn; lia.
    + reflexivity.
    + eexists. exists first. split; [reflexivity|]. cbv zeta.
      rewrite (last_cons_default (second :: rest) first first).
      rewrite !app_assoc. reflexivity.
Qed.

Lemma gridFrom_In (fuel : nat) :
  forall (v limit x : nat),
    (limit <= v + 50 * fuel)%nat ->
    (In x (gridFrom fuel v limit) <->
     exists j : nat, x = (v + 50 * j)%nat /\ (x < limit)%nat).
Proof.
  induction fuel as [|fuel IH]; intros v limit x Hf.
  - cbn. split; [intros [] | intros [j [-> H]]; lia].
  - cbn [gridFrom]. destruct (Nat.ltb_spec v limit) as [Hlt|Hge].
    + cbn [In]. rewrite (IH (v + 50)%nat limit x) by lia. split.
      * intros [<-|[j [-> H]]].
        -- exists 0%nat. split; lia.
        -- exists (S j). split; lia.
      * intros [[|j] [-> H]].
        -- left. lia.
        -- right. exists j. split; lia.
    + split; [intros [] | intros [j [-> H]]; lia].
Qed.

Lemma gridFrom_length (fuel : nat) :
  forall (v limit : nat),
    (limit <= v + 50 * fuel)%nat ->
    (limit <= v + 50 * List.length (gridFrom fuel v limit))%nat /\
    (v < limit -> v + 50 * List.length (gridFrom fuel v limit) < limit + 50)%nat.
Proof.
  induction fuel as [|fuel IH]; intros v limit Hf.
  - cbn. lia.
  - cbn [gridFrom]. destruct (Nat.ltb_spec v limit) as [Hlt|Hge].
    + cbn [List.length]. destruct (IH (v + 50)%nat limit) as [H1 H2]; [lia|].
      split; [lia|]. intros _.
      destruct (Nat.lt_ge_cases (v + 50) limit) as [Hl|Hg]; [specialize (H2 Hl); lia|].
      assert (E : gridFrom fuel (v + 50) limit = []).
      { destruct fuel; [reflexivity|]. cbn [gridFrom].
        destruct (Nat.ltb_spec (v + 50) limit); [lia | reflexivity]. }
      rewrite E. cbn. lia.
    + cbn. lia.
Qed.

Lemma gridFrom_more_fuel (fuel : nat) :
  forall (v limit extra : nat),
    (limit <= v + 50 * fuel)%nat ->
    gridFrom (fuel + extra) v limit = gridFrom fuel v limit.
Proof.
  induction fuel as [|fuel IH]; intros v limit extra Hf.
  - cbn [Nat.add]. destruct extra; [reflexivity|]. cbn [gridFrom].
    destruct (Nat.ltb_spec v limit); [lia | reflexivity].
  - cbn [Nat.add gridFrom]. destruct (Nat.ltb_spec v limit); [|reflexivity].
    rewrite IH by lia. reflexivity.
Qed.

(** X17.  The grid.  On a canvas of width [w] and height [h] the grid has
    one vertical line at every multiple of 50 below [w] and one horizontal
    line at every multiple of 50 below [h], and no other: the loops run to
    their end within the iteration bound of the model (more iterations give
    the same lines).  There are [ceil(w/50)] and [ceil(h/50)] of them, and
    [drawGrid] issues two style calls and four path calls per line. *)
Theorem grid_lines :
  forall (cv : Canvas.t),
    let w := Canvas.width cv in
    let h := Canvas.height cv in
    let xs := gridFrom w 0 w in
    let ys := gridFrom h 0 h in
    (forall x, In x xs <-> (x < w)%nat /\ exists j, x = (50 * j)%nat) /\
    (forall y, In y ys <-> (y < h)%nat /\ exists j, y = (50 * j)%nat) /\
    (forall extra, gridFrom (w + extra) 0 w = xs /\ gridFrom (h + extra) 0 h = ys) /\
    (w <= 50 * List.length xs < w + 50)%nat /\
    (h <= 50 * List.length ys < h + 50)%nat /\
    List.length (drawGrid cv)
    = (2 + 4 * (List.length xs + List.length ys))%nat.
Proof.
  intros cv w h xs ys.
  assert (Hin : forall n x, In x (gridFrom n 0 n) <->
                            (x < n)%nat /\ exists j, x = (50 * j)%nat).
  { intros n x. rewrite (gridFrom_In n 0 n x) by lia. cbn [Nat.add].
    split; [intros [j [E H]] | intros [H [j E]]]; eauto. }
  assert (Hlen : forall n, (n <= 50 * List.length (gridFrom n 0 n) < n + 50)%nat).
  { intros n. destruct (gridFrom_length n 0 n) as [H1 H2]; [lia|].
    destruct n as [|n]; [cbn; lia|]. specialize (H2 ltac:(lia)). lia. }
  split; [apply Hin|]. split; [apply Hin|]. split; [|split; [apply Hlen|split; [apply Hlen|]]].
  - intros extra. split; apply gridFrom_more_fuel; lia.
  - unfold drawGrid. fold w h xs ys.
    assert (L : forall (A : Type) (f : A -> list CanvasOp) (l : list A),
               (forall a, List.length (f a) = 4%nat) ->
               List.length (flat_map f l) = (4 * List.length l)%nat).
    { intros A f l Hf. induction l as [|a l IH]; [reflexivity|].
      cbn [flat_map]. rewrite length_app, Hf, IH. cbn [List.length]. lia. }
    cbn [app List.length]. rewrite length_app, !L by (intros; reflexivity). lia.
Qed.

(** ** Compass arc: the angle follows the pointer *)

Lemma handleMouseMove_compass_arc_delta (s : App.t) (x y : number) (cid : string)
  (pivot : Point.t) (cur : Widget.t) :
  App.isDragging s = true ->
  App.dragType s = Some compass_arc ->
  App.selectedItemId s = Some cid -> cid <> EmptyString ->
  App.compassPivot s = Some pivot ->
  find (id_is (Some cid)) (App.items s) = Some (IWidget cur) ->
  let deltaAngle := pointerAngle pivot (Point.mk x y)
                    - pointerAngle pivot (App.lastPos s) in
  handleMouseMove s x y =
  App.with_lastPos
    (App.with_currentStroke
       (App.with_items s
          (map (updateSelected (Some cid) (compassTurn pivot deltaAngle))
               (App.items s)))
       (appendPoint (compassPencil pivot deltaAngle cur) (App.currentStroke s)))
    (Point.mk x y).
Proof.
  intros Hd Ht Hs Hne Hp Hf.
  unfold handleMouseMove. rewrite Hd, Ht, Hs, Hp.
  cbn [negb is_drag DragType_eqb isSome andb].
  rewrite (truthy_string_Some cid Hne). cbn [andb]. rewrite Hf. reflexivity.
Qed.

Lemma ArcAngleInv_step (c0 : Widget.t) (p0 pivot : Point.t) (st : App.t)
  (x y : number) :
  Widget.id c0 <> EmptyString ->
  ArcAngleInv c0 p0 pivot st ->
  ArcAngleInv c0 p0 pivot (handleMouseMove st x y) /\
  App.lastPos (handleMouseMove st x y) = Point.mk x y.
Proof.
  intros Hne [Hd Ht Hs Hp Hids [c [Hin Hc]] Hangle].
  assert (Hf : find (id_is (Some (Widget.id c0))) (App.items st) = Some (IWidget c)).
  { rewrite <- Hc. apply (find_by_id (App.items st) (IWidget c)); assumption. }
  rewrite (handleMouseMove_compass_arc_delta st x y _ pivot c Hd Ht Hs Hne Hp Hf).
  split; [|reflexivity].
  constructor; cbn; try assumption.
  - unfold distinctIds. rewrite map_ids_preserved; [exact Hids|].
    intros i. apply updateSelected_id. intros w; reflexivity.
  - eexists. split.
    + apply in_map_updateSelected_mono; [exact Hin | apply id_is_widget; exact Hc].
    + exact Hc.
  - intros c' Hin' Hc'. apply in_map_updateSelected_widget in Hin'.
    destruct Hin' as [c1 [Hin1 [[Hid ->]|[Hid ->]]]].
    + destruct (Hangle c1 Hin1 Hc') as [Ha Hh]. cbn.
      rewrite Ha. split; [lra | exact Hh].
    + apply id_is_widget in Hc'. rewrite Hc' in Hid. discriminate.
Qed.

Lemma ArcAngleInv_drag (c0 : Widget.t) (p0 pivot : Point.t)
  (samples : list Point.t) :
  Widget.id c0 <> EmptyString ->
  forall st, ArcAngleInv c0 p0 pivot st ->
             ArcAngleInv c0 p0 pivot (drag st samples) /\
             App.lastPos (drag st samples) = lastSample (App.lastPos st) samples.
Proof.
  intros Hne. induction samples as [|p samples IH]; intros st Hinv;
    [split; [exact Hinv | reflexivity]|].
  cbn [drag fold_left].
  fold (drag (handleMouseMove st (Point.x p) (Point.y p)) samples).
  destruct (ArcAngleInv_step c0 p0 pivot st (Point.x p) (Point.y p) Hne Hinv)
    as [Hinv' Hl].
  destruct (IH _ Hinv') as [Hn Hln]. split; [exact Hn|].
  rewrite Hln, Hl. unfold lastSample. rewrite last_cons_default.
  destruct p; reflexivity.
Qed.

Lemma ArcAngleInv_start (s : App.t) (x y : number) (uid : string) (c : Widget.t) :
  distinctIds (App.items s) ->
  hitTest x y (App.items s) = Some (IWidget c) ->
  Widget.type c = Compass ->
  App.mode s <> eraser ->
  ArcAngleInv c (Point.mk x y) (CompassPoints.needle (getCompassPoints c))
              (handleMouseDown s x y true uid) /\
  App.lastPos (handleMouseDown s x y true uid) = Point.mk x y.
Proof.
  intros Hids Hhit Hty Hmode.
  destruct (hitTest_In _ _ _ _ Hhit) as [Hin _].
  unfold handleMouseDown. rewrite Hhit, Hty.
  cbn [WidgetType_eqb negb andb item_id].
  assert (Em : ToolMode_eqb (App.mode s) eraser = false)
    by (destruct (App.mode s); try reflexivity; contradiction).
  cbn. rewrite Em. split; [|reflexivity].
  constructor; cbn; try reflexivity.
  - unfold distinctIds. rewrite map_ids_preserved; [exact Hids|].
    intros i. apply set_selected_id.
  - exists (Widget.with_selected c true). split; [|reflexivity].
    apply in_map_iff. exists (IWidget c). split; [|exact Hin].
    cbn. rewrite String.eqb_refl. reflexivity.
  - intros c' Hin' Hc'.
    rewrite (clicked_widget_after_select _ c c' Hids Hin Hin' Hc'). cbn.
    split; [lra | reflexivity].
Qed.

(** In exact arithmetic the direction changes of a compass_arc drag
    telescope: the angle of the stored compass is its angle at pointer-down
    plus the direction of the last sample minus the direction of the
    pointer-down position, both seen from the locked needle, in degrees;
    the leg height is untouched. *)
Theorem compass_arc_angle_follows_pointer :
  forall (s : App.t) (x y : number) (uid : string) (c : Widget.t)
         (samples : list Point.t),
    distinctIds (App.items s) ->
    hitTest x y (App.items s) = Some (IWidget c) ->
    Widget.type c = Compass ->
    Widget.id c <> EmptyString ->
    App.mode s <> eraser ->
    let pivot := CompassPoints.needle (getCompassPoints c) in
    let sn := drag (handleMouseDown s x y true uid) samples in
    let p := lastSample (Point.mk x y) samples in
    forall c', In (IWidget c') (App.items sn) -> Widget.id c' = Widget.id c ->
      Widget.angle c'
      = Widget.angle c + (pointerAngle pivot p - pointerAngle pivot (Point.mk x y)) /\
      Widget.height c' = Widget.height c.
Proof.
  intros s x y uid c samples Hids Hhit Hty Hne Hmode pivot sn p.
  destruct (ArcAngleInv_start s x y uid c Hids Hhit Hty Hmode) as [H0 Hl0].
  destruct (ArcAngleInv_drag c (Point.mk x y) pivot samples Hne _ H0) as [Hn Hl].
  rewrite Hl0 in Hl. fold sn in Hn, Hl. fold p in Hl.
  intros c' Hin Hc. destruct Hn as [_ _ _ _ _ _ Hangle].
  rewrite <- Hl. apply Hangle; assumption.
Qed.

Lemma compass_arc_angle_follows_pointer_witness :
  let s := App.with_items (App.init None) [IWidget demoCompass] in
  let pivot := CompassPoints.needle (getCompassPoints demoCompass) in
  let sn := drag (handleMouseDown s 0 0 true "stroke-1")
                 [Point.mk 30 40; Point.mk 50 10] in
  exists c', In (IWidget c') (App.items sn) /\
    Widget.angle c'
    = Widget.angle demoCompass
      + (pointerAngle pivot (Point.mk 50 10) - pointerAngle pivot (Point.mk 0 0)).
Proof.
  intros s pivot sn.
  assert (Hhit : hitTest 0 0 (App.items s) = Some (IWidget demoCompass)).
  { apply (hitTest_last 0 0 []). unfold hitPred; cbn.
    rewrite hypot_0_0. apply ltb_true. lra. }
  assert (Hids : distinctIds (App.items s)) by (repeat constructor; intros []).
  destruct (ArcAngleInv_start s 0 0 "stroke-1" demoCompass Hids Hhit eq_refl)
    as [H0 _]; [discriminate|].
  destruct (ArcAngleInv_drag demoCompass (Point.mk 0 0) pivot
              [Point.mk 30 40; Point.mk 50 10] ltac:(discriminate) _ H0)
    as [[_ _ _ _ _ [c' [Hin Hc]] _] _].
  exists c'. split; [exact Hin|].
  apply (compass_arc_angle_follows_pointer s 0 0 "stroke-1" demoCompass
           [Point.mk 30 40; Point.mk 50 10]); try assumption;
    try discriminate; reflexivity.
Defined.

Lemma sweep_telescopes (pivot : Point.t) (samples : list Point.t) :
  forall (last : Point.t) (angle : number),
    sweep pivot last samples angle
    = angle + (pointerAngle pivot (lastSample last samples)
               - pointerAngle pivot last).
Proof.
  unfold lastSample.
  induction samples as [|p rest IH]; intros last angle.
  - cbn. unfold number in *. lra.
  - cbn [sweep]. rewrite IH.
    replace (List.last (p :: rest) last) with (List.last rest p)
      by (symmetry; apply last_cons_default).
    unfold pointerAngle, number in *. lra.
Qed.

(** X18.  The compass follows the pointer.  In a compass_arc drag (right
    pointer-down on the compass [c], outside eraser mode, then any samples)
    the angle of the stored compass is the angle of [c] swept by the
    samples: every sample in turn has added the change of the pointer's
    direction since the sample before (since the pointer-down position for
    the first), in degrees, the directions being taken from the needle that
    the pointer-down locked and from no later place of the needle.  The leg
    height is untouched and the store has the ids it had, in their order. *)
Theorem compass_arc_angle_running_sum :
  forall (s : App.t) (x y : number) (uid : string) (c : Widget.t)
         (samples : list Point.t),
    distinctIds (App.items s) ->
    hitTest x y (App.items s) = Some (IWidget c) ->
    Widget.type c = Compass ->
    Widget.id c <> EmptyString ->
    App.mode s <> eraser ->
    let pivot := CompassPoints.needle (getCompassPoints c) in
    let sn := drag (handleMouseDown s x y true uid) samples in
    map item_id (App.items sn) = map item_id (App.items s) /\
    forall c', In (IWidget c') (App.items sn) -> Widget.id c' = Widget.id c ->
      Widget.angle c' = sweep pivot (Point.mk x y) samples (Widget.angle c) /\
      Widget.height c' = Widget.height c.
Proof.
  intros s x y uid c samples Hids Hhit Hty Hne Hmode pivot sn.
  split.
  - unfold sn. rewrite drag_ids_mode; [apply handleMouseDown_ids|].
    rewrite handleMouseDown_mode. exact Hmode.
  - intros c' Hin Hc.
    destruct (compass_arc_angle_follows_pointer s x y uid c samples
                Hids Hhit Hty Hne Hmode c' Hin Hc) as [Ha Hh].
    split; [|exact Hh]. rewrite sweep_telescopes. exact Ha.
Qed.

Lemma compass_arc_angle_running_sum_witness :
  let s := App.with_items (App.init None) [IWidget demoCompass] in
  let pivot := CompassPoints.needle (getCompassPoints demoCompass) in
  let sn := drag (handleMouseDown s 0 0 true "stroke-1")
                 [Point.mk 30 40; Point.mk 50 10] in
  exists c', In (IWidget c') (App.items sn) /\
    Widget.angle c'
    = sweep pivot (Point.mk 0 0) [Point.mk 30 40; Point.mk 50 10]
            (Widget.angle demoCompass).
Proof.
  intros s pivot sn.
  assert (Hhit : hitTest 0 0 (App.items s) = Some (IWidget demoCompass)).
  { apply (hitTest_last 0 0 []). unfold hitPred; cbn.
    rewrite hypot_0_0. apply ltb_true. lra. }
  assert (Hids : distinctIds (App.items s)) by (repeat constructor; intros []).
  destruct (ArcAngleInv_start s 0 0 "stroke-1" demoCompass Hids Hhit eq_refl)
    as [H0 _]; [discriminate|].
  destruct (ArcAngleInv_drag demoCompass (Point.mk 0 0) pivot
              [Point.mk 30 40; Point.mk 50 10] ltac:(discriminate) _ H0)
    as [[_ _ _ _ _ [c' [Hin Hc]] _] _].
  exists c'. split; [exact Hin|].
  apply (compass_arc_angle_running_sum s 0 0 "stroke-1" demoCompass
           [Point.mk 30 40; Point.mk 50 10]); try assumption;
    try discriminate; reflexivity.
Defined.

(** ** Painters: the ruler's ticks *)

Lemma loop_fuel_enough (x : number) (j : nat) :
  INR j <= x -> (j < Z.to_nat (up x))%nat.
Proof.
  intros H. destruct (archimed x) as [Hu _].
  rewrite INR_IZR_INZ in H.
  assert (Hlt : (Z.of_nat j < up x)%Z) by (apply lt_IZR; unfold number in *; lra).
  lia.
Qed.

Lemma rulerTicksFrom_sound (fuel : nat) :
  forall (i : nat) (startX h len step : number) (op : PaintOp),
    In op (Paint.rulerTicksFrom fuel i startX h len step) ->
    exists j, (i <= j)%nat /\ INR j <= len / step /\
              In op (rulerTickOps startX h step j).
Proof.
  induction fuel as [|fuel IH]; intros i startX h len step op H.
  - destruct H.
  - cbn [Paint.rulerTicksFrom] in H. unfold leb in H.
    destruct (Rle_dec (INR i) (len / step)) as [Hc|Hc]; [|destruct H].
    rewrite app_assoc in H. apply in_app_or in H. destruct H as [H|H].
    + exists i. split; [lia|]. split; [exact Hc|]. exact H.
    + destruct (IH _ _ _ _ _ _ H) as [j [Hj [Hb Hin]]].
      exists j. split; [lia|]. split; assumption.
Qed.

Lemma rulerTicksFrom_complete (fuel : nat) :
  forall (i j : nat) (startX h len step : number) (op : PaintOp),
    (i <= j)%nat -> (j < i + fuel)%nat -> INR j <= len / step ->
    In op (rulerTickOps startX h step j) ->
    In op (Paint.rulerTicksFrom fuel i startX h len step).
Proof.
  induction fuel as [|fuel IH]; intros i j startX h len step op Hij Hj Hb Hin.
  - lia.
  - cbn [Paint.rulerTicksFrom]. unfold leb.
    assert (Hi : INR i <= len / step).
    { apply Rle_trans with (INR j); [apply le_INR; exact Hij | exact Hb]. }
    destruct (Rle_dec (INR i) (len / step)) as [_|Hc]; [|contradiction].
    rewrite app_assoc. apply in_or_app.
    destruct (Nat.eq_dec i j) as [->|Hne].
    + left. exact Hin.
    + right. apply (IH (S i) j); try assumption; lia.
Qed.

Lemma drawRuler_ticks (r : Widget.t) (op : PaintOp) :
  (exists x y, op = Op (MoveTo x y)) \/ (exists x y, op = Op (LineTo x y)) \/
  (exists t x y, op = Op (FillText t x y)) ->
  (In op (Paint.drawRuler r) <->
   exists j, 10 * INR j <= rulerPaintWidth r - 20 /\
             In op (rulerTickOps (- rulerPaintWidth r / 2 + 10)
                                 (rulerPaintHeight r) 10 j)).
Proof.
  intros Hshape. unfold Paint.drawRuler.
  fold (rulerPaintWidth r). fold (rulerPaintHeight r).
  set (w := rulerPaintWidth r). set (h := rulerPaintHeight r).
  set (len := w / 2 - 10 - (- w / 2 + 10)).
  assert (Hlen : forall j, INR j <= len / 10 <-> 10 * INR j <= w - 20).
  { intros j. unfold len, number in *. split; intros; lra. }
  split.
  - intros H. apply in_app_or in H. destruct H as [H|H].
    + exfalso. cbn in H.
      destruct Hshape as [[x [y ->]]|[[x [y ->]]|[t [x [y ->]]]]];
        repeat (destruct H as [H|H]; [discriminate H|]); exact H.
    + apply in_app_or in H. destruct H as [H|H].
      * destruct (rulerTicksFrom_sound _ _ _ _ _ _ _ H) as [j [_ [Hb Hin]]].
        exists j. split; [apply Hlen; exact Hb | exact Hin].
      * exfalso. cbn in H.
        destruct Hshape as [[x [y ->]]|[[x [y ->]]|[t [x [y ->]]]]];
          repeat (destruct H as [H|H]; [discriminate H|]); exact H.
  - intros [j [Hb Hin]]. apply in_or_app. right. apply in_or_app. left.
    apply Hlen in Hb.
    apply (rulerTicksFrom_complete _ 0 j); try assumption; [lia|].
    cbn [Nat.add]. apply loop_fuel_enough. exact Hb.
Qed.

(** X19.  The ticks of the painted ruler.  With [w] and [h] the size the
    painter reads, tick number [i] is drawn exactly when it still fits
    between the two 10-pixel margins ([10 * i <= w - 20]): it starts on the
    top edge at [-w/2 + 10 + 10 * i], is 15 long when [i] is a multiple of
    five and 8 otherwise, and a multiple of five carries its own number as
    a label 25 below the edge.  Nothing else is drawn as a tick: every
    path start lies on the top edge between the margins, and every label
    is the number of a drawn tick that is a multiple of five. *)
Theorem ruler_ticks :
  forall (r : Widget.t),
    let w := rulerPaintWidth r in
    let h := rulerPaintHeight r in
    (forall i : nat,
        10 * INR i <= w - 20 ->
        In (Op (MoveTo (tickX r i) (- h / 2))) (Paint.drawRuler r) /\
        In (Op (LineTo (tickX r i) (- h / 2 + tickLength i))) (Paint.drawRuler r) /\
        ((i mod 5 = 0)%nat ->
         In (Op (FillText (toString i) (tickX r i) (- h / 2 + 25)))
            (Paint.drawRuler r))) /\
    (forall x y : number,
        In (Op (MoveTo x y)) (Paint.drawRuler r) ->
        y = - h / 2 /\ - w / 2 + 10 <= x <= w / 2 - 10 /\
        exists i, 10 * INR i <= w - 20 /\ x = tickX r i) /\
    (forall x y : number,
        In (Op (LineTo x y)) (Paint.drawRuler r) ->
        exists i, 10 * INR i <= w - 20 /\ x = tickX r i /\
                  y = - h / 2 + tickLength i) /\
    (forall (t : string) (x y : number),
        In (Op (FillText t x y)) (Paint.drawRuler r) ->
        exists i, (i mod 5 = 0)%nat /\ 10 * INR i <= w - 20 /\
                  t = toString i /\ x = tickX r i /\ y = - h / 2 + 25) /\
    (w < 20 -> forall x y : number, ~ In (Op (MoveTo x y)) (Paint.drawRuler r)).
Proof.
  intros r w h.
  assert (Hmove : forall x y : number,
             In (Op (MoveTo x y)) (Paint.drawRuler r) ->
             exists i, 10 * INR i <= w - 20 /\ x = tickX r i /\ y = - h / 2).
  { intros x y H. apply drawRuler_ticks in H; [|left; eauto].
    destruct H as [j [Hb Hin]]. exists j. split; [exact Hb|].
    unfold rulerTickOps in Hin. apply in_app_or in Hin. destruct Hin as [Hin|Hin].
    - cbn in Hin.
      repeat (destruct Hin as [Hin|Hin];
              [try discriminate Hin; injection Hin as <- <-; split; reflexivity|]).
      destruct Hin.
    - destruct (Nat.eqb (j mod 5) 0); cbn in Hin;
        repeat (destruct Hin as [Hin|Hin]; [discriminate Hin|]); destruct Hin. }
  split; [|split; [|split; [|split]]].
  - intros i Hb. split; [|split].
    + apply drawRuler_ticks; [left; eauto|]. exists i. split; [exact Hb|].
      unfold rulerTickOps, tickX. fold w. fold h. cbn. right. left. reflexivity.
    + apply drawRuler_ticks; [right; left; eauto|]. exists i. split; [exact Hb|].
      unfold rulerTickOps, tickX, tickLength. fold w. fold h. cbn.
      right. right. left. reflexivity.
    + intros Hm. apply drawRuler_ticks; [right; right; eauto|].
      exists i. split; [exact Hb|].
      unfold rulerTickOps, tickX. fold w. fold h. rewrite Hm. cbn.
      right. right. right. right. left. reflexivity.
  - intros x y H. destruct (Hmove x y H) as [i [Hb [Hx Hy]]].
    split; [exact Hy|]. split.
    + assert (0 <= INR i) by apply pos_INR.
      subst x. unfold tickX. fold w. unfold number in *. lra.
    + exists i. split; assumption.
  - intros x y H. apply drawRuler_ticks in H; [|right; left; eauto].
    destruct H as [j [Hb Hin]]. exists j. split; [exact Hb|].
    unfold rulerTickOps in Hin. apply in_app_or in Hin. destruct Hin as [Hin|Hin].
    + cbn in Hin.
      repeat (destruct Hin as [Hin|Hin];
              [try discriminate Hin; injection Hin as <- <-; split; reflexivity|]).
      destruct Hin.
    + destruct (Nat.eqb (j mod 5) 0); cbn in Hin;
        repeat (destruct Hin as [Hin|Hin]; [discriminate Hin|]); destruct Hin.
  - intros t x y H. apply drawRuler_ticks in H; [|right; right; eauto].
    destruct H as [j [Hb Hin]]. exists j.
    unfold rulerTickOps in Hin. apply in_app_or in Hin. destruct Hin as [Hin|Hin].
    + cbn in Hin.
      repeat (destruct Hin as [Hin|Hin]; [discriminate Hin|]). destruct Hin.
    + destruct (Nat.eqb (j mod 5) 0) eqn:Hm; cbn in Hin.
      * destruct Hin as [Hin|[]]. injection Hin as <- <- <-.
        apply Nat.eqb_eq in Hm. repeat split; assumption || reflexivity.
      * destruct Hin.
  - intros Hw x y H. destruct (Hmove x y H) as [i [Hb _]].
    assert (0 <= INR i) by apply pos_INR. unfold number in *. lra.
Qed.

(** ** Painters: the protractor's ticks *)

Lemma protractorTicksFrom_sound (fuel : nat) :
  forall (deg : nat) (r : number) (op : PaintOp),
    In op (Paint.protractorTicksFrom fuel deg r) ->
    exists k, (k < fuel)%nat /\ (deg + 10 * k <= 180)%nat /\
              In op (protractorTickOps r (deg + 10 * k)).
Proof.
  induction fuel as [|fuel IH]; intros deg r op H.
  - destruct H.
  - cbn [Paint.protractorTicksFrom] in H.
    destruct (Nat.leb deg 180) eqn:Hc; [|destruct H].
    apply Nat.leb_le in Hc.
    apply in_app_or in H. destruct H as [H|H].
    + exists 0%nat. replace (deg + 10 * 0)%nat with deg by lia.
      split; [lia|]. split; [exact Hc | exact H].
    + destruct (IH _ _ _ H) as [k [Hk [Hb Hin]]].
      exists (S k). replace (deg + 10 * S k)%nat with (deg + 10 + 10 * k)%nat by lia.
      split; [lia|]. split; assumption.
Qed.

Lemma protractorTicksFrom_complete (fuel : nat) :
  forall (deg k : nat) (r : number) (op : PaintOp),
    (k < fuel)%nat -> (deg + 10 * k <= 180)%nat ->
    In op (protractorTickOps r (deg + 10 * k)) ->
    In op (Paint.protractorTicksFrom fuel deg r).
Proof.
  induction fuel as [|fuel IH]; intros deg k r op Hk Hb Hin.
  - lia.
  - cbn [Paint.protractorTicksFrom].
    assert (Hc : Nat.leb deg 180 = true) by (apply Nat.leb_le; lia).
    rewrite Hc. apply in_or_app. destruct k as [|k].
    + left. replace (deg + 10 * 0)%nat with deg in Hin by lia. exact Hin.
    + right. apply (IH (deg + 10)%nat k); [lia | lia |].
      replace (deg + 10 + 10 * k)%nat with (deg + 10 * S k)%nat by lia. exact Hin.
Qed.

Lemma drawProtractor_ticks (p : Widget.t) (op : PaintOp) :
  (exists x y, op = Op (MoveTo x y)) \/ (exists x y, op = Op (LineTo x y)) ->
  (In op (Paint.drawProtractor p) <->
   exists deg, (deg <= 180)%nat /\ (deg mod 10 = 0)%nat /\
               In op (protractorTickOps (protractorRadius p) deg)).
Proof.
  intros Hshape. unfold Paint.drawProtractor. fold (protractorRadius p).
  set (r := protractorRadius p). split.
  - intros H. apply in_app_or in H. destruct H as [H|H].
    + exfalso. cbn in H.
      destruct Hshape as [[x [y ->]]|[x [y ->]]];
        repeat (destruct H as [H|H]; [discriminate H|]); exact H.
    + apply in_app_or in H. destruct H as [H|H].
      * destruct (protractorTicksFrom_sound _ _ _ _ H) as [k [_ [Hb Hin]]].
        exists (0 + 10 * k)%nat. split; [exact Hb|]. split; [|exact Hin].
        cbn [Nat.add]. rewrite Nat.mul_comm. apply Nat.Div0.mod_mul.
      * exfalso. cbn in H.
        destruct Hshape as [[x [y ->]]|[x [y ->]]];
          repeat (destruct H as [H|H]; [discriminate H|]); exact H.
  - intros [deg [Hb [Hm Hin]]]. apply in_or_app. right. apply in_or_app. left.
    apply Nat.Div0.div_exact in Hm.
    apply (protractorTicksFrom_complete 19 0 (deg / 10)).
    + assert (deg / 10 <= 180 / 10)%nat by (apply Nat.Div0.div_le_mono; exact Hb).
      change (180 / 10)%nat with 18%nat in H. lia.
    + cbn [Nat.add]. rewrite <- Hm. exact Hb.
    + cbn [Nat.add]. rewrite <- Hm. exact Hin.
Qed.

(** X20.  The scale of the painted protractor.  With [r] the radius the
    painter reads, a tick is drawn for every reading [deg] that is a
    multiple of ten from 0 to 180 and for nothing else.  The tick of
    reading [deg] starts at distance [r] from the centre in the direction
    that the painter computes for it, [PI + deg * PI / 180], and ends in
    the same direction, 15 nearer to the centre at the multiples of thirty
    and 8 nearer otherwise. *)
Theorem protractor_ticks :
  forall (p : Widget.t),
    let r := protractorRadius p in
    (forall deg : nat,
        (deg <= 180)%nat -> (deg mod 10 = 0)%nat ->
        In (Op (MoveTo (tickCos deg * r) (tickSin deg * r)))
           (Paint.drawProtractor p) /\
        In (Op (LineTo (tickCos deg * (r - tickDepth deg))
                       (tickSin deg * (r - tickDepth deg))))
           (Paint.drawProtractor p)) /\
    (forall x y : number,
        In (Op (MoveTo x y)) (Paint.drawProtractor p) ->
        exists deg, (deg <= 180)%nat /\ (deg mod 10 = 0)%nat /\
                    x = tickCos deg * r /\ y = tickSin deg * r) /\
    (forall x y : number,
        In (Op (LineTo x y)) (Paint.drawProtractor p) ->
        exists deg, (deg <= 180)%nat /\ (deg mod 10 = 0)%nat /\
                    x = tickCos deg * (r - tickDepth deg) /\
                    y = tickSin deg * (r - tickDepth deg)).
Proof.
  intros p r. split; [|split].
  - intros deg Hb Hm. split.
    + apply drawProtractor_ticks; [left; eauto|]. exists deg.
      split; [exact Hb|]. split; [exact Hm|]. fold r.
      unfold protractorTickOps, tickCos, tickSin. right. left. reflexivity.
    + apply drawProtractor_ticks; [right; eauto|]. exists deg.
      split; [exact Hb|]. split; [exact Hm|]. fold r.
      unfold protractorTickOps, tickCos, tickSin, tickDepth.
      right. right. left. reflexivity.
  - intros x y H. apply drawProtractor_ticks in H; [|left; eauto].
    destruct H as [deg [Hb [Hm Hin]]]. exists deg. split; [exact Hb|].
    split; [exact Hm|]. fold r in Hin. unfold protractorTickOps in Hin.
    cbn [In] in Hin.
    repeat (destruct Hin as [Hin|Hin];
            [try discriminate Hin; injection Hin as <- <-;
             (split; reflexivity)|]).
    destruct Hin.
  - intros x y H. apply drawProtractor_ticks in H; [|right; eauto].
    destruct H as [deg [Hb [Hm Hin]]]. exists deg. split; [exact Hb|].
    split; [exact Hm|]. fold r in Hin. unfold protractorTickOps in Hin.
    cbn [In] in Hin.
    repeat (destruct Hin as [Hin|Hin];
            [try discriminate Hin; injection Hin as <- <-;
             (split; reflexivity)|]).
    destruct Hin.
Qed.

(** ** Painters and the snap resolver: the ruler's edges *)

Lemma rulerPaintHeight_snap (r : Widget.t) : rulerPaintHeight r = rulerHeight r.
Proof. reflexivity. Qed.

Lemma rulerPaintWidth_set (r : Widget.t) :
  opt_or (Widget.width r) 0 <> 0 -> rulerPaintWidth r = rulerWidth r.
Proof.
  unfold rulerPaintWidth, rulerWidth, opt_or, num_or.
  destruct (Widget.width r) as [w0|]; [|intros H; contradiction H; reflexivity].
  destruct (Req_dec_T w0 0); [intros H; contradiction H; reflexivity | reflexivity].
Qed.

Lemma rulerPaintWidth_unset (r : Widget.t) :
  opt_or (Widget.width r) 0 = 0 -> rulerPaintWidth r = 400 /\ rulerWidth r = 100.
Proof.
  unfold rulerPaintWidth, rulerWidth, opt_or, num_or, TOOL_DEFAULTS.RULER_width.
  destruct (Widget.width r) as [w0|]; [|split; reflexivity].
  destruct (Req_dec_T w0 0); [split; reflexivity | intros H; contradiction].
Qed.

Lemma drawRuler_outline (r : Widget.t) :
  In (Op (StrokeRect (- rulerPaintWidth r / 2) (- rulerPaintHeight r / 2)
                     (rulerPaintWidth r) (rulerPaintHeight r)))
     (Paint.drawRuler r).
Proof.
  unfold Paint.drawRuler. fold (rulerPaintWidth r). fold (rulerPaintHeight r).
  apply in_or_app. left. cbn [In]. do 7 right. left. reflexivity.
Qed.

(** X21.  The painted ruler and the ruler that snaps.  The painter outlines
    the rectangle [[-w/2, w/2] x [-h/2, h/2]] of the local frame.  For a
    shown ruler whose width is set and not zero, every point of the painted
    top edge and of the painted bottom edge is its own snap point, for any
    positive threshold up to the ruler's height.  When the width is unset
    or zero the painter falls back to 400 and the snap resolver to 100:
    the points of the painted edges further than [50 + t] from the middle
    get no snap at all. *)
Theorem painted_ruler_edges_snap :
  forall (r : Widget.t) (t lx : number),
    Widget.type r = Ruler ->
    is_hidden (IWidget r) = false ->
    0 < t -> t <= Rabs (rulerPaintHeight r) ->
    - rulerPaintWidth r / 2 <= lx <= rulerPaintWidth r / 2 ->
    let top := toWorld r lx (- rulerPaintHeight r / 2) in
    let bottom := toWorld r lx (rulerPaintHeight r / 2) in
    In (Op (StrokeRect (- rulerPaintWidth r / 2) (- rulerPaintHeight r / 2)
                       (rulerPaintWidth r) (rulerPaintHeight r)))
       (Paint.drawRuler r) /\
    (opt_or (Widget.width r) 0 <> 0 ->
     snapItem (Point.x top) (Point.y top) (IWidget r) t = Some top /\
     snapItem (Point.x bottom) (Point.y bottom) (IWidget r) t = Some bottom) /\
    (opt_or (Widget.width r) 0 = 0 -> 50 + t < Rabs lx ->
     snapItem (Point.x top) (Point.y top) (IWidget r) t = None /\
     snapItem (Point.x bottom) (Point.y bottom) (IWidget r) t = None).
Proof.
  intros r t lx Hty Hvis Ht Hh Hlx top bottom.
  split; [apply drawRuler_outline|].
  rewrite rulerPaintHeight_snap in *.
  assert (Ltop : cursorLocal r (Point.x top) (Point.y top)
                 = Point.mk lx (- rulerHeight r / 2))
    by apply cursorLocal_toWorld.
  assert (Lbot : cursorLocal r (Point.x bottom) (Point.y bottom)
                 = Point.mk lx (rulerHeight r / 2))
    by apply cursorLocal_toWorld.
  split.
  - intros Hw. rewrite (rulerPaintWidth_set r Hw) in Hlx. split.
    + rewrite snapItem_ruler_top; try assumption.
      * rewrite Ltop. reflexivity.
      * unfold inSpan. rewrite Ltop. cbn [Point.x]. unfold number in *. lra.
      * unfold nearTop. rewrite Ltop. cbn [Point.y].
        replace (- rulerHeight r / 2 - - rulerHeight r / 2) with 0
          by (unfold number; lra).
        rewrite Rabs_R0. exact Ht.
    + rewrite snapItem_ruler_bottom; try assumption.
      * rewrite Lbot. reflexivity.
      * unfold inSpan. rewrite Lbot. cbn [Point.x]. unfold number in *. lra.
      * unfold nearTop. rewrite Lbot. cbn [Point.y].
        replace (rulerHeight r / 2 - - rulerHeight r / 2) with (rulerHeight r)
          by (unfold number; lra).
        unfold number in *. lra.
      * unfold nearBottom. rewrite Lbot. cbn [Point.y].
        replace (rulerHeight r / 2 - rulerHeight r / 2) with 0
          by (unfold number; lra).
        rewrite Rabs_R0. exact Ht.
  - intros Hw Hfar. destruct (rulerPaintWidth_unset r Hw) as [_ Hsw].
    split; apply snapItem_ruler_miss; try assumption; intros [Hs _];
      unfold inSpan in Hs; rewrite ?Ltop, ?Lbot in Hs; cbn [Point.x] in Hs;
      rewrite Hsw in Hs; unfold Rabs in Hfar;
      destruct (Rcase_abs lx); unfold number in *; lra.
Qed.

Lemma demoRuler_width_set : opt_or (Widget.width demoRuler) 0 <> 0.
Proof.
  unfold demoRuler; cbn. rewrite num_or_zero_default.
  unfold TOOL_DEFAULTS.RULER_width, number. lra.
Qed.

Lemma painted_ruler_edges_snap_witness :
  let top := toWorld demoRuler 150 (- rulerPaintHeight demoRuler / 2) in
  snapItem (Point.x top) (Point.y top) (IWidget demoRuler) 20 = Some top.
Proof.
  assert (Hw : rulerPaintWidth demoRuler = 400).
  { rewrite (rulerPaintWidth_set demoRuler demoRuler_width_set).
    exact demoRuler_width. }
  assert (Hh : rulerPaintHeight demoRuler = 50).
  { rewrite rulerPaintHeight_snap. exact demoRuler_height. }
  refine (proj1 (proj1 (proj2 (painted_ruler_edges_snap demoRuler 20 150
                                 eq_refl eq_refl _ _ _)) demoRuler_width_set)).
  - lra.
  - rewrite Hh. rewrite Rabs_right; lra.
  - rewrite Hw. lra.
Defined.

(** ** Painters: the set-square's markings *)

Lemma marksAcross_sound (fuel : nat) :
  forall (i limit : number) (op : PaintOp),
    In op (Paint.marksAcross fuel i limit) ->
    exists k : nat, i + 20 * INR k < limit /\
                    (op = Op (MoveTo (i + 20 * INR k) 0) \/
                     op = Op (LineTo (i + 20 * INR k) 10)).
Proof.
  induction fuel as [|fuel IH]; intros i limit op H.
  - destruct H.
  - cbn [Paint.marksAcross] in H. unfold ltb in H.
    destruct (Rlt_dec i limit) as [Hc|Hc]; [|destruct H].
    cbn [app In] in H. destruct H as [H|[H|H]].
    + exists 0%nat. cbn [INR]. replace (i + 20 * 0) with i by (unfold number; lra).
      split; [exact Hc | left; symmetry; exact H].
    + exists 0%nat. cbn [INR]. replace (i + 20 * 0) with i by (unfold number; lra).
      split; [exact Hc | right; symmetry; exact H].
    + destruct (IH _ _ _ H) as [k [Hb Hop]]. exists (S k). rewrite S_INR.
      replace (i + 20 * (INR k + 1)) with (i + 20 + 20 * INR k)
        by (unfold number; lra).
      split; assumption.
Qed.

Lemma marksAcross_complete (fuel : nat) :
  forall (k : nat) (i limit : number),
    (k < fuel)%nat -> i + 20 * INR k < limit ->
    In (Op (MoveTo (i + 20 * INR k) 0)) (Paint.marksAcross fuel i limit) /\
    In (Op (LineTo (i + 20 * INR k) 10)) (Paint.marksAcross fuel i limit).
Proof.
  induction fuel as [|fuel IH]; intros k i limit Hk Hb.
  - lia.
  - cbn [Paint.marksAcross]. unfold ltb.
    assert (Hi : i < limit).
    { pose proof (pos_INR k). unfold number in *. lra. }
    destruct (Rlt_dec i limit) as [_|Hc]; [|contradiction].
    cbn [app In]. destruct k as [|k].
    + cbn [INR]. replace (i + 20 * 0) with i by (unfold number; lra).
      split; [left; reflexivity | right; left; reflexivity].
    + rewrite S_INR in *.
      replace (i + 20 * (INR k + 1)) with (i + 20 + 20 * INR k) in *
        by (unfold number; lra).
      destruct (IH k (i + 20) limit) as [H1 H2]; [lia | exact Hb |].
      split; right; right; assumption.
Qed.

Lemma marksDown_sound (fuel : nat) :
  forall (i limit : number) (op : PaintOp),
    In op (Paint.marksDown fuel i limit) ->
    exists k : nat, i + 20 * INR k < limit /\
                    (op = Op (MoveTo 0 (i + 20 * INR k)) \/
                     op = Op (LineTo 10 (i + 20 * INR k))).
Proof.
  induction fuel as [|fuel IH]; intros i limit op H.
  - destruct H.
  - cbn [Paint.marksDown] in H. unfold ltb in H.
    destruct (Rlt_dec i limit) as [Hc|Hc]; [|destruct H].
    cbn [app In] in H. destruct H as [H|[H|H]].
    + exists 0%nat. cbn [INR]. replace (i + 20 * 0) with i by (unfold number; lra).
      split; [exact Hc | left; symmetry; exact H].
    + exists 0%nat. cbn [INR]. replace (i + 20 * 0) with i by (unfold number; lra).
      split; [exact Hc | right; symmetry; exact H].
    + destruct (IH _ _ _ H) as [k [Hb Hop]]. exists (S k). rewrite S_INR.
      replace (i + 20 * (INR k + 1)) with (i + 20 + 20 * INR k)
        by (unfold number; lra).
      split; assumption.
Qed.

Lemma marksDown_complete (fuel : nat) :
  forall (k : nat) (i limit : number),
    (k < fuel)%nat -> i + 20 * INR k < limit ->
    In (Op (MoveTo 0 (i + 20 * INR k))) (Paint.marksDown fuel i limit) /\
    In (Op (LineTo 10 (i + 20 * INR k))) (Paint.marksDown fuel i limit).
Proof.
  induction fuel as [|fuel IH]; intros k i limit Hk Hb.
  - lia.
  - cbn [Paint.marksDown]. unfold ltb.
    assert (Hi : i < limit).
    { pose proof (pos_INR k). unfold number in *. lra. }
    destruct (Rlt_dec i limit) as [_|Hc]; [|contradiction].
    cbn [app In]. destruct k as [|k].
    + cbn [INR]. replace (i + 20 * 0) with i by (unfold number; lra).
      split; [left; reflexivity | right; left; reflexivity].
    + rewrite S_INR in *.
      replace (i + 20 * (INR k + 1)) with (i + 20 + 20 * INR k) in *
        by (unfold number; lra).
      destruct (IH k (i + 20) limit) as [H1 H2]; [lia | exact Hb |].
      split; right; right; assumption.
Qed.

Lemma marks_fuel_enough (limit : number) (k : nat) :
  20 * INR k < limit -> (k < Z.to_nat (up (limit / 20)))%nat.
Proof.
  intros H. apply loop_fuel_enough. unfold number in *. lra.
Qed.

(** X22.  The markings of the painted set-square.  With [w] and [h] the
    legs the painter reads, the marks sit every 20 along each leg from the
    right angle on, exactly as long as they are strictly before the leg's
    end: mark [k] of the horizontal leg goes from [(20 k, 0)] to
    [(20 k, 10)] and mark [k] of the vertical leg from [(0, 20 k)] to
    [(10, 20 k)].  Apart from the outline, which starts at the right angle
    and visits the two leg ends, the painter draws no other segment. *)
Theorem set_square_marks :
  forall (t : Widget.t),
    let w := trianglePaintWidth t in
    let h := trianglePaintHeight t in
    (forall k : nat,
        20 * INR k < w ->
        In (Op (MoveTo (20 * INR k) 0)) (Paint.drawSetSquare t) /\
        In (Op (LineTo (20 * INR k) 10)) (Paint.drawSetSquare t)) /\
    (forall k : nat,
        20 * INR k < h ->
        In (Op (MoveTo 0 (20 * INR k))) (Paint.drawSetSquare t) /\
        In (Op (LineTo 10 (20 * INR k))) (Paint.drawSetSquare t)) /\
    (forall x y : number,
        In (Op (MoveTo x y)) (Paint.drawSetSquare t) ->
        (x = 0 /\ y = 0) \/
        (y = 0 /\ 0 <= x < w /\ exists k : nat, x = 20 * INR k) \/
        (x = 0 /\ 0 <= y < h /\ exists k : nat, y = 20 * INR k)) /\
    (forall x y : number,
        In (Op (LineTo x y)) (Paint.drawSetSquare t) ->
        (x = w /\ y = 0) \/ (x = 0 /\ y = h) \/
        (y = 10 /\ 0 <= x < w /\ exists k : nat, x = 20 * INR k) \/
        (x = 10 /\ 0 <= y < h /\ exists k : nat, y = 20 * INR k)).
Proof.
  intros t w h. unfold Paint.drawSetSquare.
  fold (trianglePaintWidth t). fold (trianglePaintHeight t). fold w. fold h.
  split; [|split; [|split]].
  - intros k Hk.
    destruct (marksAcross_complete (Z.to_nat (up (w / 20))) k 0 w) as [H1 H2].
    + apply marks_fuel_enough. exact Hk.
    + unfold number in *. lra.
    + replace (0 + 20 * INR k) with (20 * INR k) in * by (unfold number; lra).
      split; apply in_or_app; right; apply in_or_app; left; assumption.
  - intros k Hk.
    destruct (marksDown_complete (Z.to_nat (up (h / 20))) k 0 h) as [H1 H2].
    + apply marks_fuel_enough. exact Hk.
    + unfold number in *. lra.
    + replace (0 + 20 * INR k) with (20 * INR k) in * by (unfold number; lra).
      split; apply in_or_app; right; apply in_or_app; right;
        apply in_or_app; left; assumption.
  - intros x y H. apply in_app_or in H. destruct H as [H|H].
    + left. cbn [In] in H.
      repeat (destruct H as [H|H];
              [try discriminate H; injection H as <- <-; split; reflexivity|]).
      destruct H.
    + apply in_app_or in H. destruct H as [H|H].
      * right. left.
        destruct (marksAcross_sound _ _ _ _ H) as [k [Hb [E|E]]];
          [|discriminate E].
        injection E as -> ->. pose proof (pos_INR k).
        replace (0 + 20 * INR k) with (20 * INR k) in * by (unfold number; lra).
        split; [reflexivity|]. split; [unfold number in *; lra|].
        exists k. reflexivity.
      * apply in_app_or in H. destruct H as [H|H].
        -- right. right.
           destruct (marksDown_sound _ _ _ _ H) as [k [Hb [E|E]]];
             [|discriminate E].
           injection E as -> ->. pose proof (pos_INR k).
           replace (0 + 20 * INR k) with (20 * INR k) in * by (unfold number; lra).
           split; [reflexivity|]. split; [unfold number in *; lra|].
           exists k. reflexivity.
        -- exfalso. cbn [In] in H.
           repeat (destruct H as [H|H]; [discriminate H|]). exact H.
  - intros x y H. apply in_app_or in H. destruct H as [H|H].
    + cbn [In] in H.
      do 5 (destruct H as [H|H]; [discriminate H|]).
      destruct H as [H|H]; [injection H as <- <-; left; split; reflexivity|].
      destruct H as [H|H]; [injection H as <- <-; right; left; split; reflexivity|].
      exfalso. repeat (destruct H as [H|H]; [discriminate H|]). exact H.
    + apply in_app_or in H. destruct H as [H|H].
      * right. right. left.
        destruct (marksAcross_sound _ _ _ _ H) as [k [Hb [E|E]]];
          [discriminate E|].
        injection E as -> ->. pose proof (pos_INR k).
        replace (0 + 20 * INR k) with (20 * INR k) in * by (unfold number; lra).
        split; [reflexivity|]. split; [unfold number in *; lra|].
        exists k. reflexivity.
      * apply in_app_or in H. destruct H as [H|H].
        -- right. right. right.
           destruct (marksDown_sound _ _ _ _ H) as [k [Hb [E|E]]];
             [discriminate E|].
           injection E as -> ->. pose proof (pos_INR k).
           replace (0 + 20 * INR k) with (20 * INR k) in * by (unfold number; lra).
           split; [reflexivity|]. split; [unfold number in *; lra|].
           exists k. reflexivity.
        -- exfalso. cbn [In] in H.
           repeat (destruct H as [H|H]; [discriminate H|]). exact H.
Qed.

(** ** Painters: the compass *)

Lemma toWorld_origin (c : Widget.t) :
  toWorld c 0 0 = Point.mk (Widget.x c) (Widget.y c).
Proof.
  unfold toWorld, convertLocalToWorld, number. f_equal; ring.
Qed.

(** X23.  The painted compass is the compass of the arc gesture.  The
    painter moves the frame to the hinge and turns it by the widget's
    angle; in that frame both legs start at the hinge and end at the needle
    and at the pencil point that [getCompassPoints] returns, the small dots
    sit on these two points and on the hinge, and the dashed hint is the
    circle of radius 80 about the needle, the point that a compass_arc drag
    keeps fixed. *)
Theorem compass_painted_tips :
  forall (c : Widget.t),
    let hinge := Point.mk (Widget.x c) (Widget.y c) in
    let needle := CompassPoints.needle (getCompassPoints c) in
    let pencil := CompassPoints.pencil (getCompassPoints c) in
    (exists rest,
        Paint.drawCompass c
        = Op Save :: Op (Translate (Widget.x c) (Widget.y c))
             :: Op (Rotate (deg2rad (Widget.angle c))) :: rest /\
        (forall a b, ~ In (Op (Translate a b)) rest) /\
        (forall a, ~ In (Op (Rotate a)) rest)) /\
    (forall lx ly : number,
        In (Op (MoveTo lx ly)) (Paint.drawCompass c) -> toWorld c lx ly = hinge) /\
    (forall lx ly : number,
        In (Op (LineTo lx ly)) (Paint.drawCompass c) ->
        toWorld c lx ly = needle \/ toWorld c lx ly = pencil) /\
    In (Op (LineTo (- spread) (opt_or (Widget.height c) 150))) (Paint.drawCompass c) /\
    In (Op (LineTo spread (opt_or (Widget.height c) 150))) (Paint.drawCompass c) /\
    (forall (lx ly rr a0 a1 : number) (ccw : bool),
        In (Arc lx ly rr a0 a1 ccw) (Paint.drawCompass c) ->
        (rr = 8 /\ toWorld c lx ly = hinge) \/
        (rr = 3 /\ toWorld c lx ly = needle) \/
        (rr = 4 /\ toWorld c lx ly = pencil) \/
        (rr = spread * 2 /\ toWorld c lx ly = needle)).
Proof.
  intros c hinge needle pencil.
  split; [|split; [|split; [|split; [|split]]]].
  - eexists. split; [reflexivity|]. split.
    + intros a b H. cbn [In] in H.
      repeat (destruct H as [H|H]; [discriminate H|]). exact H.
    + intros a H. cbn [In] in H.
      repeat (destruct H as [H|H]; [discriminate H|]). exact H.
  - intros lx ly H. unfold Paint.drawCompass in H. cbn [In] in H.
    repeat (destruct H as [H|H];
            [try discriminate H; injection H as <- <-; apply toWorld_origin|]).
    destruct H.
  - intros lx ly H. unfold Paint.drawCompass in H. cbn [In] in H.
    repeat (destruct H as [H|H];
            [try discriminate H; injection H as <- <-;
             first [left; reflexivity | right; reflexivity]|]).
    destruct H.
  - unfold Paint.drawCompass. cbn [In]. do 9 right. left. reflexivity.
  - unfold Paint.drawCompass. cbn [In]. do 13 right. left. reflexivity.
  - intros lx ly rr a0 a1 ccw H. unfold Paint.drawCompass in H. cbn [In] in H.
    repeat (destruct H as [H|H];
            [try discriminate H; injection H as <- <- <- <- <- <-;
             first [ left; split; [reflexivity | apply toWorld_origin]
                   | right; left; split; reflexivity
                   | right; right; left; split; reflexivity
                   | right; right; right; split; reflexivity ]|]).
    destruct H.
Qed.

(** ** Diagram code clean-up *)

Section TikzFacts.

Import Tikz.

Lemma startsWith_app (p s : jsstring) : startsWith p (p ++ s) = true.
Proof.
  induction p as [|a p IH]; [reflexivity|].
  cbn. rewrite N.eqb_refl. exact IH.
Qed.

Lemma startsWith_true_iff (p s : jsstring) :
  startsWith p s = true <-> exists t, s = p ++ t.
Proof.
  split.
  - revert s. induction p as [|a p IH]; intros s H.
    + exists s. reflexivity.
    + destruct s as [|c s]; [discriminate H|]. cbn in H.
      apply andb_true_iff in H. destruct H as [Hc H].
      apply N.eqb_eq in Hc. subst c.
      destruct (IH s H) as [t ->]. exists t. reflexivity.
  - intros [t ->]. apply startsWith_app.
Qed.

Lemma startsWith_head_ne (a c : N) (p s : jsstring) :
  a <> c -> startsWith (a :: p) (c :: s) = false.
Proof.
  intros H. cbn. apply N.eqb_neq in H. rewrite H. reflexivity.
Qed.

Lemma startsWith_window (p a b : jsstring) :
  (List.length p <= List.length a)%nat -> startsWith p (a ++ b) = startsWith p a.
Proof.
  revert a. induction p as [|q p IH]; intros a H; [reflexivity|].
  destruct a as [|c a]; [cbn in H; lia|].
  cbn. rewrite IH; [reflexivity | cbn in H; lia].
Qed.

(** A match that would have to cover a unit foreign to the pattern lies
    before that unit. *)
Lemma startsWith_before (p x y : jsstring) (c : N) :
  ~ In c p -> startsWith p (x ++ c :: y) = true -> startsWith p x = true.
Proof.
  revert x. induction p as [|q p IH]; intros x Hc H; [reflexivity|].
  destruct x as [|a x].
  - cbn in H. apply andb_true_iff in H. destruct H as [H _].
    apply N.eqb_eq in H. exfalso. apply Hc. left. exact H.
  - cbn in H |- *. apply andb_true_iff in H. destruct H as [H1 H2].
    rewrite H1. apply IH; [|exact H2]. intros Hin. apply Hc. right. exact Hin.
Qed.

Lemma includes_true_iff (p s : jsstring) :
  includes p s = true <-> exists pre post, s = pre ++ p ++ post.
Proof.
  split.
  - induction s as [|c s IH]; intros H.
    + cbn in H. apply startsWith_true_iff in H. destruct H as [t Ht].
      exists [], t. exact Ht.
    + cbn [includes] in H. apply orb_true_iff in H. destruct H as [H|H].
      * apply startsWith_true_iff in H. destruct H as [t Ht].
        exists [], t. exact Ht.
      * destruct (IH H) as [pre [post ->]]. exists (c :: pre), post. reflexivity.
  - intros [pre [post ->]]. induction pre as [|c pre IH].
    + cbn [app]. destruct (p ++ post) eqn:E.
      * cbn. destruct p; [reflexivity | discriminate E].
      * cbn [includes]. rewrite <- E. rewrite startsWith_app. reflexivity.
    + cbn [app includes]. rewrite IH. apply orb_true_r.
Qed.

Lemma includes_false_sub (p pre m post : jsstring) :
  includes p (pre ++ m ++ post) = false -> includes p m = false.
Proof.
  intros H. destruct (includes p m) eqn:E; [|reflexivity].
  apply includes_true_iff in E. destruct E as [a [b ->]].
  assert (T : includes p (pre ++ (a ++ p ++ b) ++ post) = true).
  { apply includes_true_iff. exists (pre ++ a), (b ++ post).
    rewrite <- !app_assoc. reflexivity. }
  rewrite T in H. discriminate H.
Qed.

Lemma includes_split (p x y : jsstring) (c : N) :
  ~ In c p -> includes p x = false -> includes p y = false ->
  includes p (x ++ c :: y) = false.
Proof.
  intros Hc Hx Hy. induction x as [|a x IH].
  - cbn [app includes]. rewrite Hy, orb_false_r.
    destruct (startsWith p (c :: y)) eqn:E; [|reflexivity].
    apply (startsWith_before p [] y c Hc) in E.
    cbn in Hx. rewrite Hx in E. discriminate E.
  - cbn [includes] in Hx. apply orb_false_iff in Hx. destruct Hx as [H1 H2].
    cbn [app includes]. rewrite (IH H2), orb_false_r.
    destruct (startsWith p (a :: x ++ c :: y)) eqn:E; [|reflexivity].
    apply (startsWith_before p (a :: x) y c Hc) in E.
    rewrite H1 in E. discriminate E.
Qed.

Lemma avoids_In (u : N) (s : jsstring) : avoids u s = true <-> ~ In u s.
Proof.
  unfold avoids. induction s as [|c s IH]; cbn.
  - split; [intros _ [] | reflexivity].
  - rewrite andb_true_iff, negb_true_iff, N.eqb_neq, IH. intuition congruence.
Qed.

Lemma avoids_app (u : N) (a b : jsstring) :
  avoids u (a ++ b) = avoids u a && avoids u b.
Proof. unfold avoids. apply forallb_app. Qed.

(** *** The scan of [replace] *)

Lemma removeAllFrom_skip (pat l s : jsstring) :
  removeAllFrom pat (List.length l) (l ++ s) = removeAllFrom pat 0 s.
Proof.
  induction l as [|c l IH]; [reflexivity|].
  cbn [List.length app removeAllFrom]. exact IH.
Qed.

Lemma removeAll_match (a : N) (p s : jsstring) :
  removeAll (a :: p) ((a :: p) ++ s) = removeAll (a :: p) s.
Proof.
  unfold removeAll. cbn [app removeAllFrom].
  change (a :: p ++ s) with ((a :: p) ++ s). rewrite startsWith_app.
  replace (List.length (a :: p) - 1)%nat with (List.length p)
    by (cbn [List.length]; lia).
  apply removeAllFrom_skip.
Qed.

Lemma removeAll_plain (a : N) (p x y : jsstring) :
  avoids a x = true ->
  removeAll (a :: p) (x ++ y) = x ++ removeAll (a :: p) y.
Proof.
  intros H. induction x as [|c x IH]; [reflexivity|].
  cbn in H. apply andb_true_iff in H. destruct H as [Hc Hx].
  apply negb_true_iff, N.eqb_neq in Hc.
  unfold removeAll in *. cbn [app removeAllFrom].
  rewrite startsWith_head_ne by congruence.
  rewrite (IH Hx). reflexivity.
Qed.

Lemma removeAll_plain_all (a : N) (p x : jsstring) :
  avoids a x = true -> removeAll (a :: p) x = x.
Proof.
  intros H. rewrite <- (app_nil_r x) at 1.
  rewrite removeAll_plain by exact H. cbn. apply app_nil_r.
Qed.

Lemma fence_units : fence = [backtick; backtick; backtick].
Proof. reflexivity. Qed.

Lemma removeAll_fence_cons (c : N) (s : jsstring) :
  removeAll fence (c :: s) =
  if startsWith fence (c :: s) then removeAllFrom fence 2 s
  else c :: removeAll fence s.
Proof. reflexivity. Qed.

Lemma removeAll_fence_two (s : jsstring) :
  startsWith [backtick; backtick] (removeAll fence s) = true ->
  startsWith [backtick; backtick] s = true.
Proof.
  destruct s as [|d s1]; [intros H; exact H|].
  rewrite removeAll_fence_cons.
  destruct (startsWith fence (d :: s1)) eqn:Hf.
  - intros _. apply startsWith_true_iff in Hf. destruct Hf as [t Ht].
    rewrite Ht, fence_units. apply startsWith_true_iff.
    exists (backtick :: t). reflexivity.
  - intros H. apply startsWith_true_iff in H. destruct H as [t Ht].
    injection Ht as Hd Ht'.
    destruct s1 as [|e s2]; [discriminate Ht'|].
    rewrite removeAll_fence_cons in Ht'.
    destruct (startsWith fence (e :: s2)) eqn:Hf2.
    + apply startsWith_true_iff in Hf2. destruct Hf2 as [t2 Ht2].
      change (fence ++ t2) with (backtick :: backtick :: backtick :: t2) in Ht2.
      injection Ht2 as He _. subst d e.
      apply startsWith_true_iff. exists s2. reflexivity.
    + injection Ht' as He _. subst d e.
      apply startsWith_true_iff. exists s2. reflexivity.
Qed.

(** After the scan no fence is left. *)
Lemma removeAllFrom_fence_free (s : jsstring) :
  forall k, includes fence (removeAllFrom fence k s) = false.
Proof.
  induction s as [|c s IH]; intros k; [reflexivity|].
  cbn [removeAllFrom]. destruct k as [|k]; [|apply IH].
  destruct (startsWith fence (c :: s)) eqn:Hf; [apply IH|].
  cbn [includes]. rewrite (IH 0%nat), orb_false_r.
  destruct (startsWith fence (c :: removeAllFrom fence 0 s)) eqn:Hg; [|reflexivity].
  exfalso. apply startsWith_true_iff in Hg. destruct Hg as [t Ht].
  change (fence ++ t) with (backtick :: backtick :: backtick :: t) in Ht.
  injection Ht as Hc Ht.
  assert (M : startsWith [backtick; backtick] s = true).
  { apply removeAll_fence_two. unfold removeAll. rewrite Ht.
    apply (startsWith_app [backtick; backtick] t). }
  apply startsWith_true_iff in M. destruct M as [t' Ht'].
  assert (T : startsWith fence (c :: s) = true).
  { apply startsWith_true_iff. exists t'. rewrite Hc, Ht'. reflexivity. }
  rewrite T in Hf. discriminate Hf.
Qed.

Lemma removeFences_fence_free (text : jsstring) :
  includes fence (removeFences text) = false.
Proof. unfold removeFences, removeAll. apply removeAllFrom_fence_free. Qed.

(** *** [trim] *)

Lemma trimStart_id (s : jsstring) : cleanHead s -> trimStart s = s.
Proof.
  destruct s as [|c s]; [reflexivity|]. cbn. intros H. rewrite H. reflexivity.
Qed.

Lemma trimStart_cleanHead (s : jsstring) : cleanHead (trimStart s).
Proof.
  induction s as [|c s IH]; [exact I|].
  cbn [trimStart]. destruct (isWhiteSpace c) eqn:E; [exact IH | exact E].
Qed.

Lemma trimStart_idem (s : jsstring) : trimStart (trimStart s) = trimStart s.
Proof. apply trimStart_id, trimStart_cleanHead. Qed.

Lemma trimStart_suffix (s : jsstring) : exists w, s = w ++ trimStart s.
Proof.
  induction s as [|c s [w IH]]; [exists []; reflexivity|].
  cbn [trimStart]. destruct (isWhiteSpace c).
  - exists (c :: w). cbn. rewrite <- IH. reflexivity.
  - exists []. reflexivity.
Qed.

Lemma trimEnd_prefix (s : jsstring) : exists w, s = trimEnd s ++ w.
Proof.
  unfold trimEnd. destruct (trimStart_suffix (rev s)) as [w H].
  exists (rev w). rewrite <- rev_app_distr, <- H, rev_involutive. reflexivity.
Qed.

Lemma trimEnd_idem (s : jsstring) : trimEnd (trimEnd s) = trimEnd s.
Proof. unfold trimEnd. rewrite rev_involutive, trimStart_idem. reflexivity. Qed.

Lemma cleanHead_prefix (a w : jsstring) : cleanHead (a ++ w) -> cleanHead a.
Proof. destruct a; [intros _; exact I | intros H; exact H]. Qed.

Lemma trim_idem (s : jsstring) : trim (trim s) = trim s.
Proof.
  unfold trim. set (s1 := trimStart s).
  assert (H1 : cleanHead s1) by apply trimStart_cleanHead.
  destruct (trimEnd_prefix s1) as [w Hw].
  assert (H2 : cleanHead (trimEnd s1)).
  { apply (cleanHead_prefix _ w). rewrite <- Hw. exact H1. }
  rewrite (trimStart_id _ H2). apply trimEnd_idem.
Qed.

Lemma trim_sub (s : jsstring) : exists a b, s = a ++ trim s ++ b.
Proof.
  unfold trim. destruct (trimStart_suffix s) as [a Ha].
  destruct (trimEnd_prefix (trimStart s)) as [b Hb].
  exists a, b. rewrite <- Hb. exact Ha.
Qed.

Lemma trim_fixed (s : jsstring) : cleanHead s -> cleanHead (rev s) -> trim s = s.
Proof.
  intros H1 H2. unfold trim, trimEnd.
  rewrite (trimStart_id s H1), (trimStart_id _ H2). apply rev_involutive.
Qed.

Lemma trimStart_keeps (pre p post : jsstring) :
  p <> [] -> cleanHead p ->
  exists pre', trimStart (pre ++ p ++ post) = pre' ++ p ++ post.
Proof.
  intros Hne Hp. induction pre as [|c pre [pre' IH]].
  - exists []. cbn [app]. apply trimStart_id.
    destruct p as [|a p]; [contradiction Hne; reflexivity | exact Hp].
  - cbn [app trimStart]. destruct (isWhiteSpace c).
    + exists pre'. exact IH.
    + exists (c :: pre). reflexivity.
Qed.

(** [trim] keeps every occurrence of a pattern that neither starts nor
    ends with a unit it strips. *)
Lemma trim_includes (p s : jsstring) :
  p <> [] -> cleanHead p -> cleanHead (rev p) ->
  includes p s = true -> includes p (trim s) = true.
Proof.
  intros Hne H1 H2 H. apply includes_true_iff in H.
  destruct H as [pre [post ->]].
  destruct (trimStart_keeps pre p post Hne H1) as [pre' E1].
  unfold trim, trimEnd. rewrite E1.
  rewrite !rev_app_distr, <- app_assoc.
  assert (Hr : rev p <> []).
  { intros E. apply Hne. rewrite <- (rev_involutive p), E. reflexivity. }
  destruct (trimStart_keeps (rev post) (rev p) (rev pre') Hr H2) as [post' E2].
  rewrite E2. apply includes_true_iff.
  exists pre', (rev post').
  rewrite !rev_app_distr, !rev_involutive, <- app_assoc. reflexivity.
Qed.

(** *** The markers *)

Lemma beginMark_head : exists t, beginMark = backslash :: t.
Proof. eexists. reflexivity. Qed.

Lemma beginMark_clean :
  beginMark <> [] /\ cleanHead beginMark /\ cleanHead (rev beginMark).
Proof. split; [discriminate|]. split; reflexivity. Qed.

Lemma endMark_last : endMark = removelast endMark ++ [125%N].
Proof. reflexivity. Qed.

Lemma marks_fence_free :
  includes fence beginMark = false /\ includes fence endMark = false /\
  ~ In newline fence.
Proof.
  split; [reflexivity|]. split; [reflexivity|].
  cbn. intuition discriminate.
Qed.

Lemma picture_trim (body : jsstring) : trim (picture body) = picture body.
Proof.
  apply trim_fixed.
  - unfold picture. destruct beginMark_head as [t ->]. reflexivity.
  - unfold picture. rewrite !rev_app_distr.
    rewrite endMark_last at 1. rewrite rev_app_distr. reflexivity.
Qed.

Lemma wrapped_picture (text : jsstring) :
  wrapped text = picture ([newline] ++ text ++ [newline]).
Proof. unfold wrapped, picture. rewrite <- !app_assoc. reflexivity. Qed.

(** *** The match *)

Lemma lazyUntil_here (stop s : jsstring) :
  startsWith stop s = true -> lazyUntil stop s = Some 0%nat.
Proof. intros H. destruct s; cbn [lazyUntil]; rewrite H; reflexivity. Qed.

Lemma lazyUntil_split (stop s : jsstring) (k : nat) :
  lazyUntil stop s = Some k -> exists post, s = firstn k s ++ stop ++ post.
Proof.
  revert k. induction s as [|c s IH]; intros k H.
  - cbn [lazyUntil] in H. destruct (startsWith stop []) eqn:E; [|discriminate H].
    injection H as <-. apply startsWith_true_iff in E. exact E.
  - cbn [lazyUntil] in H. destruct (startsWith stop (c :: s)) eqn:E.
    + injection H as <-. apply startsWith_true_iff in E. exact E.
    + destruct (lazyUntil stop s) as [k'|]; [|discriminate H].
      injection H as <-. destruct (IH k' eq_refl) as [post Hp].
      exists post. cbn [firstn app]. rewrite <- Hp. reflexivity.
Qed.

Lemma matchBlock_cons (c : N) (s : jsstring) :
  matchBlock (c :: s) =
  if startsWith beginMark (c :: s) then
    match lazyUntil endMark (skipn (List.length beginMark) (c :: s)) with
    | Some k =>
      Some (beginMark ++ firstn k (skipn (List.length beginMark) (c :: s))
                      ++ endMark)
    | None => matchBlock s
    end
  else matchBlock s.
Proof. reflexivity. Qed.

Lemma matchBlock_sub (s m : jsstring) :
  matchBlock s = Some m ->
  exists pre mid post, s = pre ++ m ++ post /\ m = picture mid.
Proof.
  induction s as [|c s IH]; intros H; [discriminate H|].
  rewrite matchBlock_cons in H.
  destruct (startsWith beginMark (c :: s)) eqn:Hb.
  - apply startsWith_true_iff in Hb. destruct Hb as [rest Hr].
    rewrite Hr in H.
    assert (Hs : skipn (List.length beginMark) (beginMark ++ rest) = rest).
    { rewrite skipn_app, skipn_all, Nat.sub_diag. reflexivity. }
    rewrite Hs in H.
    destruct (lazyUntil endMark rest) as [k|] eqn:Hl.
    + injection H as <-. destruct (lazyUntil_split _ _ _ Hl) as [post Hp].
      exists [], (firstn k rest), post. split; [|reflexivity].
      rewrite Hr. cbn [app]. rewrite <- !app_assoc. rewrite <- Hp. reflexivity.
    + destruct (IH H) as [pre [mid [post [E1 E2]]]].
      exists (c :: pre), mid, post. split; [|exact E2].
      cbn [app]. rewrite <- E1. reflexivity.
  - destruct (IH H) as [pre [mid [post [E1 E2]]]].
    exists (c :: pre), mid, post. split; [|exact E2].
    cbn [app]. rewrite <- E1. reflexivity.
Qed.

Lemma lazyUntil_body (body post : jsstring) :
  includes endMark (body ++ removelast endMark) = false ->
  lazyUntil endMark (body ++ endMark ++ post) = Some (List.length body).
Proof.
  induction body as [|c body IH]; intros H.
  - cbn [app List.length]. apply lazyUntil_here, startsWith_app.
  - cbn [app includes] in H. apply orb_false_iff in H. destruct H as [H1 H2].
    cbn [app lazyUntil List.length].
    assert (Hw : startsWith endMark (c :: body ++ endMark ++ post) = false).
    { rewrite endMark_last at 2. rewrite <- app_assoc.
      change (c :: body ++ removelast endMark ++ [125%N] ++ post)
        with ((c :: body) ++ removelast endMark ++ [125%N] ++ post).
      rewrite app_assoc. rewrite startsWith_window; [exact H1|].
      rewrite length_app. cbn. lia. }
    rewrite Hw, (IH H2). reflexivity.
Qed.

Lemma matchBlock_first (pre body post : jsstring) :
  avoids backslash pre = true ->
  includes endMark (body ++ removelast endMark) = false ->
  matchBlock (pre ++ picture body ++ post) = Some (picture body).
Proof.
  intros Hpre Hbody. induction pre as [|c pre IH].
  - cbn [app]. unfold picture. rewrite <- !app_assoc.
    destruct beginMark_head as [t Ht].
    assert (Hc : exists s', beginMark ++ body ++ endMark ++ post
                            = backslash :: s').
    { rewrite Ht. eexists. reflexivity. }
    destruct Hc as [s' Hs']. rewrite Hs', matchBlock_cons, <- Hs'.
    rewrite startsWith_app.
    rewrite skipn_app, skipn_all, Nat.sub_diag. cbn [app skipn].
    rewrite (lazyUntil_body body post Hbody).
    rewrite firstn_app, firstn_all, Nat.sub_diag. cbn [firstn].
    rewrite app_nil_r. reflexivity.
  - cbn in Hpre. apply andb_true_iff in Hpre. destruct Hpre as [Hc Hpre].
    apply negb_true_iff, N.eqb_neq in Hc.
    cbn [app]. rewrite matchBlock_cons.
    destruct beginMark_head as [t Ht]. rewrite Ht at 1.
    rewrite startsWith_head_ne by congruence.
    apply IH. exact Hpre.
Qed.

End TikzFacts.

Section TikzTheorems.

Import Tikz.

Lemma lazyUntil_found (stop x y : jsstring) :
  lazyUntil stop (x ++ stop ++ y) <> None.
Proof.
  induction x as [|c x IH].
  - cbn [app]. rewrite lazyUntil_here by apply startsWith_app. discriminate.
  - cbn [app lazyUntil]. destruct (startsWith stop (c :: x ++ stop ++ y));
      [discriminate|].
    destruct (lazyUntil stop (x ++ stop ++ y)); [discriminate | contradiction].
Qed.

Lemma matchBlock_found (pre mid post : jsstring) :
  matchBlock (pre ++ picture mid ++ post) <> None.
Proof.
  induction pre as [|c pre IH].
  - cbn [app]. unfold picture. rewrite <- !app_assoc.
    destruct beginMark_head as [t Ht].
    assert (Hc : exists s', beginMark ++ mid ++ endMark ++ post
                            = backslash :: s').
    { rewrite Ht. eexists. reflexivity. }
    destruct Hc as [s' Hs']. rewrite Hs', matchBlock_cons, <- Hs'.
    rewrite startsWith_app.
    rewrite skipn_app, skipn_all, Nat.sub_diag. cbn [app skipn].
    pose proof (lazyUntil_found endMark mid post) as Hl.
    destruct (lazyUntil endMark (mid ++ endMark ++ post));
      [discriminate | contradiction].
  - cbn [app]. rewrite matchBlock_cons.
    destruct (startsWith beginMark (c :: pre ++ picture mid ++ post)); [|exact IH].
    destruct (lazyUntil endMark _); [discriminate | exact IH].
Qed.

Lemma matchBlock_none_sub (a s b : jsstring) :
  matchBlock (a ++ s ++ b) = None -> matchBlock s = None.
Proof.
  intros H. destruct (matchBlock s) as [m|] eqn:E; [|reflexivity].
  destruct (matchBlock_sub s m E) as [pre [mid [post [Hs Hm]]]].
  exfalso. apply (matchBlock_found (a ++ pre) mid (post ++ b)).
  rewrite <- H. f_equal. rewrite Hs, Hm, <- !app_assoc. reflexivity.
Qed.

(** X24.  What the diagram service hands to the compiler.  Whatever the
    model answered, the code that [generateTikzCode] resolves to contains
    the opening marker of a picture, contains no markdown fence and has no
    white space at either end.  When the answer, fences removed, holds an
    opening marker followed somewhere by a closing marker, the code is
    that block alone, a picture cut out of the answer.  When it holds no
    opening marker the code is the whole answer wrapped into a picture; an
    absent answer gives the empty picture.  When it holds an opening marker
    that no closing marker follows, the answer goes out trimmed but
    unterminated: the code then holds no complete picture. *)
Theorem tikz_code_shape :
  forall (responseText : option jsstring),
    let text := removeFences (match responseText with
                              | Some t => t
                              | None => []
                              end) in
    let code := generateTikzCode responseText in
    includes beginMark code = true /\
    includes fence code = false /\
    trim code = code /\
    (forall m, matchBlock text = Some m ->
               code = m /\
               exists pre mid post, text = pre ++ m ++ post /\ m = picture mid) /\
    (includes beginMark text = false -> code = wrapped text) /\
    (matchBlock text = None -> includes beginMark text = true ->
     code = trim text /\ matchBlock code = None) /\
    generateTikzCode None = wrapped [].
Proof.
  intros responseText text code.
  destruct beginMark_clean as [Bne [Bh Bl]].
  destruct marks_fence_free as [FB [FE Fn]].
  assert (Ftext : includes fence text = false) by apply removeFences_fence_free.
  assert (Hcode : exists X, code = trim X /\ includes beginMark X = true /\
                            includes fence X = false).
  { unfold code, generateTikzCode. fold text.
    destruct (matchBlock text) as [m|] eqn:Em.
    - exists m. split; [reflexivity|].
      destruct (matchBlock_sub text m Em) as [pre [mid [post [Ht Hm]]]]. split.
      + rewrite Hm. apply includes_true_iff. exists [], (mid ++ endMark).
        reflexivity.
      + apply (includes_false_sub fence pre m post). rewrite <- Ht. exact Ftext.
    - destruct (includes beginMark text) eqn:Ei; cbn [negb].
      + exists text. repeat split; assumption.
      + exists (wrapped text). split; [reflexivity|]. split.
        * apply includes_true_iff. exists [].
          exists ([newline] ++ text ++ [newline] ++ endMark). reflexivity.
        * unfold wrapped. cbn [app].
          apply includes_split; [exact Fn | exact FB |].
          apply includes_split; assumption. }
  destruct Hcode as [X [EX [HB HF]]].
  split; [|split; [|split; [|split; [|split; [|split]]]]].
  - rewrite EX. apply trim_includes; assumption.
  - rewrite EX. destruct (trim_sub X) as [a [b Hab]].
    apply (includes_false_sub fence a (trim X) b). rewrite <- Hab. exact HF.
  - rewrite EX. apply trim_idem.
  - intros m Em. destruct (matchBlock_sub text m Em) as [pre [mid [post [Ht Hm]]]].
    split.
    + unfold code, generateTikzCode. fold text. rewrite Em, Hm.
      apply picture_trim.
    + exists pre, mid, post. split; assumption.
  - intros Ei. unfold code, generateTikzCode. fold text.
    destruct (matchBlock text) as [m|] eqn:Em.
    + exfalso. destruct (matchBlock_sub text m Em) as [pre [mid [post [Ht Hm]]]].
      assert (T : includes beginMark text = true).
      { apply includes_true_iff. exists pre, (mid ++ endMark ++ post).
        rewrite Ht, Hm. unfold picture. rewrite <- !app_assoc. reflexivity. }
      rewrite T in Ei. discriminate Ei.
    + rewrite Ei. cbn [negb]. change (trim (wrapped text) = wrapped text).
      rewrite wrapped_picture. apply picture_trim.
  - intros Em Ei.
    assert (Ec : code = trim text).
    { unfold code, generateTikzCode. fold text. rewrite Em, Ei. reflexivity. }
    split; [exact Ec|]. rewrite Ec.
    destruct (trim_sub text) as [a [b Hab]].
    apply (matchBlock_none_sub a (trim text) b). rewrite <- Hab. exact Em.
  - change (generateTikzCode None) with (trim (wrapped [])).
    rewrite wrapped_picture. apply picture_trim.
Qed.

(** *** Answers with a fence *)

Lemma removeAll_no_match (pat s : jsstring) :
  includes pat s = false -> removeAll pat s = s.
Proof.
  unfold removeAll. induction s as [|c s IH]; intros H; [reflexivity|].
  cbn [includes] in H. apply orb_false_iff in H. destruct H as [H1 H2].
  cbn [removeAllFrom]. rewrite H1, (IH H2). reflexivity.
Qed.

Lemma includes_avoids (a : N) (p s : jsstring) :
  avoids a s = true -> includes (a :: p) s = false.
Proof.
  induction s as [|c s IH]; intros H; [reflexivity|].
  cbn in H. apply andb_true_iff in H. destruct H as [Hc Hs].
  apply negb_true_iff, N.eqb_neq in Hc.
  cbn [includes]. rewrite startsWith_head_ne by congruence.
  rewrite (IH Hs). reflexivity.
Qed.

Lemma includes_avoids_app (a : N) (p x y : jsstring) :
  avoids a x = true -> includes (a :: p) (x ++ y) = includes (a :: p) y.
Proof.
  induction x as [|c x IH]; intros H; [reflexivity|].
  cbn in H. apply andb_true_iff in H. destruct H as [Hc Hs].
  apply negb_true_iff, N.eqb_neq in Hc.
  cbn [app includes]. rewrite startsWith_head_ne by congruence.
  rewrite (IH Hs). reflexivity.
Qed.

Lemma fenceLatex_units : fenceLatex = backtick :: backtick :: backtick :: lit "latex".
Proof. reflexivity. Qed.

Lemma picture_avoids_backtick (body : jsstring) :
  avoids backtick body = true -> avoids backtick (picture body) = true.
Proof.
  intros H. unfold picture. rewrite !avoids_app, H. reflexivity.
Qed.

Lemma closing_fence_stays (post : jsstring) :
  avoids backtick post = true ->
  startsWith (lit "latex") post = false ->
  includes fenceLatex (fence ++ post) = false.
Proof.
  intros Hp Hl. rewrite fence_units, fenceLatex_units.
  cbn [app includes]. cbn [startsWith]. rewrite !N.eqb_refl. cbn [andb].
  rewrite Hl. cbn [orb].
  rewrite (includes_avoids _ _ _ Hp), orb_false_r.
  destruct post as [|c post]; [reflexivity|].
  cbn in Hp. apply andb_true_iff in Hp. destruct Hp as [Hc _].
  apply negb_true_iff in Hc. rewrite N.eqb_sym in Hc.
  rewrite Hc. reflexivity.
Qed.

Lemma fenced_tail_stays (body post : jsstring) :
  avoids backtick body = true ->
  avoids backtick post = true ->
  startsWith (lit "latex") post = false ->
  includes fenceLatex ([newline] ++ picture body ++ [newline] ++ fence ++ post)
  = false.
Proof.
  intros Hb Hp Hl.
  replace ([newline] ++ picture body ++ [newline] ++ fence ++ post)
    with (([newline] ++ picture body ++ [newline]) ++ fence ++ post)
    by (rewrite <- !app_assoc; reflexivity).
  rewrite fenceLatex_units at 1. rewrite includes_avoids_app.
  - rewrite <- fenceLatex_units. apply closing_fence_stays; assumption.
  - rewrite !avoids_app, (picture_avoids_backtick body Hb). reflexivity.
Qed.

Lemma removeAll_fence_plain (x y : jsstring) :
  avoids backtick x = true -> removeAll fence (x ++ y) = x ++ removeAll fence y.
Proof. rewrite fence_units. apply removeAll_plain. Qed.

Lemma removeAll_fence_match (s : jsstring) :
  removeAll fence (fence ++ s) = removeAll fence s.
Proof. rewrite fence_units. apply removeAll_match. Qed.

Lemma removeAll_fence_plain_all (x : jsstring) :
  avoids backtick x = true -> removeAll fence x = x.
Proof. rewrite fence_units. apply removeAll_plain_all. Qed.

Lemma generateTikzCode_cleaned (text pre body post : jsstring) :
  removeFences text = pre ++ picture body ++ post ->
  avoids backslash pre = true ->
  includes endMark (body ++ removelast endMark) = false ->
  generateTikzCode (Some text) = picture body.
Proof.
  intros Ht Hpre Hbody. unfold generateTikzCode. rewrite Ht.
  rewrite (matchBlock_first pre body post Hpre Hbody). apply picture_trim.
Qed.

(** X25.  An answer in the usual shapes is unwrapped to the picture.  Let
    the picture's body hold no backtick and no closing marker of its own,
    let the text before it hold neither backtick nor backslash, and the
    text behind it no backtick and no leading [latex].  Then the bare
    answer, the answer fenced with [```latex] and the answer fenced with
    plain [```] all give exactly the picture: the chatter around it and the
    fences are gone, nothing of the picture is lost. *)
Theorem fenced_answer_is_unwrapped :
  forall (pre body post : jsstring),
    avoids backtick pre = true ->
    avoids backslash pre = true ->
    avoids backtick body = true ->
    includes endMark (body ++ removelast endMark) = false ->
    avoids backtick post = true ->
    startsWith (lit "latex") post = false ->
    generateTikzCode (Some (pre ++ picture body ++ post)) = picture body /\
    generateTikzCode
      (Some (pre ++ fenceLatex ++ [newline] ++ picture body ++ [newline]
                 ++ fence ++ post)) = picture body /\
    generateTikzCode
      (Some (pre ++ fence ++ [newline] ++ picture body ++ [newline]
                 ++ fence ++ post)) = picture body.
Proof.
  intros pre body post Hpre1 Hpre2 Hb1 Hb2 Hpost1 Hpost2.
  pose proof (picture_avoids_backtick body Hb1) as HP.
  assert (Hmid : avoids backtick ([newline] ++ picture body ++ [newline]) = true).
  { rewrite !avoids_app, HP. reflexivity. }
  assert (Hsecond : removeAll fence
                      (([newline] ++ picture body ++ [newline]) ++ fence ++ post)
                    = [newline] ++ picture body ++ [newline] ++ post).
  { rewrite (removeAll_fence_plain _ _ Hmid), removeAll_fence_match,
      (removeAll_fence_plain_all _ Hpost1), <- !app_assoc. reflexivity. }
  assert (Hpre' : avoids backslash (pre ++ [newline]) = true).
  { rewrite avoids_app, Hpre2. reflexivity. }
  split; [|split].
  - apply (generateTikzCode_cleaned _ pre body post); try assumption.
    unfold removeFences.
    assert (Hall : avoids backtick (pre ++ picture body ++ post) = true).
    { rewrite !avoids_app, Hpre1, HP, Hpost1. reflexivity. }
    rewrite fenceLatex_units, (removeAll_plain_all _ _ _ Hall).
    apply removeAll_fence_plain_all. exact Hall.
  - apply (generateTikzCode_cleaned _ (pre ++ [newline]) body ([newline] ++ post));
      try assumption.
    unfold removeFences.
    assert (Hfirst : removeAll fenceLatex
                       (pre ++ fenceLatex ++ [newline] ++ picture body
                            ++ [newline] ++ fence ++ post)
                     = pre ++ [newline] ++ picture body ++ [newline]
                           ++ fence ++ post).
    { rewrite fenceLatex_units at 1.
      rewrite (removeAll_plain _ _ _ _ Hpre1). rewrite <- fenceLatex_units.
      f_equal. rewrite fenceLatex_units at 1 2. rewrite removeAll_match.
      rewrite <- fenceLatex_units. apply removeAll_no_match.
      apply fenced_tail_stays; assumption. }
    rewrite Hfirst. rewrite (removeAll_fence_plain _ _ Hpre1).
    replace ([newline] ++ picture body ++ [newline] ++ fence ++ post)
      with (([newline] ++ picture body ++ [newline]) ++ fence ++ post)
      by (rewrite <- !app_assoc; reflexivity).
    rewrite Hsecond, <- !app_assoc. reflexivity.
  - apply (generateTikzCode_cleaned _ (pre ++ [newline]) body ([newline] ++ post));
      try assumption.
    unfold removeFences.
    assert (Hfirst : removeAll fenceLatex
                       (pre ++ fence ++ [newline] ++ picture body
                            ++ [newline] ++ fence ++ post)
                     = pre ++ fence ++ [newline] ++ picture body
                           ++ [newline] ++ fence ++ post).
    { apply removeAll_no_match. rewrite fenceLatex_units at 1.
      rewrite (includes_avoids_app _ _ _ _ Hpre1). rewrite <- fenceLatex_units.
      rewrite fence_units. cbn [app includes].
      assert (Hn : forall s, startsWith fenceLatex (backtick :: backtick
                                                      :: backtick :: newline :: s)
                             = false) by reflexivity.
      assert (Hn2 : forall s, startsWith fenceLatex (backtick :: backtick
                                                       :: newline :: s)
                              = false) by reflexivity.
      assert (Hn3 : forall s, startsWith fenceLatex (backtick :: newline :: s)
                              = false) by reflexivity.
      rewrite Hn, Hn2, Hn3. cbn [orb].
      apply (fenced_tail_stays body post); assumption. }
    rewrite Hfirst. rewrite (removeAll_fence_plain _ _ Hpre1).
    rewrite removeAll_fence_match.
    replace ([newline] ++ picture body ++ [newline] ++ fence ++ post)
      with (([newline] ++ picture body ++ [newline]) ++ fence ++ post)
      by (rewrite <- !app_assoc; reflexivity).
    rewrite Hsecond, <- !app_assoc. reflexivity.
Qed.

Lemma fenced_answer_is_unwrapped_witness :
  generateTikzCode
    (Some (lit "Sure: " ++ fenceLatex ++ [newline]
               ++ picture (lit "\draw (0,0) -- (1,1);") ++ [newline]
               ++ fence ++ []))
  = picture (lit "\draw (0,0) -- (1,1);").
Proof.
  exact (proj1 (proj2 (fenced_answer_is_unwrapped
                         (lit "Sure: ") (lit "\draw (0,0) -- (1,1);") []
                         eq_refl eq_refl eq_refl eq_refl eq_refl eq_refl))).
Defined.

(** The same answer, evaluated. *)
Example fenced_answer_evaluated :
  generateTikzCode
    (Some (lit "Sure: ```latex" ++ [newline]
               ++ lit "\begin{tikzpicture}\draw (0,0) -- (1,1);\end{tikzpicture}"
               ++ [newline] ++ lit "```"))
  = lit "\begin{tikzpicture}\draw (0,0) -- (1,1);\end{tikzpicture}".
Proof. vm_compute. reflexivity. Qed.

End TikzTheorems.
